(** * OpenLR map-matching router (openlr/router.cpp): a shallow embedding

    The router decodes a location reference (a list of way-points) into a
    path of road-graph edges.  C++ [double] is IEEE-754 binary64, embedded as
    Rocq's primitive [float]; C++ [int] is a 32-bit two's complement integer,
    embedded as [Z] with its wrap-around written out.  Functions that can hit
    a failing CHECK/ASSERT, undefined behaviour or an unbounded loop return a
    [res]. *)

From Stdlib Require Import ZArith List Bool Lia Floats Permutation.
Import ListNotations.

Set Warnings "-inexact-float".
Set Implicit Arguments.

(** ** Outcomes of a call *)

(** [Ok a]: the call returns [a].  [Crash]: a CHECK or ASSERT fails, or the
    C++ code has undefined behaviour.  [Fuel]: the loop bound of the model was
    reached. *)
Inductive res (A : Type) : Type :=
| Ok (a : A)
| Crash
| Fuel.
Arguments Ok {A} a.
Arguments Crash {A}.
Arguments Fuel {A}.

Definition bind {A B : Type} (c : res A) (k : A -> res B) : res B :=
  match c with
  | Ok a => k a
  | Crash => Crash
  | Fuel => Fuel
  end.

Notation "x <- c ;; k" := (bind c (fun x => k))
  (at level 61, c at next level, right associativity).
Notation "' p <- c ;; k" := (bind c (fun x => let p := x in k))
  (at level 61, p pattern, c at next level, right associativity).

(** [CHECK(b)] and [ASSERT(b)] of base/assert.hpp. *)
Definition CHECK (b : bool) : res unit := if b then Ok tt else Crash.

(** [v[i]] on a [std::vector]: undefined behaviour out of range. *)
Definition at_index {A : Type} (v : list A) (i : nat) : res A :=
  match nth_error v i with
  | Some a => Ok a
  | None => Crash
  end.

(** A loop body run over a range, stopping at the first failure. *)
Fixpoint for_each {A S : Type} (fn : A -> S -> res S) (l : list A) (s : S) : res S :=
  match l with
  | [] => Ok s
  | a :: l' => s' <- fn a s ;; for_each fn l' s'
  end.

(** ** Machine numbers *)

Module Int.
(** C++ [int]: 32 bits, two's complement. *)
Definition wrap (z : Z) : Z := ((z + 2 ^ 31) mod 2 ^ 32 - 2 ^ 31)%Z.
Definition sub (a b : Z) : Z := wrap (a - b).
Definition add (a b : Z) : Z := wrap (a + b).
Definition abs (a : Z) : Z := wrap (Z.abs a).
Definition min (a b : Z) : Z := if (b <? a)%Z then b else a.
End Int.

Definition double := float.
Bind Scope float_scope with double.

Module Dbl.
Open Scope float_scope.

(** The comparison operators of C++ on [double]. *)
Definition lt (a b : double) : bool := a <? b.
Definition gt (a b : double) : bool := b <? a.
Definition le (a b : double) : bool := a <=? b.
Definition ge (a b : double) : bool := b <=? a.
Definition eq (a b : double) : bool := a =? b.
Definition ne (a b : double) : bool := negb (a =? b).

(** [std::min] and [std::max]: [min(a,b) = (b < a) ? b : a],
    [max(a,b) = (a < b) ? b : a]. *)
Definition min (a b : double) : double := if b <? a then b else a.
Definition max (a b : double) : double := if a <? b then b else a.

(** [numeric_limits<double>::max()]. *)
Definition DBL_MAX : double := 0x1.fffffffffffffp+1023.

(** Modelled from the spec: [my::clamp] of base/math.hpp, which the spec
    calls "clamp to [lo, hi]": a value above [hi] gives [hi], a value below
    [lo] gives [lo], anything else is returned as it is. *)
Definition clamp (x lo hi : double) : double :=
  if hi <? x then hi else if x <? lo then lo else x.

(** Conversion of an [int] to [double] (exact for 32-bit values). *)
Definition of_int (z : Z) : double :=
  if (z <? 0)%Z then - of_uint63 (Uint63.of_Z (- z)) else of_uint63 (Uint63.of_Z z).

(** Truncation toward zero of the number a [spec_float] denotes. *)
Definition SFtrunc (f : spec_float) : option Z :=
  match f with
  | S754_zero _ => Some 0%Z
  | S754_finite s m e =>
      let a := match e with
               | Zneg p => Z.shiftr (Zpos m) (Zpos p)
               | _ => Z.shiftl (Zpos m) e
               end in
      Some (if s then (- a)%Z else a)
  | _ => None
  end.

(** Conversion of a [double] to [uint32_t]: truncation toward zero;
    undefined behaviour for NaN, infinities and values out of range. *)
Definition to_uint32 (x : double) : res Z :=
  match SFtrunc (Prim2SF x) with
  | Some z => if ((0 <=? z) && (z <? 2 ^ 32))%Z then Ok z else Crash
  | None => Crash
  end.

Definition is_nan (x : double) : bool := negb (x =? x).
End Dbl.

(** ** Points, junctions and road-graph edges *)

Module m2.
Open Scope float_scope.

Record PointD : Type := Point { x : double; y : double }.

Definition Zero : PointD := Point 0 0.

(** Modelled from the spec: the operators of m2::Point (geometry/point2d.hpp),
    a 2-D coordinate pair compared exactly and ordered lexicographically. *)
Definition sub (a b : PointD) : PointD := Point (x a - x b) (y a - y b).
Definition eqb (a b : PointD) : bool := Dbl.eq (x a) (x b) && Dbl.eq (y a) (y b).
Definition neb (a b : PointD) : bool := negb (eqb a b).
Definition ltb (a b : PointD) : bool :=
  if Dbl.ne (x a) (x b) then Dbl.lt (x a) (x b) else Dbl.lt (y a) (y b).
End m2.

(** The geometry and math helpers the router calls; their code is not part
    of router.cpp (MercatorBounds, geometry/segment2d.hpp, geometry/angles.hpp,
    base/math.hpp, platform/location.hpp). *)
Class Geometry : Type := {
  DistanceOnEarth : m2.PointD -> m2.PointD -> double;
  IsPointOnSegmentEps : m2.PointD -> m2.PointD -> m2.PointD -> double -> bool;
  PointAtSegment : m2.PointD -> m2.PointD -> double -> m2.PointD;
  DotProduct : m2.PointD -> m2.PointD -> double;
  SquareLength : m2.PointD -> m2.PointD -> double;
  AngleTo : m2.PointD -> m2.PointD -> double;
  RadToDeg : double -> double;
  DegToRad : double -> double;
  AngleToBearing : double -> double
}.

(** Modelled from the spec: the enum openlr::FunctionalRoadClass
    (openlr/openlr_model.hpp): the functional road classes 0 to 7 and
    "not a value". *)
Inductive FunctionalRoadClass : Type :=
| FRC0 | FRC1 | FRC2 | FRC3 | FRC4 | FRC5 | FRC6 | FRC7 | NotAValue.

(** [static_cast<int>] on the enum. *)
Definition frc_to_int (f : FunctionalRoadClass) : Z :=
  match f with
  | FRC0 => 0 | FRC1 => 1 | FRC2 => 2 | FRC3 => 3 | FRC4 => 4
  | FRC5 => 5 | FRC6 => 6 | FRC7 => 7 | NotAValue => 8
  end.

Module routing.

(** Modelled from the spec: routing::Junction (routing/road_graph.hpp), "a
    graph point with an altitude.  Two junctions are equal iff point and
    altitude match exactly." *)
Record Junction : Type := MakeJunction { GetPoint : m2.PointD; GetAltitude : Z }.

Definition Junction_eqb (a b : Junction) : bool :=
  m2.eqb (GetPoint a) (GetPoint b) && (GetAltitude a =? GetAltitude b)%Z.
Definition Junction_neb (a b : Junction) : bool := negb (Junction_eqb a b).
Definition Junction_ltb (a b : Junction) : bool :=
  if m2.neb (GetPoint a) (GetPoint b) then m2.ltb (GetPoint a) (GetPoint b)
  else (GetAltitude a <? GetAltitude b)%Z.

(** Modelled from the spec: routing::Edge (routing/road_graph.hpp), "a
    directed edge produced by the graph.  Attributes: start/end junctions,
    is_fake, is_part_of_real, feature_id (only for real edges)." *)
Record Edge : Type := MakeEdge {
  GetFeatureId : Z;
  IsFake : bool;
  IsPartOfReal : bool;
  GetStartJunction : Junction;
  GetEndJunction : Junction
}.

Definition MakeFake (u v : Junction) (partOfReal : bool) : Edge :=
  MakeEdge 0 true partOfReal u v.

Definition GetReverseEdge (e : Edge) : Edge :=
  MakeEdge (GetFeatureId e) (IsFake e) (IsPartOfReal e) (GetEndJunction e) (GetStartJunction e).

Definition Edge_eqb (a b : Edge) : bool :=
  (GetFeatureId a =? GetFeatureId b)%Z && Bool.eqb (IsFake a) (IsFake b)
  && Bool.eqb (IsPartOfReal a) (IsPartOfReal b)
  && Junction_eqb (GetStartJunction a) (GetStartJunction b)
  && Junction_eqb (GetEndJunction a) (GetEndJunction b).
Definition Edge_neb (a b : Edge) : bool := negb (Edge_eqb a b).

(** A default-constructed junction and edge. *)
Definition Junction_default : Junction := MakeJunction m2.Zero 0.
Definition Edge_default : Edge := MakeFake Junction_default Junction_default false.

(** The queries of the road graph (routing::FeaturesRoadGraph) the router
    uses; the graph itself is a collaborator. *)
Class RoadGraph (G : Type) : Type := {
  ResetFakes : G -> G;
  AddFakeEdges : G -> Junction -> list (Edge * Junction) -> G;
  FindClosestEdges : G -> m2.PointD -> nat -> list (Edge * Junction);
  GetRegularOutgoingEdges : G -> Junction -> list Edge;
  GetRegularIngoingEdges : G -> Junction -> list Edge;
  GetFakeOutgoingEdges : G -> Junction -> list Edge;
  GetFakeIngoingEdges : G -> Junction -> list Edge
}.
End routing.

(** ** [std::map] with the comparator [ltb] *)

Module StdMap.
Section Map.
Variables K V : Type.
Variable ltb : K -> K -> bool.

(** Two keys are the same key when neither is less than the other. *)
Definition equiv (a b : K) : bool := negb (ltb a b) && negb (ltb b a).

Definition t : Type := list (K * V).

Fixpoint find (m : t) (k : K) : option V :=
  match m with
  | [] => None
  | (k', v) :: m' => if equiv k' k then Some v else find m' k
  end.

Definition count (m : t) (k : K) : nat :=
  match find m k with Some _ => 1 | None => 0 end.

(** [m[k] = v]. *)
Fixpoint assign (m : t) (k : K) (v : V) : t :=
  match m with
  | [] => [(k, v)]
  | (k', v') :: m' => if equiv k' k then (k', v) :: m' else (k', v') :: assign m' k v
  end.

(** Reading [m[k]]: a missing key is inserted with the default value [d]. *)
Definition index (m : t) (k : K) (d : V) : V * t :=
  match find m k with
  | Some v => (v, m)
  | None => (d, assign m k d)
  end.
End Map.
End StdMap.

(** ** Constants of router.cpp *)

Open Scope float_scope.

Definition kMaxRoadCandidates : nat := 10.
Definition kDistanceAccuracyM : double := 1000.
Definition kEps : double := 1e-9.
Definition kBearingDist : double := 25.
Definition kNumBuckets : Z := 256.
Definition kAnglesInBucket : double := 360 / Dbl.of_int kNumBuckets.

(** ** Score *)

Record Score : Type := MakeScore { m_distance : double; m_penalty : double }.

(** [Score()]: both members start at [0.0]. *)
Definition Score_zero : Score := MakeScore 0 0.

Definition kTrueFakeCoeff : Z := 10.
Definition kFakeCoeff : double := 0.001.
Definition kIntermediateErrorCoeff : Z := 3.
Definition kDistanceErrorCoeff : Z := 3.
Definition kBearingErrorCoeff : Z := 5.

Definition GetDistance (s : Score) : double := m_distance s.
Definition GetPenalty (s : Score) : double := m_penalty s.
Definition GetScore (s : Score) : double := m_distance s + m_penalty s.

Definition AddDistance (s : Score) (p : double) : Score :=
  MakeScore (m_distance s + p) (m_penalty s).

Definition AddFakePenalty (s : Score) (p : double) (partOfReal : bool) : Score :=
  MakeScore (m_distance s)
            (m_penalty s + (if partOfReal then kFakeCoeff else Dbl.of_int kTrueFakeCoeff) * p).

Definition AddIntermediateErrorPenalty (s : Score) (p : double) : Score :=
  MakeScore (m_distance s) (m_penalty s + Dbl.of_int kIntermediateErrorCoeff * p).

Definition AddDistanceErrorPenalty (s : Score) (p : double) : Score :=
  MakeScore (m_distance s) (m_penalty s + Dbl.of_int kDistanceErrorCoeff * p).

(** [operator<], [operator>], [operator==] and [operator!=] of Score. *)
Definition Score_ltb (a b : Score) : bool :=
  let ls := GetScore a in
  let rs := GetScore b in
  if Dbl.ne ls rs then Dbl.lt ls rs
  else if Dbl.ne (m_distance a) (m_distance b) then Dbl.lt (m_distance a) (m_distance b)
  else Dbl.lt (m_penalty a) (m_penalty b).

Definition Score_gtb (a b : Score) : bool := Score_ltb b a.

Definition Score_eqb (a b : Score) : bool :=
  Dbl.eq (m_distance a) (m_distance b) && Dbl.eq (m_penalty a) (m_penalty b).

Definition Score_neb (a b : Score) : bool := negb (Score_eqb a b).

(** ** Search vertices and edges *)

Record Vertex : Type := MakeVertex {
  m_junction : routing.Junction;
  m_stageStart : routing.Junction;
  m_stageStartDistance : double;
  m_stage : nat;
  m_bearingChecked : bool
}.

Definition set_junction (u : Vertex) (j : routing.Junction) : Vertex :=
  MakeVertex j (m_stageStart u) (m_stageStartDistance u) (m_stage u) (m_bearingChecked u).

Definition set_bearingChecked (u : Vertex) (b : bool) : Vertex :=
  MakeVertex (m_junction u) (m_stageStart u) (m_stageStartDistance u) (m_stage u) b.

(** [false < true] on [bool]. *)
Definition bool_ltb (a b : bool) : bool := negb a && b.

Definition Vertex_ltb (a b : Vertex) : bool :=
  if routing.Junction_neb (m_junction a) (m_junction b)
  then routing.Junction_ltb (m_junction a) (m_junction b)
  else if routing.Junction_neb (m_stageStart a) (m_stageStart b)
  then routing.Junction_ltb (m_stageStart a) (m_stageStart b)
  else if Dbl.ne (m_stageStartDistance a) (m_stageStartDistance b)
  then Dbl.lt (m_stageStartDistance a) (m_stageStartDistance b)
  else if negb (m_stage a =? m_stage b)%nat
  then (m_stage a <? m_stage b)%nat
  else bool_ltb (m_bearingChecked a) (m_bearingChecked b).

Definition Vertex_eqb (a b : Vertex) : bool :=
  routing.Junction_eqb (m_junction a) (m_junction b)
  && routing.Junction_eqb (m_stageStart a) (m_stageStart b)
  && Dbl.eq (m_stageStartDistance a) (m_stageStartDistance b)
  && (m_stage a =? m_stage b)%nat
  && Bool.eqb (m_bearingChecked a) (m_bearingChecked b).

Definition Vertex_neb (a b : Vertex) : bool := negb (Vertex_eqb a b).

Record Edge : Type := MakeSearchEdge {
  m_u : Vertex;
  m_v : Vertex;
  m_raw : routing.Edge;
  m_isSpecial : bool
}.

Definition MakeNormal (u v : Vertex) (raw : routing.Edge) : Edge :=
  MakeSearchEdge u v raw false.

Definition MakeSpecial (u v : Vertex) : Edge :=
  MakeSearchEdge u v (routing.MakeFake (m_junction u) (m_junction v) false) true.

Definition IsFake (e : Edge) : bool := routing.IsFake (m_raw e).
Definition IsSpecial (e : Edge) : bool := m_isSpecial e.

Definition ToPair (e : Edge) : m2.PointD * m2.PointD :=
  (routing.GetPoint (routing.GetStartJunction (m_raw e)),
   routing.GetPoint (routing.GetEndJunction (m_raw e))).

Definition ToPairRev (e : Edge) : m2.PointD * m2.PointD :=
  (routing.GetPoint (routing.GetEndJunction (m_raw e)),
   routing.GetPoint (routing.GetStartJunction (m_raw e))).

(** The value of a missing entry of [links] ([Links::operator[]]). *)
Definition Vertex_default : Vertex :=
  MakeVertex routing.Junction_default routing.Junction_default 0 0 false.
Definition Edge_default : Edge :=
  MakeSearchEdge Vertex_default Vertex_default routing.Edge_default false.

(** ** Way-points and the router's members *)

Record WayPoint : Type := MakeWayPoint {
  m_point : m2.PointD;
  m_distanceToNextPointM : double;
  m_bearing : Z;
  m_lfrcnp : FunctionalRoadClass
}.

Definition EdgeCache : Type := StdMap.t routing.Junction (list routing.Edge).

Record Router (G : Type) : Type := MakeRouter {
  m_graph : G;
  m_roadInfoGetter : Z -> FunctionalRoadClass;
  m_outgoingCache : EdgeCache;
  m_ingoingCache : EdgeCache;
  m_points : list WayPoint;
  m_positiveOffsetM : double;
  m_negativeOffsetM : double;
  m_pivots : list (list m2.PointD);
  m_sourceJunction : routing.Junction;
  m_targetJunction : routing.Junction
}.

(** The local state of [FindPath]: the priority queue, [scores] and [links]. *)
Definition State : Type := Score * Vertex.
Definition Links : Type := StdMap.t Vertex (Vertex * Edge).

Record Search : Type := MakeSearch {
  queue : list State;
  scores : StdMap.t Vertex Score;
  links : Links
}.

(** [operator<] on [std::pair<Score, Vertex>]. *)
Definition State_ltb (a b : State) : bool :=
  Score_ltb (fst a) (fst b)
  || (negb (Score_ltb (fst b) (fst a)) && Vertex_ltb (snd a) (snd b)).

(** [queue.top()] followed by [queue.pop()] on a
    [priority_queue<State, vector<State>, greater<State>>]: a least element
    leaves the queue.  Elements that compare equivalent have the same score
    and vertex, so which of them leaves first makes no difference. *)
Fixpoint queue_pop (q : list State) : option (State * list State) :=
  match q with
  | [] => None
  | a :: q' =>
      match queue_pop q' with
      | None => Some (a, [])
      | Some (b, rest) => if State_ltb b a then Some (b, a :: rest) else Some (a, q')
      end
  end.

Definition queue_emplace (q : list State) (s : State) : list State := s :: q.

(** ** The router *)

Section RouterCode.
Context {geo : Geometry} {G : Type} {graph : routing.RoadGraph G}.

(** Modelled from the spec: [GetWeight] (openlr/router.hpp), the "real
    weight" of an edge, "its geodesic length". *)
Definition GetWeight (e : routing.Edge) : double :=
  DistanceOnEarth (routing.GetPoint (routing.GetStartJunction e))
                  (routing.GetPoint (routing.GetEndJunction e)).

(** [Bearing(a, b)]: the compass bucket of the direction from [a] to [b]. *)
Definition Bearing (a b : m2.PointD) : res Z :=
  let angle := AngleToBearing (RadToDeg (AngleTo a b)) in
  _ <- CHECK (Dbl.le angle (Dbl.of_int 360)) ;;
  _ <- CHECK (Dbl.ge angle (Dbl.of_int 0)) ;;
  Dbl.to_uint32 (Dbl.clamp (angle / kAnglesInBucket) 0 255).

(** [Score::AddBearingPenalty(expected, actual)], with its four range
    assertions. *)
Definition AddBearingPenalty (s : Score) (expected actual : Z) : res Score :=
  _ <- CHECK (expected <? kNumBuckets)%Z ;;
  _ <- CHECK (0 <=? expected)%Z ;;
  _ <- CHECK (actual <? kNumBuckets)%Z ;;
  _ <- CHECK (0 <=? actual)%Z ;;
  let diff := Int.abs (Int.sub expected actual) in
  let angle :=
    DegToRad (Dbl.of_int (Int.min diff (Int.sub kNumBuckets diff)) * kAnglesInBucket) in
  Ok (MakeScore (m_distance s)
                (m_penalty s + Dbl.of_int kBearingErrorCoeff * angle * kBearingDist)).

(** Modelled from the spec: [IsFinalVertex] (openlr/router.hpp), "final
    vertices: any vertex with stage == num_points - 1", the number of pivot
    lists. *)
Definition IsFinalVertex (r : Router G) (u : Vertex) : bool :=
  (m_stage u =? length (m_pivots r))%nat.

Definition NeedToCheckBearing (r : Router G) (u : Vertex) (distanceM : double) : bool :=
  if IsFinalVertex r u || m_bearingChecked u then false
  else Dbl.ge distanceM (m_stageStartDistance u + kBearingDist).

Definition GetPotential (r : Router G) (u : Vertex) : res double :=
  if IsFinalVertex r u then Ok 0
  else
    _ <- CHECK (m_stage u <? length (m_pivots r))%nat ;;
    pivots <- at_index (m_pivots r) (m_stage u) ;;
    _ <- CHECK (negb (length pivots =? 0)%nat) ;;
    let point := routing.GetPoint (m_junction u) in
    Ok (fold_left (fun potential pivot => Dbl.min potential (DistanceOnEarth pivot point))
                  pivots Dbl.DBL_MAX).

Definition NearNextStage (r : Router G) (u : Vertex) (pi : double) : bool :=
  (m_stage u <? length (m_pivots r))%nat && Dbl.lt pi kEps.

Definition MayMoveToNextStage (r : Router G) (u : Vertex) (pi : double) : bool :=
  NearNextStage r u pi && m_bearingChecked u.

Definition kTolerance : Z := 3.

Definition PassesRestriction (r : Router G) (edge : routing.Edge)
    (restriction : FunctionalRoadClass) : bool :=
  if routing.IsFake edge then true
  else
    let frc := m_roadInfoGetter r (routing.GetFeatureId edge) in
    (frc_to_int frc <=? Int.add (frc_to_int restriction) kTolerance)%Z.

(** [GetEdges]: the regular edges come from the cache when the junction is
    cached and from the graph (and into the cache) otherwise; the fake edges
    are always asked from the graph. *)
Definition GetEdges (r : Router G) (u : routing.Junction)
    (getRegular getFake : G -> routing.Junction -> list routing.Edge)
    (cache : EdgeCache) : list routing.Edge * EdgeCache :=
  match StdMap.find routing.Junction_ltb cache u with
  | None =>
      let es := getRegular (m_graph r) u in
      (es ++ getFake (m_graph r) u, StdMap.assign routing.Junction_ltb cache u es)
  | Some es => (es ++ getFake (m_graph r) u, cache)
  end.

Definition set_outgoingCache (r : Router G) (c : EdgeCache) : Router G :=
  MakeRouter (m_graph r) (m_roadInfoGetter r) c (m_ingoingCache r) (m_points r)
             (m_positiveOffsetM r) (m_negativeOffsetM r) (m_pivots r)
             (m_sourceJunction r) (m_targetJunction r).

Definition set_ingoingCache (r : Router G) (c : EdgeCache) : Router G :=
  MakeRouter (m_graph r) (m_roadInfoGetter r) (m_outgoingCache r) c (m_points r)
             (m_positiveOffsetM r) (m_negativeOffsetM r) (m_pivots r)
             (m_sourceJunction r) (m_targetJunction r).

Definition GetOutgoingEdges (r : Router G) (u : routing.Junction)
    : list routing.Edge * Router G :=
  let '(edges, c) := GetEdges r u routing.GetRegularOutgoingEdges
                              routing.GetFakeOutgoingEdges (m_outgoingCache r) in
  (edges, set_outgoingCache r c).

Definition GetIngoingEdges (r : Router G) (u : routing.Junction)
    : list routing.Edge * Router G :=
  let '(edges, c) := GetEdges r u routing.GetRegularIngoingEdges
                              routing.GetFakeIngoingEdges (m_ingoingCache r) in
  (edges, set_ingoingCache r c).

(** The edges [ForEachEdge] reads at the vertex [u]: its outgoing or its
    ingoing edges. *)
Definition edgesAt (r : Router G) (u : Vertex) (outgoing : bool)
    : list routing.Edge * Router G :=
  if outgoing then GetOutgoingEdges r (m_junction u) else GetIngoingEdges r (m_junction u).

(** [ForEachEdge(u, outgoing, restriction, fn)]: [fn] runs on the edges that
    pass the restriction, in order, threading its captured state [s]. *)
Definition ForEachEdge {S : Type} (r : Router G) (u : Vertex) (outgoing : bool)
    (restriction : FunctionalRoadClass) (fn : routing.Edge -> S -> res S) (s : S)
    : res (Router G * S) :=
  let '(edges, r') := edgesAt r u outgoing in
  s' <- for_each (fun edge s => if negb (PassesRestriction r edge restriction) then Ok s
                                else fn edge s) edges s ;;
  Ok (r', s').

Definition ForEachNonFakeEdge {S : Type} (r : Router G) (u : Vertex) (outgoing : bool)
    (restriction : FunctionalRoadClass) (fn : routing.Edge -> S -> res S) (s : S)
    : res (Router G * S) :=
  ForEachEdge r u outgoing restriction
              (fun edge s => if negb (routing.IsFake edge) then fn edge s else Ok s) s.

Definition ForEachNonFakeClosestEdge {S : Type} (r : Router G) (u : Vertex)
    (restriction : FunctionalRoadClass) (fn : routing.Edge -> S -> res S) (s : S) : res S :=
  let vicinity :=
    routing.FindClosestEdges (m_graph r) (routing.GetPoint (m_junction u)) kMaxRoadCandidates in
  for_each (fun (p : routing.Edge * routing.Junction) s =>
              let edge := fst p in
              if routing.IsFake edge then Ok s
              else if negb (PassesRestriction r edge restriction) then Ok s
              else fn edge s) vicinity s.

(** [FindPrefixLengthToConsume] over a range of point pairs. *)
Fixpoint FindPrefixLengthToConsume (ps : list (m2.PointD * m2.PointD)) (lengthM : double)
    (n : nat) : nat :=
  match ps with
  | [] => n
  | (u, v) :: ps' =>
      if negb (Dbl.gt lengthM 0) then n
      else
        let len := DistanceOnEarth u v in
        if Dbl.lt (2 * lengthM) len then n
        else FindPrefixLengthToConsume ps' (lengthM - len) (S n)
  end.

(** [std::sort] on pairs of doubles, by [operator<] of [std::pair]. *)
Definition pair_ltb (a b : double * double) : bool :=
  Dbl.lt (fst a) (fst b) || (negb (Dbl.lt (fst b) (fst a)) && Dbl.lt (snd a) (snd b)).

Fixpoint sort_insert (a : double * double) (l : list (double * double))
    : list (double * double) :=
  match l with
  | [] => [a]
  | b :: l' => if pair_ltb b a then b :: sort_insert a l' else a :: l
  end.

Definition sort_pairs (l : list (double * double)) : list (double * double) :=
  fold_right sort_insert [] l.

Definition kEpsCoverage : double := 1e-5.
Definition kLengthThresholdM : double := 1.

(** The intervals [covs] that [GetCoverage] collects from the search edges. *)
Fixpoint coverage_intervals (u v uv : m2.PointD) (sqlen : double) (es : list Edge)
    : list (double * double) :=
  match es with
  | [] => []
  | b :: es' =>
      let s := routing.GetPoint (m_junction (m_u b)) in
      let t := routing.GetPoint (m_junction (m_v b)) in
      if negb (IsPointOnSegmentEps s u v kEpsCoverage)
         || negb (IsPointOnSegmentEps t u v kEpsCoverage)
      then coverage_intervals u v uv sqlen es'
      else if Dbl.lt (DotProduct uv (m2.sub t s)) (- kEpsCoverage)
      then coverage_intervals u v uv sqlen es'
      else
        let sp := DotProduct uv (m2.sub s u) / sqlen in
        let tp := DotProduct uv (m2.sub t u) / sqlen in
        let start := Dbl.clamp (Dbl.min sp tp) 0 1 in
        let finish := Dbl.clamp (Dbl.max sp tp) 0 1 in
        (start, finish) :: coverage_intervals u v uv sqlen es'
  end.

(** The inner loop of the merge: from [covs[j]] on, absorb every interval
    that starts at or before [last]; returns the final [last] and what is
    left of the vector. *)
Fixpoint merge_group (last : double) (covs : list (double * double))
    : double * list (double * double) :=
  match covs with
  | [] => (last, [])
  | c :: covs' =>
      if Dbl.le (fst c) last then merge_group (Dbl.max last (snd c)) covs'
      else (last, covs)
  end.

(** The outer loop: one round per group of overlapping intervals.  A round
    that absorbs nothing (the inner loop stops at [covs[i]] itself) leaves
    [i] where it was: the loop is bounded by [fuel]. *)
Fixpoint merge_covs (fuel : nat) (covs : list (double * double)) (coverage : double)
    : res double :=
  match covs with
  | [] => Ok coverage
  | c :: _ =>
      match fuel with
      | O => Fuel
      | S fuel' =>
          let first := fst c in
          let '(last, rest) := merge_group (snd c) covs in
          merge_covs fuel' rest (coverage + (last - first))
      end
  end.

Definition GetCoverage (fuel : nat) (u v : m2.PointD) (es : list Edge) : res double :=
  let uv := m2.sub v u in
  let sqlen := SquareLength u v in
  if Dbl.lt (DistanceOnEarth u v) kLengthThresholdM then Ok 0
  else
    let covs := sort_pairs (coverage_intervals u v uv sqlen es) in
    coverage <- merge_covs fuel covs 0 ;;
    _ <- CHECK (Dbl.le coverage (1 + kEpsCoverage)) ;;
    Ok coverage.

(** The loop of [GetMatchingScore]: the covered length so far. *)
Fixpoint matching_cov (u v uv : m2.PointD) (ps : list (m2.PointD * m2.PointD))
    (cov : double) : double :=
  match ps with
  | [] => cov
  | (s, t) :: ps' =>
      if negb (IsPointOnSegmentEps s u v kEpsCoverage)
         || negb (IsPointOnSegmentEps t u v kEpsCoverage)
      then cov
      else if Dbl.lt (DotProduct uv (m2.sub t s)) (- kEpsCoverage) then cov
      else matching_cov u v uv ps' (cov + DistanceOnEarth s t)
  end.

Definition GetMatchingScore (u v : m2.PointD) (ps : list (m2.PointD * m2.PointD)) : double :=
  let len := DistanceOnEarth u v in
  let uv := m2.sub v u in
  let cov := matching_cov u v uv ps 0 in
  if Dbl.eq len 0 then 0 else Dbl.clamp (cov / len) 0 1.

(** [ForStagePrefix(b, e, stage, fn)]: skip the fake edges of [stage]; when
    the edge reached is not fake, [fn] is called on it.  The result is the
    range skipped (in iteration order) and the edge [fn] is called on, if
    any. *)
Fixpoint ForStagePrefix (es : list Edge) (stage : nat) (skipped : list Edge)
    : option (list Edge * Edge) :=
  match es with
  | [] => None
  | b :: es' =>
      if routing.IsFake (m_raw b) && (m_stage (m_u b) =? stage)%nat
         && (m_stage (m_v b) =? stage)%nat
      then ForStagePrefix es' stage (skipped ++ [b])
      else if negb (routing.IsFake (m_raw b)) then Some (skipped, b)
      else None
  end.

Definition kThreshold : double := 0.8.
Definition kCoverageThreshold : double := 0.5.

(** The lambda [checkEdge] of [FindSingleEdgeApproximation]; its captured
    state is [(bestCoverage, bestEdge)]. *)
Definition checkEdge (fuel : nat) (edges : list Edge) (edge : routing.Edge)
    (best : double * routing.Edge) : res (double * routing.Edge) :=
  let weight := GetWeight edge in
  fraction <- GetCoverage fuel (routing.GetPoint (routing.GetStartJunction edge))
                          (routing.GetPoint (routing.GetEndJunction edge)) edges ;;
  let coverage := weight * fraction in
  if Dbl.ge fraction kThreshold && Dbl.ge coverage (fst best) then Ok (coverage, edge)
  else Ok best.

Definition FindSingleEdgeApproximation (fuel : nat) (r : Router G) (edges : list Edge)
    (path : list routing.Edge) : res (list routing.Edge) :=
  _ <- CHECK (forallb IsFake edges) ;;
  let expectedLength := fold_left (fun acc edge => acc + GetWeight (m_raw edge)) edges 0 in
  if Dbl.lt expectedLength kEps then Ok path
  else
    best <- for_each (fun edge best =>
                        let u := m_u edge in
                        let v := m_v edge in
                        _ <- CHECK (m_stage u =? m_stage v)%nat ;;
                        let stage := m_stage u in
                        wp <- at_index (m_points r) stage ;;
                        best <- ForEachNonFakeClosestEdge r u (m_lfrcnp wp)
                                                          (checkEdge fuel edges) best ;;
                        wp <- at_index (m_points r) stage ;;
                        ForEachNonFakeClosestEdge r v (m_lfrcnp wp) (checkEdge fuel edges) best)
                     edges (-1, routing.Edge_default) ;;
    if Dbl.ge (fst best) (expectedLength * kCoverageThreshold) then Ok [snd best]
    else Ok path.

Definition kFakeCoverageThreshold : double := 0.5.

(** The lambda that scores one candidate edge for the front or the back of
    the path; its captured state is the best score and edge so far. *)
Definition scoreCandidate (score : double) (candidate : routing.Edge)
    (best : double * routing.Edge) : double * routing.Edge :=
  if Dbl.gt score (fst best) then (score, candidate) else best.

(** The first part of [ReconstructPath]: the special edges are erased, then
    the positive offset is consumed from the front and the negative offset
    from the back. *)
Definition trimEdges (r : Router G) (edges : list Edge) : res (list Edge) :=
  let edges := filter (fun e => negb (IsSpecial e)) edges in
  let n := FindPrefixLengthToConsume (map ToPair edges) (m_positiveOffsetM r) 0 in
  _ <- CHECK (n <=? length edges)%nat ;;
  let edges := skipn n edges in
  let n := FindPrefixLengthToConsume (map ToPairRev (rev edges)) (m_negativeOffsetM r) 0 in
  _ <- CHECK (n <=? length edges)%nat ;;
  Ok (firstn (length edges - n) edges).

(** The matching score of a candidate for the front edge: the candidate is
    walked from its end to its start, against the skipped edges before [e],
    last one first, each one reversed. *)
Definition frontScore (skipped : list Edge) (edge : routing.Edge) : double :=
  GetMatchingScore (routing.GetPoint (routing.GetEndJunction edge))
                   (routing.GetPoint (routing.GetStartJunction edge))
                   (map ToPairRev (rev skipped)).

(** The matching score of a candidate for the back edge, against the edges
    after [e] in path order ([skipped] is in the order of the reverse walk). *)
Definition backScore (skipped : list Edge) (edge : routing.Edge) : double :=
  GetMatchingScore (routing.GetPoint (routing.GetStartJunction edge))
                   (routing.GetPoint (routing.GetEndJunction edge))
                   (map ToPair (rev skipped)).

(** The second part: [frontEdgeScore] and [frontEdge]. *)
Definition findFrontEdge (r : Router G) (edges : list Edge)
    : res (Router G * (double * routing.Edge)) :=
  match ForStagePrefix edges 0 [] with
  | Some (skipped, e) =>
      wp <- at_index (m_points r) 0 ;;
      ForEachNonFakeEdge r (m_u e) false (m_lfrcnp wp)
        (fun edge best =>
           Ok (scoreCandidate (frontScore skipped edge) (routing.GetReverseEdge edge) best))
        (-1, routing.Edge_default)
  | None => Ok (r, (-1, routing.Edge_default))
  end.

(** The third part: [backEdgeScore] and [backEdge]. *)
Definition findBackEdge (r : Router G) (edges : list Edge)
    : res (Router G * (double * routing.Edge)) :=
  match ForStagePrefix (rev edges) (length (m_points r) - 2) [] with
  | Some (skipped, e) =>
      wp <- at_index (m_points r) (length (m_points r) - 2) ;;
      ForEachNonFakeEdge r (m_v e) true (m_lfrcnp wp)
        (fun edge best => Ok (scoreCandidate (backScore skipped edge) edge best))
        (-1, routing.Edge_default)
  | None => Ok (r, (-1, routing.Edge_default))
  end.

(** The raw edges of the search edges that are not fake. *)
Definition realEdges (edges : list Edge) : list routing.Edge :=
  map m_raw (filter (fun e => negb (IsFake e)) edges).

Definition insertFront (front : double * routing.Edge) (path : list routing.Edge)
    : list routing.Edge :=
  if Dbl.ge (fst front) kFakeCoverageThreshold && negb (length path =? 0)%nat
     && routing.Edge_neb (hd routing.Edge_default path) (snd front)
  then snd front :: path else path.

Definition insertBack (back : double * routing.Edge) (path : list routing.Edge)
    : list routing.Edge :=
  if Dbl.ge (fst back) kFakeCoverageThreshold && negb (length path =? 0)%nat
     && routing.Edge_neb (last path routing.Edge_default) (snd back)
  then path ++ [snd back] else path.

(** [ReconstructPath(edges, path)].  The vector [path] is cleared before it
    is filled, so what it held on entry plays no part. *)
Definition ReconstructPath (fuel : nat) (r : Router G) (edges : list Edge)
    (path : list routing.Edge) : res (Router G * bool * list routing.Edge) :=
  _ <- CHECK (2 <=? length (m_points r))%nat ;;
  edges <- trimEdges r edges ;;
  '(r, front) <- findFrontEdge r edges ;;
  '(r, back) <- findBackEdge r edges ;;
  let path := realEdges edges in
  let path := insertFront front path in
  let path := insertBack back path in
  path <- (if (length path =? 0)%nat then FindSingleEdgeApproximation fuel r edges path
           else Ok path) ;;
  Ok (r, negb (length path =? 0)%nat, path).

(** The lambda [pushVertex] of [FindPath]. *)
Definition pushVertex (st : Search) (u v : Vertex) (sv : Score) (e : Edge) : Search :=
  if (match StdMap.find Vertex_ltb (scores st) v with
      | None => true
      | Some s => Dbl.gt (GetScore s) (GetScore sv + kEps)
      end) && Vertex_neb u v
  then MakeSearch (queue_emplace (queue st) (sv, v))
                  (StdMap.assign Vertex_ltb (scores st) v sv)
                  (StdMap.assign Vertex_ltb (links st) v (u, e))
  else st.

(** The loop of [GetReverseBearing]: walks the back-links of the current
    stage until [kBearingDist] metres are covered; gives the point found, if
    any, and the vertex the walk stopped at. *)
Fixpoint reverse_walk (fuel : nat) (lnk : Links) (curr : Vertex) (passed : double)
    : res (option m2.PointD * Vertex) :=
  match fuel with
  | O => Fuel
  | S fuel' =>
      match StdMap.find Vertex_ltb lnk curr with
      | None => Ok (None, curr)
      | Some (prev, e) =>
          let edge := m_raw e in
          if negb (m_stage prev =? m_stage curr)%nat then Ok (None, curr)
          else
            let weight := GetWeight edge in
            if Dbl.ge (passed + weight) kBearingDist then
              let delta := kBearingDist - passed in
              Ok (Some (PointAtSegment (routing.GetPoint (routing.GetEndJunction edge))
                                       (routing.GetPoint (routing.GetStartJunction edge))
                                       delta), curr)
            else reverse_walk fuel' lnk prev (passed + weight)
      end
  end.

Definition GetReverseBearing (fuel : nat) (u : Vertex) (lnk : Links) : res Z :=
  let a := routing.GetPoint (m_junction u) in
  '(found, curr) <- reverse_walk fuel lnk u 0 ;;
  let b := match found with
           | Some p => p
           | None => routing.GetPoint (m_junction curr)
           end in
  Bearing a b.

(** The loop that collects the edges of the path found, from the final
    vertex back to [s] (in that order). *)
Fixpoint collect_edges (fuel : nat) (lnk : Links) (cur s : Vertex) : res (list Edge) :=
  match fuel with
  | O => Fuel
  | S fuel' =>
      if Vertex_neb cur s then
        let p := fst (StdMap.index Vertex_ltb lnk cur (Vertex_default, Edge_default)) in
        rest <- collect_edges fuel' lnk (fst p) s ;;
        Ok (snd p :: rest)
      else Ok []
  end.

(** The body of the lambda [FindPath] passes to [ForEachEdge]. *)
Definition relaxEdge (r : Router G) (u : Vertex) (su : Score) (piU ud : double)
    (stage : nat) (distanceToNextPointM : double) (expected : Z)
    (edge : routing.Edge) (st : Search) : res Search :=
  let v := set_junction u (routing.GetEndJunction edge) in
  piV <- GetPotential r v ;;
  let sv := su in
  let w := GetWeight edge in
  let sv := AddDistance sv (Dbl.max (w + piV - piU) 0) in
  let vd := ud + w in
  '(v, sv) <-
    (if NeedToCheckBearing r v vd then
       _ <- CHECK (negb (NeedToCheckBearing r u ud)) ;;
       let delta := vd - m_stageStartDistance v - kBearingDist in
       let p := PointAtSegment (routing.GetPoint (routing.GetStartJunction edge))
                               (routing.GetPoint (routing.GetEndJunction edge)) delta in
       sv <- (if m2.neb (routing.GetPoint (m_stageStart v)) p then
                actual <- Bearing (routing.GetPoint (m_stageStart v)) p ;;
                AddBearingPenalty sv expected (Int.wrap actual)
              else Ok sv) ;;
       Ok (set_bearingChecked v true, sv)
     else Ok (v, sv)) ;;
  let sv :=
    if Dbl.gt vd (m_stageStartDistance v + distanceToNextPointM)
    then AddDistanceErrorPenalty
           sv (Dbl.min (vd - m_stageStartDistance v - distanceToNextPointM) w)
    else sv in
  let sv := if routing.IsFake edge then AddFakePenalty sv w (routing.IsPartOfReal edge)
            else sv in
  Ok (pushVertex st u v sv (MakeNormal u v edge)).

(** [m_points.back()]. *)
Definition points_back (r : Router G) : res WayPoint :=
  at_index (m_points r) (length (m_points r) - 1).

(** One round of the [while (!queue.empty())] loop of [FindPath] on the
    popped state [(su, u)]: either the call returns ([inl]) or the loop goes
    on with a new router and search state ([inr]). *)
Definition FindPath_step (fuel : nat) (r : Router G) (s : Vertex) (piS : double)
    (st : Search) (su : Score) (u : Vertex) (path : list routing.Edge)
    : res ((Router G * bool * list routing.Edge) + (Router G * Search)) :=
  let '(scores_u, scores') := StdMap.index Vertex_ltb (scores st) u Score_zero in
  let st := MakeSearch (queue st) scores' (links st) in
  if Score_neb su scores_u then Ok (inr (r, st))
  else if IsFinalVertex r u then
    edges <- collect_edges fuel (links st) u s ;;
    out <- ReconstructPath fuel r (rev edges) path ;;
    Ok (inl out)
  else
    let stage := m_stage u in
    wp <- at_index (m_points r) stage ;;
    let distanceToNextPointM := m_distanceToNextPointM wp in
    piU <- GetPotential r u ;;
    let ud := GetDistance su + piS - piU in
    _ <- CHECK (stage <? length (m_pivots r))%nat ;;
    if Dbl.gt ud (m_stageStartDistance u + distanceToNextPointM
                  + Dbl.max kDistanceAccuracyM distanceToNextPointM)
    then Ok (inr (r, st))
    else
      st <- (if NearNextStage r u piU && negb (m_bearingChecked u) then
               sv <- (if routing.Junction_neb (m_junction u) (m_stageStart u) then
                        actual <- Bearing (routing.GetPoint (m_stageStart u))
                                          (routing.GetPoint (m_junction u)) ;;
                        AddBearingPenalty su (m_bearing wp) (Int.wrap actual)
                      else Ok su) ;;
               let v := set_bearingChecked u true in
               Ok (pushVertex st u v sv (MakeSpecial u v))
             else Ok st) ;;
      st <- (if MayMoveToNextStage r u piU then
               let v := MakeVertex (m_junction u) (m_junction u) ud (stage + 1) false in
               piV <- GetPotential r v ;;
               let sv := AddDistance su (Dbl.max (piV - piU) 0) in
               wpv <- at_index (m_points r) (m_stage v) ;;
               let sv := AddIntermediateErrorPenalty
                           sv (DistanceOnEarth (routing.GetPoint (m_junction v)) (m_point wpv)) in
               sv <- (if IsFinalVertex r v then
                        back <- points_back r ;;
                        actual <- GetReverseBearing fuel u (links st) ;;
                        AddBearingPenalty sv (m_bearing back) (Int.wrap actual)
                      else Ok sv) ;;
               Ok (pushVertex st u v sv (MakeSpecial u v))
             else Ok st) ;;
      out <- ForEachEdge r u true (m_lfrcnp wp)
                         (relaxEdge r u su piU ud stage distanceToNextPointM (m_bearing wp)) st ;;
      Ok (inr out).

Fixpoint FindPath_loop (fuel : nat) (r : Router G) (s : Vertex) (piS : double)
    (st : Search) (path : list routing.Edge) : res (Router G * bool * list routing.Edge) :=
  match fuel with
  | O => Fuel
  | S fuel' =>
      match queue_pop (queue st) with
      | None => Ok (r, false, path)
      | Some ((su, u), q) =>
          next <- FindPath_step fuel' r s piS (MakeSearch q (scores st) (links st)) su u path ;;
          match next with
          | inl out => Ok out
          | inr (r', st') => FindPath_loop fuel' r' s piS st' path
          end
      end
  end.

Definition FindPath (fuel : nat) (r : Router G) (path : list routing.Edge)
    : res (Router G * bool * list routing.Edge) :=
  let s := MakeVertex (m_sourceJunction r) (m_sourceJunction r) 0 0 false in
  _ <- CHECK (negb (NeedToCheckBearing r s 0)) ;;
  let scores := StdMap.assign Vertex_ltb [] s Score_zero in
  let st := MakeSearch (queue_emplace [] (Score_zero, s)) scores [] in
  piS <- GetPotential r s ;;
  FindPath_loop fuel r s piS st path.

(** The result of [FindClosestEdges] around a way-point, and the pivots
    [Init] collects from it: the end points of every edge found. *)
Definition vicinityOf (g : G) (wp : WayPoint) : list (routing.Edge * routing.Junction) :=
  routing.FindClosestEdges g (m_point wp) kMaxRoadCandidates.

Definition pivotsOf (g : G) (wp : WayPoint) : list m2.PointD :=
  flat_map (fun v : routing.Edge * routing.Junction =>
              [routing.GetPoint (routing.GetStartJunction (fst v));
               routing.GetPoint (routing.GetEndJunction (fst v))]) (vicinityOf g wp).

(** The pivot loop of [Init], over the indices [i] of the intermediate
    way-points; the flag tells whether every pivot list was non-empty. *)
Fixpoint Init_pivots (g : G) (points : list WayPoint) (idx : list nat)
    (pivots : list (list m2.PointD)) : res (list (list m2.PointD) * bool) :=
  match idx with
  | [] => Ok (pivots, true)
  | i :: idx' =>
      wp <- at_index points i ;;
      let ps := pivotsOf g wp in
      let pivots := pivots ++ [ps] in
      if (length ps =? 0)%nat then Ok (pivots, false)
      else Init_pivots g points idx' pivots
  end.

Definition Init (r : Router G) (points : list WayPoint)
    (positiveOffsetM negativeOffsetM : double) : res (Router G * bool) :=
  _ <- CHECK (2 <=? length points)%nat ;;
  let g := routing.ResetFakes (m_graph r) in
  '(pivots, ok) <- Init_pivots g points (seq 1 (length points - 2)) [] ;;
  let r1 := MakeRouter g (m_roadInfoGetter r) (m_outgoingCache r) (m_ingoingCache r)
                       points positiveOffsetM negativeOffsetM pivots
                       (m_sourceJunction r) (m_targetJunction r) in
  if negb ok then Ok (r1, false)
  else
    front <- at_index points 0 ;;
    back <- at_index points (length points - 1) ;;
    let pivots := pivots ++ [[m_point back]] in
    _ <- CHECK (length pivots + 1 =? length points)%nat ;;
    let sourceJunction := routing.MakeJunction (m_point front) 0 in
    let sourceVicinity :=
      routing.FindClosestEdges g (routing.GetPoint sourceJunction) kMaxRoadCandidates in
    let g := routing.AddFakeEdges g sourceJunction sourceVicinity in
    let targetJunction := routing.MakeJunction (m_point back) 0 in
    let targetVicinity :=
      routing.FindClosestEdges g (routing.GetPoint targetJunction) kMaxRoadCandidates in
    let g := routing.AddFakeEdges g targetJunction targetVicinity in
    Ok (MakeRouter g (m_roadInfoGetter r) (m_outgoingCache r) (m_ingoingCache r)
                   points positiveOffsetM negativeOffsetM pivots
                   sourceJunction targetJunction, true).

Definition Go (fuel : nat) (r : Router G) (points : list WayPoint)
    (positiveOffsetM negativeOffsetM : double) (path : list routing.Edge)
    : res (Router G * bool * list routing.Edge) :=
  '(r, ok) <- Init r points positiveOffsetM negativeOffsetM ;;
  if negb ok then Ok (r, false, path)
  else FindPath fuel r path.

(** *** Names for what the properties speak about *)

(** The candidates for the front edge: the edges the router enumerates as
    ingoing at the start vertex of [e] that pass the restriction of the first
    way-point and are not fake. *)
Definition frontCandidates (r : Router G) (e : Edge) (wp : WayPoint) : list routing.Edge :=
  filter (fun c => negb (routing.IsFake c))
         (filter (fun c => PassesRestriction r c (m_lfrcnp wp))
                 (fst (edgesAt r (m_u e) false))).

(** The candidates as the specification words them: those of the graph
    "and" those "from the nearest-edge query" around the vertex, the real
    edges among them that pass the restriction. *)
Definition specFrontCandidates (r : Router G) (e : Edge) (wp : WayPoint)
    : list routing.Edge :=
  frontCandidates r e wp
  ++ filter (fun c => negb (routing.IsFake c) && PassesRestriction r c (m_lfrcnp wp))
            (map fst (routing.FindClosestEdges
                        (m_graph r) (routing.GetPoint (m_junction (m_u e)))
                        kMaxRoadCandidates)).

(** The best candidate after the candidates [cands], in order, from the
    initial best [init]: a candidate replaces the best one when its score is
    greater. *)
Definition chooseBest (score : routing.Edge -> double) (result : routing.Edge -> routing.Edge)
    (cands : list routing.Edge) (init : double * routing.Edge) : double * routing.Edge :=
  fold_left (fun best c => scoreCandidate (score c) (result c) best) cands init.

(** What a call returned, without the router. *)
Definition returned (c : res (Router G * bool * list routing.Edge))
    : res (bool * list routing.Edge) :=
  x <- c ;; Ok (snd (fst x), snd x).

End RouterCode.

(** ** A plane geometry and a list graph to run the router on *)

Module Plane.

(** Metres per unit of the plane (a degree of longitude on the equator). *)
Definition metresPerUnit : double := 111319.49079327357.

Definition dist (a b : m2.PointD) : double :=
  let d := m2.sub b a in
  metresPerUnit * sqrt (m2.x d * m2.x d + m2.y d * m2.y d).

Definition cross (a b : m2.PointD) : double := m2.x a * m2.y b - m2.y a * m2.x b.

Definition onSegment (pt p1 p2 : m2.PointD) (eps : double) : bool :=
  if Dbl.gt (abs (cross (m2.sub p2 p1) (m2.sub pt p1))) eps then false
  else
    let minX := Dbl.min (m2.x p1) (m2.x p2) in
    let maxX := Dbl.max (m2.x p1) (m2.x p2) in
    let minY := Dbl.min (m2.y p1) (m2.y p2) in
    let maxY := Dbl.max (m2.y p1) (m2.y p2) in
    Dbl.ge (m2.x pt) (minX - eps) && Dbl.le (m2.x pt) (maxX + eps)
    && Dbl.ge (m2.y pt) (minY - eps) && Dbl.le (m2.y pt) (maxY + eps).

Definition pointAt (p1 p2 : m2.PointD) (distanceM : double) : m2.PointD :=
  let len := dist p1 p2 in
  if Dbl.eq len 0 then p1
  else
    let t := distanceM / len in
    let d := m2.sub p2 p1 in
    m2.Point (m2.x p1 + m2.x d * t) (m2.y p1 + m2.y d * t).

Definition pi : double := 3.141592653589793.

(** The direction from [a] to [b] as an angle in radians, to the nearest of
    the eight compass directions (exact for axis-parallel segments). *)
Definition angleTo (a b : m2.PointD) : double :=
  let d := m2.sub b a in
  let dx := m2.x d in
  let dy := m2.y d in
  if Dbl.eq dy 0 then (if Dbl.lt dx 0 then pi else 0)
  else if Dbl.eq dx 0 then (if Dbl.lt dy 0 then - (pi / 2) else pi / 2)
  else if Dbl.lt 0 dx then (if Dbl.lt 0 dy then pi / 4 else - (pi / 4))
  else (if Dbl.lt 0 dy then 3 * pi / 4 else - (3 * pi / 4)).

Definition angleToBearing (a : double) : double :=
  let reverseAng := - a + 90 in
  if Dbl.lt reverseAng 0 then reverseAng + 360 else reverseAng.

Definition geometry : Geometry := {|
  DistanceOnEarth := dist;
  IsPointOnSegmentEps := onSegment;
  PointAtSegment := pointAt;
  DotProduct := fun a b => m2.x a * m2.x b + m2.y a * m2.y b;
  SquareLength := fun a b =>
    (m2.x a - m2.x b) * (m2.x a - m2.x b) + (m2.y a - m2.y b) * (m2.y a - m2.y b);
  AngleTo := angleTo;
  RadToDeg := fun r => r * 180 / pi;
  DegToRad := fun d => d * pi / 180;
  AngleToBearing := angleToBearing
|}.

(** A road graph given by the list of its regular edges and the list of its
    fake edges. *)
Record ListGraph : Type := MakeGraph {
  regular : list routing.Edge;
  fakes : list routing.Edge
}.

Definition closestEdges (g : ListGraph) (p : m2.PointD) (count : nat)
    : list (routing.Edge * routing.Junction) :=
  firstn count
    (map (fun e => (e, routing.MakeJunction p 0))
         (filter (fun e => onSegment p (routing.GetPoint (routing.GetStartJunction e))
                                     (routing.GetPoint (routing.GetEndJunction e)) 1e-5)
                 (regular g))).

Definition fakesAround (junction : routing.Junction)
    (v : routing.Edge * routing.Junction) : list routing.Edge :=
  let ab := fst v in
  let p := snd v in
  let a := routing.GetStartJunction ab in
  let b := routing.GetEndJunction ab in
  (if routing.Junction_eqb a p || routing.Junction_eqb b p then []
   else [routing.MakeFake a p true; routing.MakeFake p b true])
  ++ (if routing.Junction_eqb junction p then []
      else [routing.MakeFake junction p false; routing.MakeFake p junction false]).

Definition roadGraph : routing.RoadGraph ListGraph := {|
  routing.ResetFakes := fun g => MakeGraph (regular g) [];
  routing.AddFakeEdges := fun g j vicinity =>
    MakeGraph (regular g) (fakes g ++ flat_map (fakesAround j) vicinity);
  routing.FindClosestEdges := closestEdges;
  routing.GetRegularOutgoingEdges := fun g j =>
    filter (fun e => routing.Junction_eqb (routing.GetStartJunction e) j) (regular g);
  routing.GetRegularIngoingEdges := fun g j =>
    filter (fun e => routing.Junction_eqb (routing.GetEndJunction e) j) (regular g);
  routing.GetFakeOutgoingEdges := fun g j =>
    filter (fun e => routing.Junction_eqb (routing.GetStartJunction e) j) (fakes g);
  routing.GetFakeIngoingEdges := fun g j =>
    filter (fun e => routing.Junction_eqb (routing.GetEndJunction e) j) (fakes g)
|}.

Definition junction (px py : double) : routing.Junction :=
  routing.MakeJunction (m2.Point px py) 0.

Definition realEdge (fid : Z) (a b : routing.Junction) : routing.Edge :=
  routing.MakeEdge fid false false a b.

(** A router over the list graph [g], every feature of road class [frc]. *)
Definition router (g : ListGraph) (frc : FunctionalRoadClass) : Router ListGraph :=
  MakeRouter g (fun _ => frc) [] [] [] 0 0 [] routing.Junction_default
             routing.Junction_default.

Definition A : routing.Junction := junction 0 0.
Definition B : routing.Junction := junction 1 0.
Definition AB : routing.Edge := realEdge 1 A B.

(** One real edge from [A] to [B], one degree of longitude long. *)
Definition oneEdgeGraph : ListGraph := MakeGraph [AB] [].

Definition wayPoint (p : routing.Junction) (d : double) (bearing : Z) : WayPoint :=
  MakeWayPoint (routing.GetPoint p) d bearing FRC7.

(** *** Data of the examples *)

Definition M : routing.Junction := junction 0.5 0.
Definition Far : routing.Junction := junction 5 5.
Definition BA : routing.Edge := realEdge 1 B A.

(** Two way-points at the ends of [AB]; three with [M] on [AB] in between;
    three with [Far], which no edge is near, in between. *)
Definition twoPoints : list WayPoint :=
  [wayPoint A metresPerUnit 64; wayPoint B 0 192].
Definition threePoints : list WayPoint :=
  [wayPoint A (metresPerUnit / 2) 64; wayPoint M (metresPerUnit / 2) 64; wayPoint B 0 192].
Definition threePointsFar : list WayPoint :=
  [wayPoint A metresPerUnit 64; wayPoint Far metresPerUnit 64; wayPoint B 0 192].

Definition go (fuel : nat) (g : ListGraph) (points : list WayPoint)
    (path : list routing.Edge) : res (Router ListGraph * bool * list routing.Edge) :=
  Go (geo := geometry) (graph := roadGraph) fuel (router g FRC3) points 0 0 path.

(** The router after [Go] on [twoPoints]. *)
Definition routerAfterGo : Router ListGraph :=
  Eval vm_compute in
    match go 20 oneEdgeGraph twoPoints [] with
    | Ok (r, _, _) => r
    | _ => router oneEdgeGraph FRC3
    end.

(** A router that is past [Init] on the way-points [points]. *)
Definition routerAt (g : ListGraph) (points : list WayPoint) : Router ListGraph :=
  MakeRouter g (fun _ => FRC3) [] [] points 0 0
             [[m_point (last points (wayPoint B 0 0))]]
             (routing.MakeJunction (m_point (hd (wayPoint A 0 0) points)) 0)
             (routing.MakeJunction (m_point (last points (wayPoint B 0 0))) 0).

Definition vertex (j start : routing.Junction) : Vertex := MakeVertex j start 0 0 false.

(** A road with both directions between [A] and [B]; the search left the
    source [S], which lies on it, by a fake edge back to [A] and then took
    the real edge from [A] to [B]. *)
Definition twoWayGraph : ListGraph := MakeGraph [AB; BA] [].
Definition S : routing.Junction := junction 0.75 0.
Definition backAndForth : list Edge :=
  [MakeNormal (vertex S S) (vertex A S) (routing.MakeFake S A true);
   MakeNormal (vertex A S) (vertex B S) AB].

(** A second road [X] within a metre of the junction [A] that does not end
    at [A]; the search reached [A] from the source [S'] by a fake edge. *)
Definition C' : routing.Junction := junction (-1) 0x1.5p-18.
Definition A' : routing.Junction := junction 0 0x1.5p-18.
Definition X : routing.Edge := realEdge 2 C' A'.
Definition parallelGraph : ListGraph := MakeGraph [AB; X] [].
Definition S' : routing.Junction := junction (-0.75) 0.
Definition alongParallel : list Edge :=
  [MakeNormal (vertex S' S') (vertex A S') (routing.MakeFake S' A true);
   MakeNormal (vertex A S') (vertex B S') AB].

(** A search path of one fake edge from [P] to [Q], both on [AB]. *)
Definition P : routing.Junction := junction 0.0625 0.
Definition Q : routing.Junction := junction 0.9375 0.
Definition fakeOnly : list Edge :=
  [MakeNormal (vertex P P) (vertex Q P) (routing.MakeFake P Q true)].

(** The way-points of the three runs above, and the routers after each
    reconstruction. *)
Definition pointsS : list WayPoint := [wayPoint S 0 64; wayPoint B 0 192].
Definition pointsS' : list WayPoint := [wayPoint S' 0 64; wayPoint B 0 192].
Definition pointsPQ : list WayPoint := [wayPoint P 0 64; wayPoint Q 0 192].

Definition reconstruct (g : ListGraph) (points : list WayPoint) (edges : list Edge)
    : res (Router ListGraph * bool * list routing.Edge) :=
  ReconstructPath (geo := geometry) (graph := roadGraph) 5 (routerAt g points) edges [].

Definition routerAfterBackAndForth : Router ListGraph :=
  Eval vm_compute in
    match reconstruct twoWayGraph pointsS backAndForth with
    | Ok (r, _, _) => r
    | _ => routerAt twoWayGraph pointsS
    end.

End Plane.

(** ** Keys for the order of doubles

    A double that is not NaN is placed in the order of doubles by a triple
    of integers compared lexicographically: the class (negative infinity,
    negative, zero, positive, positive infinity), then exponent and mantissa
    (negated for negative numbers). *)

Open Scope Z_scope.

Definition SFkey (f : spec_float) : option (Z * Z * Z) :=
  match f with
  | S754_nan => None
  | S754_zero _ => Some (0, 0, 0)
  | S754_infinity s => Some (if s then -2 else 2, 0, 0)
  | S754_finite s m e => Some (if s then (-1, - e, Zneg m) else (1, e, Zpos m))
  end.

Definition key (x : double) : option (Z * Z * Z) := SFkey (Prim2SF x).

Definition key_ltb (a b : Z * Z * Z) : bool :=
  let '(a1, a2, a3) := a in
  let '(b1, b2, b3) := b in
  (a1 <? b1) || ((a1 =? b1) && ((a2 <? b2) || ((a2 =? b2) && (a3 <? b3)))).

Definition key_eqb (a b : Z * Z * Z) : bool :=
  let '(a1, a2, a3) := a in
  let '(b1, b2, b3) := b in
  (a1 =? b1) && (a2 =? b2) && (a3 =? b3).

Definition okey_ltb (a b : option (Z * Z * Z)) : bool :=
  match a, b with Some a, Some b => key_ltb a b | _, _ => false end.

Definition okey_eqb (a b : option (Z * Z * Z)) : bool :=
  match a, b with Some a, Some b => key_eqb a b | _, _ => false end.

Definition okey_leb (a b : option (Z * Z * Z)) : bool :=
  match a, b with Some a, Some b => key_ltb a b || key_eqb a b | _, _ => false end.

Definition lexlt (a b : Z * Z * Z) : Prop :=
  fst (fst a) < fst (fst b)
  \/ (fst (fst a) = fst (fst b)
      /\ (snd (fst a) < snd (fst b) \/ (snd (fst a) = snd (fst b) /\ snd a < snd b))).

Definition lexeq (a b : Z * Z * Z) : Prop :=
  fst (fst a) = fst (fst b) /\ snd (fst a) = snd (fst b) /\ snd a = snd b.

(** Exactly one of three booleans is true. *)
Definition exactly_one (a b c : bool) : Prop :=
  (a = true /\ b = false /\ c = false)
  \/ (a = false /\ b = true /\ c = false)
  \/ (a = false /\ b = false /\ c = true).

(** Two [spec_float]s that denote the same number: equal, or two zeros. *)
Definition SFequiv (f f' : spec_float) : Prop :=
  f = f' \/ exists s s', f = S754_zero s /\ f' = S754_zero s'.

(** The condition of the relaxation rule as the specification words it:
    [u != v], and [v] has no recorded score or its recorded total exceeds the
    new total by more than [kEps]. *)
Definition shouldPush (st : Search) (u v : Vertex) (sv : Score) : bool :=
  Vertex_neb u v
  && ((StdMap.count Vertex_ltb (scores st) v =? 0)%nat
      || match StdMap.find Vertex_ltb (scores st) v with
         | Some s => Dbl.gt (GetScore s) (GetScore sv + kEps)%float
         | None => false
         end).

(** ** Values of non-negative doubles

    For the range of [GetCoverage]: the number a non-negative double
    denotes, as an integer multiple of the smallest positive double, and
    what rounding to nearest does to such numbers. *)

(** The number a non-negative finite [spec_float] denotes, in units of
    [2 ^ emin] (the smallest positive double). *)
Definition SFval (f : spec_float) : Z :=
  match f with
  | S754_finite false m e => Zpos m * 2 ^ (e + 1074)
  | _ => 0
  end.

(** Zero or a positive finite number. *)
Definition SFnn (f : spec_float) : Prop :=
  match f with
  | S754_zero _ => True
  | S754_finite false _ _ => True
  | _ => False
  end.

(** The spacing of the doubles around [N] (in units of [2 ^ emin]). *)
Definition gran (N : Z) : Z := 2 ^ Z.max (Z.log2 N - 52) 0.

(** [r] is [N] rounded to a nearest multiple of the spacing at [N]. *)
Definition rounds (N r : Z) : Prop :=
  r mod gran N = 0 /\ 2 * Z.abs (r - N) <= gran N.


(** The value of a double, and the doubles that are zero or positive
    and finite. *)
Definition dval (x : double) : Z := SFval (Prim2SF x).

Definition nonneg (x : double) : Prop := SFnn (Prim2SF x).

(** [x] is a number of the interval [0, 1] (the value of 1 is [2 ^ 1074]
    units). *)
Definition in_unit (x : double) : Prop := nonneg x /\ dval x <= 2 ^ 1074.

(** What [my::clamp (_, 0, 1)] returns: NaN or a number of [0, 1]. *)
Definition clamped (x : double) : Prop := Dbl.is_nan x = true \/ in_unit x.




(** ** Notions for the further properties *)

(** What a lexicographic comparison needs of each component: [lt] is a strict
    order, "not [ne]" is transitive and compatible with [lt], and [lt]
    implies [ne]. *)
Definition strict_component {T : Type} (ne lt : T -> T -> bool) : Prop :=
  (forall a b c, lt a b = true -> lt b c = true -> lt a c = true)
  /\ (forall a b c, ne a b = false -> ne b c = false -> ne a c = false)
  /\ (forall a b c, lt a b = true -> ne b c = false -> lt a c = true)
  /\ (forall a b c, ne a b = false -> lt b c = true -> lt a c = true)
  /\ (forall a b, lt a b = true -> ne a b = true)
  /\ (forall a b, lt a b = true -> lt b a = false).

(** Two values that differ are ordered one way or the other, on the values
    that satisfy [ok]. *)
Definition total_on {T : Type} (ok : T -> Prop) (ne lt : T -> T -> bool) : Prop :=
  (forall a b, ne a b = ne b a)
  /\ forall a b, ok a -> ok b -> ne a b = true -> lt a b = true \/ lt b a = true.

(** A point neither of whose coordinates is NaN. *)
Definition point_no_nan (p : m2.PointD) : Prop :=
  Dbl.is_nan (m2.x p) = false /\ Dbl.is_nan (m2.y p) = false.

(** A vertex none of whose coordinates or distances is NaN. *)
Definition Vertex_no_nan (v : Vertex) : Prop :=
  point_no_nan (routing.GetPoint (m_junction v))
  /\ point_no_nan (routing.GetPoint (m_stageStart v))
  /\ Dbl.is_nan (m_stageStartDistance v) = false.

(** The candidate [best] of the single-edge approximation was found near an
    end of a search edge, is a real edge that passes the restriction of that
    edge's stage, and has its coverage and covered length as computed. *)
Definition approxCandidate {geo : Geometry} {G : Type} {graph : routing.RoadGraph G}
    (fuel : nat) (r : Router G) (edges : list Edge) (best : double * routing.Edge) : Prop :=
  exists se w wp fraction,
    In se edges /\ (w = m_u se \/ w = m_v se)
    /\ nth_error (m_points r) (m_stage (m_u se)) = Some wp
    /\ In (snd best)
          (map fst (routing.FindClosestEdges (m_graph r) (routing.GetPoint (m_junction w))
                      kMaxRoadCandidates))
    /\ routing.IsFake (snd best) = false
    /\ PassesRestriction r (snd best) (m_lfrcnp wp) = true
    /\ GetCoverage fuel (routing.GetPoint (routing.GetStartJunction (snd best)))
                   (routing.GetPoint (routing.GetEndJunction (snd best))) edges = Ok fraction
    /\ Dbl.ge fraction kThreshold = true
    /\ fst best = (GetWeight (snd best) * fraction)%float.

(** The candidates for the back edge: the edges the router enumerates as
    outgoing at the end vertex of [e] that pass the restriction of the
    way-point before the last and are not fake. *)
Definition backCandidates {G : Type} {graph : routing.RoadGraph G}
    (r : Router G) (e : Edge) (wp : WayPoint) : list routing.Edge :=
  filter (fun c => negb (routing.IsFake c))
         (filter (fun c => PassesRestriction r c (m_lfrcnp wp))
                 (fst (edgesAt r (m_v e) true))).

(** [r'] agrees with [r] on the members of the router that the search
    reads but never writes. *)
Definition same_setup {G : Type} (r r' : Router G) : Prop :=
  m_graph r' = m_graph r
  /\ m_points r' = m_points r
  /\ m_pivots r' = m_pivots r
  /\ m_positiveOffsetM r' = m_positiveOffsetM r
  /\ m_negativeOffsetM r' = m_negativeOffsetM r
  /\ m_sourceJunction r' = m_sourceJunction r
  /\ m_targetJunction r' = m_targetJunction r.

(** Every vertex waiting in the queue has a stage of at most [n]. *)
Definition stage_ok (n : nat) (st : Search) : Prop :=
  Forall (fun p : State => (m_stage (snd p) <= n)%nat) (queue st).

(** A search edge that is not special joins two vertices of one stage. *)
Definition same_stage (e : Edge) : Prop :=
  m_isSpecial e = false -> m_stage (m_u e) = m_stage (m_v e).

(** Every edge recorded in [links] is such an edge. *)
Definition links_ok (st : Search) : Prop :=
  Forall (fun kv : Vertex * (Vertex * Edge) => same_stage (snd (snd kv))) (links st).

(** ** More runs on the plane *)

Module Samples.

(** The router right after [Init] on the two way-points at the ends of
    [AB], its source vertex, and the first round of the loop of [FindPath]:
    the search state once the source vertex is popped, and the state after
    the round. *)
Definition routerAfterInit : Router Plane.ListGraph :=
  Eval vm_compute in
    match Init (graph := Plane.roadGraph) (Plane.router Plane.oneEdgeGraph FRC3)
               Plane.twoPoints 0 0 with
    | Ok (r, _) => r
    | _ => Plane.router Plane.oneEdgeGraph FRC3
    end.

Definition source : Vertex := Plane.vertex Plane.A Plane.A.

Definition piS : double :=
  Eval vm_compute in
    match GetPotential (geo := Plane.geometry) routerAfterInit source with
    | Ok p => p
    | _ => 0%float
    end.

Definition popped : Search := MakeSearch [] [(source, Score_zero)] [].

Definition afterFirstRound : Router Plane.ListGraph * Search :=
  Eval vm_compute in
    match FindPath_step (geo := Plane.geometry) (graph := Plane.roadGraph)
                        20 routerAfterInit source piS popped Score_zero source [] with
    | Ok (inr x) => x
    | _ => (routerAfterInit, popped)
    end.

(** A search path on the road with both directions that takes the real edge
    from [A] to [B] and then a fake edge back to the target [T], which lies
    on the road. *)
Definition T : routing.Junction := Plane.junction 0.25 0.
Definition forthAndBack : list Edge :=
  [MakeNormal (Plane.vertex Plane.A Plane.A) (Plane.vertex Plane.B Plane.A) Plane.AB;
   MakeNormal (Plane.vertex Plane.B Plane.A) (Plane.vertex T Plane.A)
              (routing.MakeFake Plane.B T true)].
Definition pointsT : list WayPoint := [Plane.wayPoint Plane.A 0 64; Plane.wayPoint T 0 192].

(** The router and the front edge after the front part of the
    reconstruction of [forthAndBack], and the router after the whole. *)
Definition afterFront : Router Plane.ListGraph * (double * routing.Edge) :=
  Eval vm_compute in
    match findFrontEdge (geo := Plane.geometry) (graph := Plane.roadGraph)
                        (Plane.routerAt Plane.twoWayGraph pointsT) forthAndBack with
    | Ok x => x
    | _ => (Plane.routerAt Plane.twoWayGraph pointsT, ((-1)%float, routing.Edge_default))
    end.

Definition routerAfterForthAndBack : Router Plane.ListGraph :=
  Eval vm_compute in
    match Plane.reconstruct Plane.twoWayGraph pointsT forthAndBack with
    | Ok (r, _, _) => r
    | _ => Plane.routerAt Plane.twoWayGraph pointsT
    end.

End Samples.

(** * Properties *)

Unset Implicit Arguments.

(** ** The order of doubles *)

Ltac zbool :=
  repeat match goal with
         | |- context [Z.ltb ?a ?b] => destruct (Z.ltb_spec a b)
         | |- context [Z.eqb ?a ?b] => destruct (Z.eqb_spec a b)
         end;
  simpl in *; try reflexivity; try discriminate; try lia.

Lemma SFcompare_key f1 f2 :
  SFcompare f1 f2 =
  match SFkey f1, SFkey f2 with
  | Some a, Some b => Some (if key_ltb a b then Lt else if key_eqb a b then Eq else Gt)
  | _, _ => None
  end.
Proof.
  destruct f1 as [s1|s1| |s1 m1 e1], f2 as [s2|s2| |s2 m2 e2];
    try reflexivity; try (destruct s1; reflexivity); try (destruct s2; reflexivity);
    try (destruct s1, s2; reflexivity).
  unfold SFcompare, SFkey, key_ltb, key_eqb.
  change (Pos.compare_cont Eq m1 m2) with (Pos.compare m1 m2).
  destruct s1, s2; try reflexivity; f_equal;
    (destruct (Z.compare_spec e1 e2) as [He|He|He];
     [ destruct (Pos.compare_spec m1 m2) as [Hm|Hm|Hm] | .. ]); cbn [CompOpp]; zbool.
Qed.

Lemma ltb_key x y : PrimFloat.ltb x y = okey_ltb (key x) (key y).
Proof.
  rewrite ltb_spec. unfold SFltb, key. rewrite SFcompare_key.
  destruct (SFkey (Prim2SF x)) as [a|], (SFkey (Prim2SF y)) as [b|]; simpl; try reflexivity.
  destruct (key_ltb a b); try reflexivity. destruct (key_eqb a b); reflexivity.
Qed.

Lemma eqb_key x y : PrimFloat.eqb x y = okey_eqb (key x) (key y).
Proof.
  rewrite eqb_spec. unfold SFeqb, key. rewrite SFcompare_key.
  destruct (SFkey (Prim2SF x)) as [a|], (SFkey (Prim2SF y)) as [b|]; simpl; try reflexivity.
  destruct a as [[a1 a2] a3], b as [[b1 b2] b3]. unfold key_ltb, key_eqb. zbool.
Qed.

Lemma leb_key x y : PrimFloat.leb x y = okey_leb (key x) (key y).
Proof.
  rewrite leb_spec. unfold SFleb, key. rewrite SFcompare_key.
  destruct (SFkey (Prim2SF x)) as [a|], (SFkey (Prim2SF y)) as [b|]; simpl; try reflexivity.
  destruct a as [[a1 a2] a3], b as [[b1 b2] b3]. unfold key_ltb, key_eqb. zbool.
Qed.

Lemma key_ltb_true a b : key_ltb a b = true <-> lexlt a b.
Proof.
  destruct a as [[a1 a2] a3], b as [[b1 b2] b3]. unfold key_ltb, lexlt. simpl.
  rewrite !orb_true_iff, !andb_true_iff, !orb_true_iff, !andb_true_iff,
    !Z.ltb_lt, !Z.eqb_eq. tauto.
Qed.

Lemma key_ltb_false a b : key_ltb a b = false <-> ~ lexlt a b.
Proof. rewrite <- key_ltb_true. destruct (key_ltb a b); intuition congruence. Qed.

Lemma key_eqb_true a b : key_eqb a b = true <-> lexeq a b.
Proof.
  destruct a as [[a1 a2] a3], b as [[b1 b2] b3]. unfold key_eqb, lexeq. simpl.
  rewrite !andb_true_iff, !Z.eqb_eq. tauto.
Qed.

Lemma key_eqb_false a b : key_eqb a b = false <-> ~ lexeq a b.
Proof. rewrite <- key_eqb_true. destruct (key_eqb a b); intuition congruence. Qed.

(** Decides facts about the order of doubles. *)
Ltac dbl_order :=
  unfold Dbl.lt, Dbl.gt, Dbl.le, Dbl.ge, Dbl.eq, Dbl.ne, Dbl.is_nan in *;
  rewrite ?ltb_key, ?eqb_key, ?leb_key in *;
  repeat (match goal with
          | H : context [key ?x] |- _ => destruct (key x) as [[[? ?] ?]|]
          | |- context [key ?x] => destruct (key x) as [[[? ?] ?]|]
          end;
          cbn [okey_ltb okey_eqb okey_leb negb] in *; try discriminate);
  try reflexivity;
  rewrite ?negb_true_iff, ?negb_false_iff, ?orb_true_iff, ?orb_false_iff,
    ?andb_true_iff, ?andb_false_iff,
    ?key_ltb_true, ?key_ltb_false, ?key_eqb_true, ?key_eqb_false in *;
  unfold lexlt, lexeq in *; cbn [fst snd] in *;
  try discriminate; try lia.

Ltac split_ifs :=
  repeat match goal with
         | |- context [if ?b then _ else _] => destruct b eqn:?
         | H : context [if ?b then _ else _] |- _ => destruct b eqn:?
         end.

Lemma key_None_nan x : key x = None <-> Dbl.is_nan x = true.
Proof.
  unfold Dbl.is_nan. rewrite eqb_key. destruct (key x) as [k|]; simpl.
  - assert (key_eqb k k = true) as -> by (apply key_eqb_true; unfold lexeq; auto).
    simpl. split; discriminate.
  - tauto.
Qed.

Lemma add_not_nan x y :
  Dbl.is_nan (x + y)%float = false -> Dbl.is_nan x = false /\ Dbl.is_nan y = false.
Proof.
  intros H.
  destruct (Dbl.is_nan x) eqn:Hx.
  - apply key_None_nan in Hx. unfold key in Hx.
    assert (key (x + y)%float = None) as Hk.
    { unfold key. rewrite add_spec. destruct (Prim2SF x); try discriminate. reflexivity. }
    apply key_None_nan in Hk. congruence.
  - destruct (Dbl.is_nan y) eqn:Hy; auto.
    apply key_None_nan in Hy. unfold key in Hy.
    assert (key (x + y)%float = None) as Hk.
    { unfold key. rewrite add_spec. destruct (Prim2SF y); try discriminate.
      destruct (Prim2SF x); reflexivity. }
    apply key_None_nan in Hk. congruence.
Qed.

Lemma dbl_lt_trans x y z : Dbl.lt x y = true -> Dbl.lt y z = true -> Dbl.lt x z = true.
Proof. intros. dbl_order. Qed.

Lemma dbl_lt_asym x y : Dbl.lt x y = true -> Dbl.lt y x = false.
Proof. intros. dbl_order. Qed.

(** ** Score *)

Lemma int_wrap_small z : - 2 ^ 31 <= z < 2 ^ 31 -> Int.wrap z = z.
Proof. intros H. unfold Int.wrap. rewrite Z.mod_small; lia. Qed.

Lemma Score_ltb_trans a b c :
  Score_ltb a b = true -> Score_ltb b c = true -> Score_ltb a c = true.
Proof.
  unfold Score_ltb.
  generalize (GetScore a) (GetScore b) (GetScore c). intros la lb lc.
  destruct a as [da pa], b as [db pb], c as [dc pc]. cbn [m_distance m_penalty].
  intros H1 H2. split_ifs; dbl_order.
Qed.

Lemma Score_ltb_sum a b :
  Dbl.lt (GetScore a) (GetScore b) = true -> Score_ltb a b = true.
Proof.
  unfold Score_ltb. generalize (GetScore a) (GetScore b). intros la lb H.
  cbv zeta. replace (Dbl.ne la lb) with true by (symmetry; dbl_order). exact H.
Qed.

Lemma SFkey_equiv f f' k : SFkey f = Some k -> SFkey f' = Some k -> SFequiv f f'.
Proof.
  unfold SFequiv.
  destruct f as [s|s| |s m e], f' as [s'|s'| |s' m' e']; simpl; intros H1 H2;
    try discriminate; try (right; eauto; fail);
    left; rewrite <- H1 in H2; clear H1.
  all: destruct s, s'; try discriminate; try reflexivity; injection H2; intros; f_equal; lia.
Qed.

Lemma key_eqb_eq a b : key_eqb a b = true -> a = b.
Proof.
  rewrite key_eqb_true. destruct a as [[? ?] ?], b as [[? ?] ?]. unfold lexeq. simpl.
  intros (-> & -> & ->). reflexivity.
Qed.

Lemma dbl_eq_equiv x y : Dbl.eq x y = true -> SFequiv (Prim2SF x) (Prim2SF y).
Proof.
  unfold Dbl.eq. rewrite eqb_key. unfold key.
  destruct (SFkey (Prim2SF x)) as [a|] eqn:Ha; try discriminate.
  destruct (SFkey (Prim2SF y)) as [b|] eqn:Hb; try discriminate.
  simpl. intros H. apply key_eqb_eq in H. subst b. eapply SFkey_equiv; eauto.
Qed.

Lemma SFadd_equiv a a' b b' :
  SFequiv a a' -> SFequiv b b' -> SFequiv (SF64add a b) (SF64add a' b').
Proof.
  intros [->|(s & s' & -> & ->)] [->|(t & t' & -> & ->)].
  - left; reflexivity.
  - destruct a' as [u|u| |u m e]; try (left; reflexivity).
    right. destruct u, t, t'; simpl; eauto.
  - destruct b' as [u|u| |u m e]; try (left; reflexivity).
    right. destruct u, s, s'; simpl; eauto.
  - right. destruct s, s', t, t'; simpl; eauto.
Qed.

Lemma SFequiv_eqb f f' : SFequiv f f' -> SFeqb f f = true -> SFeqb f f' = true.
Proof. intros [->|(s & s' & -> & ->)]; auto. Qed.

(** Addition respects [==] on doubles. *)
Lemma add_eq_compat x x' y y' :
  Dbl.eq x x' = true -> Dbl.eq y y' = true -> Dbl.is_nan (x + y)%float = false ->
  Dbl.eq (x + y)%float (x' + y')%float = true.
Proof.
  intros Hx Hy Hn. apply dbl_eq_equiv in Hx. apply dbl_eq_equiv in Hy.
  unfold Dbl.is_nan in Hn. apply negb_false_iff in Hn.
  unfold Dbl.eq. rewrite eqb_spec in *. rewrite !add_spec in *.
  apply SFequiv_eqb; auto. apply SFadd_equiv; auto.
Qed.

Lemma Score_trichotomy a b :
  Dbl.is_nan (GetScore a) = false -> Dbl.is_nan (GetScore b) = false ->
  exactly_one (Score_ltb a b) (Score_eqb a b) (Score_gtb a b).
Proof.
  intros Ha Hb.
  destruct (add_not_nan _ _ Ha) as [Hda Hpa]. destruct (add_not_nan _ _ Hb) as [Hdb Hpb].
  assert (Score_eqb a b = true -> Dbl.eq (GetScore a) (GetScore b) = true) as Hc.
  { unfold Score_eqb. rewrite andb_true_iff. intros [H1 H2].
    apply add_eq_compat; auto. }
  unfold exactly_one, Score_gtb, Score_ltb. cbv zeta.
  destruct (Dbl.ne (GetScore a) (GetScore b)) eqn:E1.
  - assert (Score_eqb a b = false) as ->.
    { destruct (Score_eqb a b); auto. specialize (Hc eq_refl).
      unfold Dbl.ne in E1. unfold Dbl.eq in Hc. rewrite Hc in E1. discriminate. }
    revert Ha Hb E1. generalize (GetScore a) (GetScore b). intros la lb Ha Hb E1.
    replace (Dbl.ne lb la) with true by (symmetry; dbl_order).
    dbl_order.
  - clear Hc. revert Ha Hb E1. generalize (GetScore a) (GetScore b). intros la lb Ha Hb E1.
    replace (Dbl.ne lb la) with false by (symmetry; dbl_order).
    clear la lb Ha Hb E1. unfold Score_eqb.
    destruct a as [da pa], b as [db pb]. cbn [m_distance m_penalty] in *.
    destruct (Dbl.ne da db) eqn:E2.
    + replace (Dbl.ne db da) with true by (symmetry; dbl_order).
      replace (Dbl.eq da db) with false by (symmetry; dbl_order).
      clear Hpa Hpb. simpl. dbl_order.
    + replace (Dbl.ne db da) with false by (symmetry; dbl_order).
      replace (Dbl.eq da db) with true by (symmetry; dbl_order).
      clear Hda Hdb E2. simpl. dbl_order.
Qed.

(** C4 (as amended).  [operator<] on Score compares [distance + penalty]
    first, then [distance], then [penalty].  It is transitive, a score with a
    smaller sum compares smaller, and for two scores whose sums are not NaN
    exactly one of [a < b], [a == b], [a > b] holds. *)
Theorem Score_order :
  (forall a b c, Score_ltb a b = true -> Score_ltb b c = true -> Score_ltb a c = true)
  /\ (forall a b, Dbl.lt (GetScore a) (GetScore b) = true -> Score_ltb a b = true)
  /\ (forall a b, Dbl.eq (GetScore a) (GetScore b) = true ->
                  Dbl.lt (m_distance a) (m_distance b) = true -> Score_ltb a b = true)
  /\ (forall a b, Dbl.eq (GetScore a) (GetScore b) = true ->
                  Dbl.eq (m_distance a) (m_distance b) = true ->
                  Score_ltb a b = Dbl.lt (m_penalty a) (m_penalty b))
  /\ (forall a b, Dbl.is_nan (GetScore a) = false -> Dbl.is_nan (GetScore b) = false ->
                  exactly_one (Score_ltb a b) (Score_eqb a b) (Score_gtb a b)).
Proof.
  split; [exact Score_ltb_trans|].
  split; [exact Score_ltb_sum|].
  split; [|split; [|exact Score_trichotomy]].
  - intros a b H1 H2. unfold Score_ltb. cbv zeta.
    replace (Dbl.ne (GetScore a) (GetScore b)) with false
      by (symmetry; revert H1; generalize (GetScore a) (GetScore b); intros; dbl_order).
    replace (Dbl.ne (m_distance a) (m_distance b)) with true by (symmetry; dbl_order).
    exact H2.
  - intros a b H1 H2. unfold Score_ltb. cbv zeta.
    replace (Dbl.ne (GetScore a) (GetScore b)) with false
      by (symmetry; revert H1; generalize (GetScore a) (GetScore b); intros; dbl_order).
    replace (Dbl.ne (m_distance a) (m_distance b)) with false by (symmetry; dbl_order).
    reflexivity.
Qed.

(** C4, the claim as stated, fails: a score whose distance is NaN is neither
    less than, nor equal to, nor greater than itself. *)
Lemma Score_order_nan_counterexample :
  Score_ltb (MakeScore nan 0%float) (MakeScore nan 0%float) = false
  /\ Score_eqb (MakeScore nan 0%float) (MakeScore nan 0%float) = false
  /\ Score_gtb (MakeScore nan 0%float) (MakeScore nan 0%float) = false.
Proof. vm_compute. auto. Qed.

Section ScoreFacts.
Context {geo : Geometry}.

Lemma AddBearingPenalty_eq (s : Score) (expected actual : Z) :
  0 <= expected < 256 -> 0 <= actual < 256 ->
  AddBearingPenalty s expected actual =
  Ok (MakeScore
        (GetDistance s)
        (GetPenalty s
         + 5 * DegToRad (Dbl.of_int (Z.min (Z.abs (expected - actual))
                                           (256 - Z.abs (expected - actual)))
                         * (360 / 256))
           * 25)%float).
Proof.
  intros He Ha. unfold AddBearingPenalty, kNumBuckets.
  replace (expected <? 256) with true by (symmetry; apply Z.ltb_lt; lia).
  replace (0 <=? expected) with true by (symmetry; apply Z.leb_le; lia).
  replace (actual <? 256) with true by (symmetry; apply Z.ltb_lt; lia).
  replace (0 <=? actual) with true by (symmetry; apply Z.leb_le; lia).
  cbn [CHECK bind].
  unfold Int.abs, Int.sub, Int.min.
  rewrite (int_wrap_small (expected - actual)) by lia.
  rewrite (int_wrap_small (Z.abs (expected - actual))) by lia.
  rewrite (int_wrap_small (256 - Z.abs (expected - actual))) by lia.
  replace (if 256 - Z.abs (expected - actual) <? Z.abs (expected - actual)
           then 256 - Z.abs (expected - actual) else Z.abs (expected - actual))
    with (Z.min (Z.abs (expected - actual)) (256 - Z.abs (expected - actual)))
    by (destruct (Z.ltb_spec (256 - Z.abs (expected - actual)) (Z.abs (expected - actual)));
        lia).
  reflexivity.
Qed.


(** C3.  For bearing buckets [expected] and [actual] in [0, 256),
    [AddBearingPenalty] passes its assertions, adds
    [5 * DegToRad (min (diff, 256 - diff) * (360 / 256)) * 25] to the penalty,
    where [diff = |expected - actual|] (no [int] operation wraps around), and
    leaves the distance as it was. *)
Theorem AddBearingPenalty_spec (s : Score) (expected actual : Z) :
  0 <= expected < 256 -> 0 <= actual < 256 ->
  AddBearingPenalty s expected actual =
  Ok (MakeScore
        (GetDistance s)
        (GetPenalty s
         + 5 * DegToRad (Dbl.of_int (Z.min (Z.abs (expected - actual))
                                           (256 - Z.abs (expected - actual)))
                         * (360 / 256))
           * 25)%float).
Proof. exact (AddBearingPenalty_eq s expected actual). Qed.

End ScoreFacts.

(** C3 at the buckets 10 and 250 (16 buckets apart across the wrap). *)
Lemma AddBearingPenalty_spec_witness :
  AddBearingPenalty (geo := Plane.geometry) Score_zero 10 250 =
  Ok (MakeScore 0%float
                (0 + 5 * @DegToRad Plane.geometry (Dbl.of_int 16 * (360 / 256)) * 25)%float).
Proof. apply (@AddBearingPenalty_spec Plane.geometry Score_zero 10 250); lia. Defined.

(** ** Edge enumeration *)

Lemma for_each_filter {A S : Type} (p : A -> bool) (fn : A -> S -> res S) l s :
  for_each (fun a s => if negb (p a) then Ok s else fn a s) l s = for_each fn (filter p l) s.
Proof.
  revert s. induction l as [|a l IH]; intros s; simpl; [reflexivity|].
  destruct (p a); simpl.
  - destruct (fn a s); simpl; auto.
  - apply IH.
Qed.

Lemma for_each_record {A : Type} (l : list A) (tr : list A) :
  for_each (fun a tr => Ok (tr ++ [a])) l tr = Ok (tr ++ l).
Proof.
  revert tr. induction l as [|a l IH]; intros tr; simpl.
  - rewrite app_nil_r. reflexivity.
  - rewrite IH, <- app_assoc. reflexivity.
Qed.

Section EdgeFacts.
Context {geo : Geometry} {G : Type} {graph : routing.RoadGraph G}.

Lemma PassesRestriction_iff (r : Router G) (e : routing.Edge) (lfrcnp : FunctionalRoadClass) :
  PassesRestriction r e lfrcnp = true <->
  routing.IsFake e = true
  \/ (routing.IsFake e = false
      /\ frc_to_int (m_roadInfoGetter r (routing.GetFeatureId e)) <= frc_to_int lfrcnp + 3).
Proof.
  unfold PassesRestriction. destruct (routing.IsFake e).
  - intuition.
  - assert (Int.add (frc_to_int lfrcnp) kTolerance = frc_to_int lfrcnp + 3) as ->
      by (destruct lfrcnp; reflexivity).
    rewrite Z.leb_le. intuition discriminate.
Qed.

Lemma ForEachEdge_eq (S : Type) (r : Router G) u outgoing lfrcnp
    (fn : routing.Edge -> S -> res S) s :
  ForEachEdge r u outgoing lfrcnp fn s =
  (s' <- for_each fn (filter (fun e => PassesRestriction r e lfrcnp)
                             (fst (edgesAt r u outgoing))) s ;;
   Ok (snd (edgesAt r u outgoing), s')).
Proof.
  unfold ForEachEdge. destruct (edgesAt r u outgoing) as [edges r'].
  rewrite for_each_filter. reflexivity.
Qed.

(** C5.  The road-class filter accepts an edge iff it is fake, or it is real
    and its functional road class is at most [lfrcnp + 3].  [ForEachEdge]
    runs its callback on the accepted edges only: whatever the callback, the
    call is the callback folded over the filtered edges, and a callback that
    records its arguments never records a rejected edge. *)
Theorem ForEachEdge_filter :
  (forall (r : Router G) e lfrcnp,
      PassesRestriction r e lfrcnp = true <->
      routing.IsFake e = true
      \/ (routing.IsFake e = false
          /\ frc_to_int (m_roadInfoGetter r (routing.GetFeatureId e))
             <= frc_to_int lfrcnp + 3))
  /\ (forall (S : Type) (r : Router G) u outgoing lfrcnp (fn : routing.Edge -> S -> res S) s,
         ForEachEdge r u outgoing lfrcnp fn s =
         (s' <- for_each fn (filter (fun e => PassesRestriction r e lfrcnp)
                                    (fst (edgesAt r u outgoing))) s ;;
          Ok (snd (edgesAt r u outgoing), s')))
  /\ (forall (r : Router G) u outgoing lfrcnp,
         exists called,
           ForEachEdge r u outgoing lfrcnp (fun e tr => Ok (tr ++ [e])) []
           = Ok (snd (edgesAt r u outgoing), called)
           /\ Forall (fun e => PassesRestriction r e lfrcnp = true) called
           /\ forall e, PassesRestriction r e lfrcnp = false -> ~ In e called).
Proof.
  split; [exact PassesRestriction_iff|]. split; [exact ForEachEdge_eq|].
  intros r u outgoing lfrcnp.
  exists (filter (fun e => PassesRestriction r e lfrcnp) (fst (edgesAt r u outgoing))).
  rewrite ForEachEdge_eq, for_each_record. simpl. split; [reflexivity|]. split.
  - apply Forall_forall. intros e He. apply filter_In in He. tauto.
  - intros e Hp He. apply filter_In in He. destruct He as [_ He]. congruence.
Qed.

End EdgeFacts.

(** ** The relaxation rule *)

Lemma m2_ltb_irrefl p : m2.ltb p p = false.
Proof. unfold m2.ltb. destruct (Dbl.ne (m2.x p) (m2.x p)); dbl_order. Qed.

Lemma Junction_ltb_irrefl j : routing.Junction_ltb j j = false.
Proof.
  unfold routing.Junction_ltb. destruct (m2.neb _ _).
  - apply m2_ltb_irrefl.
  - apply Z.ltb_irrefl.
Qed.

Lemma Vertex_ltb_irrefl v : Vertex_ltb v v = false.
Proof.
  unfold Vertex_ltb.
  rewrite !Junction_ltb_irrefl, Nat.ltb_irrefl.
  replace (Dbl.lt (m_stageStartDistance v) (m_stageStartDistance v)) with false
    by (symmetry; dbl_order).
  replace (bool_ltb (m_bearingChecked v) (m_bearingChecked v)) with false
    by (destruct (m_bearingChecked v); reflexivity).
  split_ifs; reflexivity.
Qed.

Lemma find_assign_same {K V : Type} (ltb : K -> K -> bool) (m : StdMap.t K V) k v :
  ltb k k = false ->
  StdMap.find ltb (StdMap.assign ltb m k v) k = Some v.
Proof.
  intros Hk. induction m as [|[k' v'] m IH]; simpl.
  - unfold StdMap.equiv. rewrite Hk. reflexivity.
  - destruct (StdMap.equiv ltb k' k) eqn:E; simpl; rewrite E; auto.
Qed.

(** C6.  [pushVertex(u, v, sv, e)] inserts exactly when [u != v] and either
    [v] has no recorded score or the recorded total exceeds the total of [sv]
    by more than [1e-9].  On insertion [scores[v]] becomes [sv], [links[v]]
    becomes [(u, e)] and [(sv, v)] joins the queue; otherwise the search state
    (scores, links and queue) is unchanged. *)
Theorem pushVertex_spec (st : Search) (u v : Vertex) (sv : Score) (e : Edge) :
  (shouldPush st u v sv = true ->
   StdMap.find Vertex_ltb (scores (pushVertex st u v sv e)) v = Some sv
   /\ StdMap.find Vertex_ltb (links (pushVertex st u v sv e)) v = Some (u, e)
   /\ scores (pushVertex st u v sv e) = StdMap.assign Vertex_ltb (scores st) v sv
   /\ links (pushVertex st u v sv e) = StdMap.assign Vertex_ltb (links st) v (u, e)
   /\ queue (pushVertex st u v sv e) = (sv, v) :: queue st)
  /\ (shouldPush st u v sv = false -> pushVertex st u v sv e = st).
Proof.
  unfold shouldPush, pushVertex, StdMap.count.
  destruct (StdMap.find Vertex_ltb (scores st) v) as [s|]; simpl;
    rewrite ?orb_true_r, ?orb_false_r, (andb_comm (Vertex_neb u v)).
  - destruct (Dbl.gt (GetScore s) (GetScore sv + kEps)%float && Vertex_neb u v); simpl.
    + split; [intros _|discriminate].
      rewrite !find_assign_same by apply Vertex_ltb_irrefl. auto.
    + split; [discriminate|reflexivity].
  - simpl. destruct (Vertex_neb u v); simpl.
    + split; [intros _|discriminate].
      rewrite !find_assign_same by apply Vertex_ltb_irrefl. auto.
    + split; [discriminate|reflexivity].
Qed.

(** ** Initialisation *)

Section InitFacts.
Context {geo : Geometry} {G : Type} {graph : routing.RoadGraph G}.

Lemma pivotsOf_nil (g : G) wp : pivotsOf g wp = [] <-> vicinityOf g wp = [].
Proof.
  unfold pivotsOf. destruct (vicinityOf g wp); simpl; split; congruence.
Qed.

Lemma Init_pivots_fail (g : G) points idx acc i wp :
  (forall j, In j idx -> (j < length points)%nat) ->
  In i idx -> nth_error points i = Some wp -> vicinityOf g wp = [] ->
  exists pv, Init_pivots g points idx acc = Ok (pv, false).
Proof.
  revert acc. induction idx as [|j idx IH]; intros acc Hr Hi Hn Hv; [destruct Hi|].
  simpl. unfold at_index.
  destruct (nth_error points j) as [wj|] eqn:Ej.
  2:{ apply nth_error_None in Ej. specialize (Hr j (or_introl eq_refl)). lia. }
  cbn [bind].
  destruct (length (pivotsOf g wj) =? 0)%nat eqn:El; [eauto|].
  destruct Hi as [->|Hi].
  - rewrite Hn in Ej. injection Ej as <-. apply pivotsOf_nil in Hv. rewrite Hv in El.
    discriminate.
  - apply IH; auto. intros; apply Hr; right; auto.
Qed.

Lemma Init_pivots_ok (g : G) points idx acc :
  (forall j, In j idx -> exists wp, nth_error points j = Some wp /\ vicinityOf g wp <> []) ->
  exists pv, Init_pivots g points idx acc = Ok (acc ++ pv, true)
             /\ length pv = length idx /\ Forall (fun ps => ps <> []) pv.
Proof.
  revert acc. induction idx as [|j idx IH]; intros acc Hr.
  - exists []. simpl. rewrite app_nil_r. auto.
  - simpl. destruct (Hr j (or_introl eq_refl)) as (wj & Ej & Hv).
    unfold at_index. rewrite Ej. cbn [bind].
    assert (pivotsOf g wj <> []) as Hp by (rewrite pivotsOf_nil; auto).
    destruct (pivotsOf g wj) as [|p ps] eqn:Ep; [congruence|]. cbn [length Nat.eqb].
    destruct (IH (acc ++ [p :: ps])) as (pv & E & Hl & Hf).
    { intros; apply Hr; right; auto. }
    exists ((p :: ps) :: pv). rewrite E, <- app_assoc. simpl.
    split; [reflexivity|]. split; [congruence|]. constructor; auto; discriminate.
Qed.

(** C7.  On at least two way-points, [Init] returns false when the
    nearest-edge query of some intermediate way-point (index [i] with
    [1 <= i] and [i + 1 < num_points]) yields nothing, and true otherwise; on
    success there are exactly [num_points - 1] pivot lists and none is empty. *)
Theorem Init_spec (r : Router G) (points : list WayPoint) (pos neg : double) :
  (2 <= length points)%nat ->
  ((exists i wp, (1 <= i)%nat /\ (i + 1 < length points)%nat
                 /\ nth_error points i = Some wp
                 /\ vicinityOf (routing.ResetFakes (m_graph r)) wp = []) ->
   exists r', Init r points pos neg = Ok (r', false))
  /\ ((forall i wp, (1 <= i)%nat -> (i + 1 < length points)%nat ->
                    nth_error points i = Some wp ->
                    vicinityOf (routing.ResetFakes (m_graph r)) wp <> []) ->
      exists r', Init r points pos neg = Ok (r', true)
                 /\ length (m_pivots r') = (length points - 1)%nat
                 /\ Forall (fun ps => ps <> []) (m_pivots r')).
Proof.
  intros Hn. unfold Init.
  replace (2 <=? length points)%nat with true by (symmetry; apply Nat.leb_le; lia).
  cbn [CHECK bind]. split.
  - intros (i & wp & H1 & H2 & H3 & H4).
    destruct (Init_pivots_fail (routing.ResetFakes (m_graph r)) points
                (seq 1 (length points - 2)) [] i wp) as (pv & E); auto.
    { intros j Hj. apply in_seq in Hj. lia. }
    { apply in_seq. lia. }
    rewrite E. cbn. eauto.
  - intros Hall.
    destruct (Init_pivots_ok (routing.ResetFakes (m_graph r)) points
                (seq 1 (length points - 2)) []) as (pv & E & Hl & Hf).
    { intros j Hj. apply in_seq in Hj.
      destruct (nth_error points j) as [wj|] eqn:Ej.
      - exists wj. split; auto. apply (Hall j); auto; lia.
      - apply nth_error_None in Ej. lia. }
    rewrite E. cbn [bind negb app]. unfold at_index.
    destruct (nth_error points 0) as [front|] eqn:E0.
    2:{ apply nth_error_None in E0. lia. }
    destruct (nth_error points (length points - 1)) as [back|] eqn:E1.
    2:{ apply nth_error_None in E1. lia. }
    cbn [bind]. rewrite length_app, Hl, length_seq. cbn [length].
    replace (length points - 2 + 1 + 1 =? length points)%nat with true
      by (symmetry; apply Nat.eqb_eq; lia).
    cbn [CHECK bind]. eexists. split; [reflexivity|]. cbn [m_pivots]. split.
    + rewrite length_app, Hl, length_seq. simpl. lia.
    + apply Forall_app. split; auto. constructor; auto; discriminate.
Qed.

End InitFacts.

(** ** Path reconstruction *)

Section ReconstructFacts.
Context {geo : Geometry} {G : Type} {graph : routing.RoadGraph G}.

Lemma ForStagePrefix_all_fake es stage acc :
  forallb IsFake es = true -> ForStagePrefix es stage acc = None.
Proof.
  revert acc. induction es as [|b es IH]; intros acc H; simpl in *; [reflexivity|].
  apply andb_true_iff in H. destruct H as [Hb H]. unfold IsFake in Hb. rewrite Hb. simpl.
  destruct ((m_stage (m_u b) =? stage)%nat && (m_stage (m_v b) =? stage)%nat); auto.
Qed.

Lemma ForStagePrefix_some es stage acc skipped e :
  ForStagePrefix es stage acc = Some (skipped, e) ->
  exists pre rest,
    es = pre ++ e :: rest /\ skipped = acc ++ pre /\ IsFake e = false
    /\ Forall (fun b => IsFake b = true /\ m_stage (m_u b) = stage /\ m_stage (m_v b) = stage)
              pre.
Proof.
  revert acc. induction es as [|b es IH]; intros acc H; simpl in H; [discriminate|].
  destruct (routing.IsFake (m_raw b) && (m_stage (m_u b) =? stage)%nat
            && (m_stage (m_v b) =? stage)%nat) eqn:E.
  - destruct (IH _ H) as (pre & rest & -> & -> & Hf & Hall).
    exists (b :: pre), rest. rewrite <- app_assoc. simpl. repeat split; auto.
    constructor; auto.
    apply andb_true_iff in E. destruct E as [E E3]. apply andb_true_iff in E.
    destruct E as [E1 E2]. apply Nat.eqb_eq in E2, E3. auto.
  - destruct (routing.IsFake (m_raw b)) eqn:Ef; simpl in H; [discriminate|].
    injection H as <- <-. exists [], es. rewrite app_nil_r. simpl. repeat split; auto.
Qed.

Lemma realEdges_all_fake es : forallb IsFake es = true -> realEdges es = [].
Proof.
  unfold realEdges. induction es as [|b es IH]; simpl; intros H; [reflexivity|].
  apply andb_true_iff in H. destruct H as [Hb H]. rewrite Hb. simpl. auto.
Qed.

Lemma rev_all_fake es : forallb IsFake es = true -> forallb IsFake (rev es) = true.
Proof.
  rewrite !forallb_forall. intros H x Hx. apply H. apply in_rev. exact Hx.
Qed.

Lemma FindSingleEdgeApproximation_length fuel (r : Router G) es p :
  FindSingleEdgeApproximation fuel r es [] = Ok p -> (length p <= 1)%nat.
Proof.
  unfold FindSingleEdgeApproximation.
  destruct (CHECK (forallb IsFake es)); cbn [bind]; try discriminate.
  destruct (Dbl.lt _ kEps). { intros H; injection H as <-. simpl. lia. }
  destruct (for_each _ es _) as [best| |]; cbn [bind]; try discriminate.
  destruct (Dbl.ge _ _); intros H; injection H as <-; simpl; lia.
Qed.

(** C10.  When no non-fake edge is left after the special edges are stripped
    and both offsets consumed, no front or back candidate is looked at (both
    scores stay at their initial [-1] and the edge caches are not touched),
    nothing is prepended or appended, and the result is what the single-edge
    fallback gives from the empty path: no edge or one edge. *)
Theorem ReconstructPath_all_fake fuel (r : Router G) edges path es :
  (2 <= length (m_points r))%nat ->
  trimEdges r edges = Ok es ->
  forallb IsFake es = true ->
  findFrontEdge r es = Ok (r, ((-1)%float, routing.Edge_default))
  /\ findBackEdge r es = Ok (r, ((-1)%float, routing.Edge_default))
  /\ ReconstructPath fuel r edges path =
     (p <- FindSingleEdgeApproximation fuel r es [] ;;
      Ok (r, negb (length p =? 0)%nat, p))
  /\ forall r' b out, ReconstructPath fuel r edges path = Ok (r', b, out) ->
                      FindSingleEdgeApproximation fuel r es [] = Ok out
                      /\ (length out <= 1)%nat.
Proof.
  intros Hn Ht Hf.
  assert (findFrontEdge r es = Ok (r, ((-1)%float, routing.Edge_default))) as Hfront.
  { unfold findFrontEdge. rewrite ForStagePrefix_all_fake; auto. }
  assert (findBackEdge r es = Ok (r, ((-1)%float, routing.Edge_default))) as Hback.
  { unfold findBackEdge. rewrite ForStagePrefix_all_fake; auto. apply rev_all_fake; auto. }
  assert (ReconstructPath fuel r edges path =
          (p <- FindSingleEdgeApproximation fuel r es [] ;;
           Ok (r, negb (length p =? 0)%nat, p))) as Hrec.
  { unfold ReconstructPath.
    replace (2 <=? length (m_points r))%nat with true by (symmetry; apply Nat.leb_le; lia).
    cbn [CHECK bind]. rewrite Ht. cbn [bind]. rewrite Hfront. cbn [bind].
    rewrite Hback. cbn [bind]. rewrite realEdges_all_fake by auto.
    unfold insertFront, insertBack. cbn [length Nat.eqb negb andb]. rewrite !andb_false_r.
    cbn [length Nat.eqb]. reflexivity. }
  repeat split; auto.
  - rewrite Hrec in H.
    destruct (FindSingleEdgeApproximation fuel r es []) as [p| |]; cbn [bind] in H;
      try discriminate.
    injection H as _ _ <-. reflexivity.
  - rewrite Hrec in H.
    destruct (FindSingleEdgeApproximation fuel r es []) as [p| |] eqn:E; cbn [bind] in H;
      try discriminate.
    injection H as _ _ <-. eapply FindSingleEdgeApproximation_length; eauto.
Qed.


Lemma for_each_pure {A S : Type} (f : A -> S -> S) l s :
  for_each (fun a s => Ok (f a s)) l s = Ok (fold_left (fun s a => f a s) l s).
Proof. revert s. induction l as [|a l IH]; intros s; simpl; auto. Qed.

Lemma for_each_when {A S : Type} (p : A -> bool) (fn : A -> S -> res S) l s :
  for_each (fun a s => if p a then fn a s else Ok s) l s = for_each fn (filter p l) s.
Proof.
  revert s. induction l as [|a l IH]; intros s; simpl; [reflexivity|].
  destruct (p a); simpl.
  - destruct (fn a s); simpl; auto.
  - apply IH.
Qed.

Lemma ForEachNonFakeEdge_pure (r : Router G) u outgoing lfrcnp score result init :
  ForEachNonFakeEdge r u outgoing lfrcnp
    (fun edge best => Ok (scoreCandidate (score edge) (result edge) best)) init =
  Ok (snd (edgesAt r u outgoing),
      chooseBest score result
        (filter (fun c => negb (routing.IsFake c))
                (filter (fun c => PassesRestriction r c lfrcnp) (fst (edgesAt r u outgoing))))
        init).
Proof.
  unfold ForEachNonFakeEdge. rewrite ForEachEdge_eq.
  rewrite (for_each_when (fun c => negb (routing.IsFake c))
             (fun edge best => Ok (scoreCandidate (score edge) (result edge) best))).
  rewrite (for_each_pure (fun edge best => scoreCandidate (score edge) (result edge) best)).
  reflexivity.
Qed.

Lemma chooseBest_ge score result cands init :
  Dbl.is_nan (fst init) = false ->
  Dbl.is_nan (fst (chooseBest score result cands init)) = false
  /\ Dbl.gt (fst init) (fst (chooseBest score result cands init)) = false.
Proof.
  unfold chooseBest. revert init. induction cands as [|c cands IH]; intros init Hn; simpl.
  - split; auto. dbl_order.
  - specialize (IH (scoreCandidate (score c) (result c) init)).
    revert IH.
    generalize (fst (fold_left (fun best c0 => scoreCandidate (score c0) (result c0) best)
                               cands (scoreCandidate (score c) (result c) init))).
    unfold scoreCandidate. intros b IH.
    destruct (Dbl.gt (score c) (fst init)) eqn:E; simpl in IH.
    + destruct IH as [IH1 IH2]; [dbl_order|]. split; auto. dbl_order.
    + destruct IH as [IH1 IH2]; auto.
Qed.

Lemma chooseBest_max score result cands init c :
  Dbl.is_nan (fst init) = false ->
  In c cands -> Dbl.gt (score c) (fst (chooseBest score result cands init)) = false.
Proof.
  revert init. induction cands as [|d cands IH]; intros init Hn Hc; [destruct Hc|].
  assert (Dbl.is_nan (fst (scoreCandidate (score d) (result d) init)) = false) as Hn'.
  { unfold scoreCandidate. destruct (Dbl.gt (score d) (fst init)) eqn:E; simpl; auto.
    dbl_order. }
  destruct Hc as [->|Hc]; [|apply IH; auto].
  simpl. destruct (chooseBest_ge score result cands
                     (scoreCandidate (score c) (result c) init) Hn') as [H0 H].
  revert H0 H. unfold chooseBest.
  generalize (fst (fold_left (fun best c0 => scoreCandidate (score c0) (result c0) best)
                             cands (scoreCandidate (score c) (result c) init))).
  unfold scoreCandidate. intros b H0 H.
  destruct (Dbl.gt (score c) (fst init)) eqn:E; simpl in H; dbl_order.
Qed.

Lemma chooseBest_in score result cands init :
  chooseBest score result cands init = init
  \/ exists c, In c cands /\ chooseBest score result cands init = (score c, result c).
Proof.
  unfold chooseBest. revert init. induction cands as [|d cands IH]; intros init; simpl; auto.
  destruct (IH (scoreCandidate (score d) (result d) init)) as [H|(c & Hc & H)].
  - rewrite H. unfold scoreCandidate.
    destruct (Dbl.gt (score d) (fst init)); eauto.
  - right. exists c. split; auto.
Qed.

Lemma findFrontEdge_eq (r : Router G) es skipped e wp :
  ForStagePrefix es 0 [] = Some (skipped, e) ->
  nth_error (m_points r) 0 = Some wp ->
  findFrontEdge r es =
  Ok (snd (edgesAt r (m_u e) false),
      chooseBest (frontScore skipped) routing.GetReverseEdge (frontCandidates r e wp)
                 ((-1)%float, routing.Edge_default)).
Proof.
  intros Hp Hw. unfold findFrontEdge, at_index. rewrite Hp, Hw. cbn [bind].
  apply ForEachNonFakeEdge_pure.
Qed.

Lemma realEdges_app a b : realEdges (a ++ b) = realEdges a ++ realEdges b.
Proof. unfold realEdges. rewrite filter_app, map_app. reflexivity. Qed.

(** C2 (as amended).  Front reattachment looks at the first non-fake edge
    [e] when every edge before it is a fake edge inside stage 0.  Its
    candidates are the real edges among the ingoing edges the router
    enumerates at the start vertex of [e] (cache or graph; no nearest-edge
    query) that pass [waypoints[0].lfrcnp].  The candidate chosen has a
    matching score no other candidate exceeds, and its reverse is put in
    front of the real edges of the path exactly when that score is at least
    [0.5] and the reverse differs from the first of them. *)
Theorem front_reattachment fuel (r : Router G) edges path es skipped e wp r' b out :
  ReconstructPath fuel r edges path = Ok (r', b, out) ->
  trimEdges r edges = Ok es ->
  ForStagePrefix es 0 [] = Some (skipped, e) ->
  nth_error (m_points r) 0 = Some wp ->
  let cands := frontCandidates r e wp in
  let best := chooseBest (frontScore skipped) routing.GetReverseEdge cands
                         ((-1)%float, routing.Edge_default) in
  (exists rest, es = skipped ++ e :: rest /\ IsFake e = false
                /\ Forall (fun b => IsFake b = true /\ m_stage (m_u b) = 0%nat
                                    /\ m_stage (m_v b) = 0%nat) skipped)
  /\ (forall c, In c cands -> Dbl.gt (frontScore skipped c) (fst best) = false)
  /\ (best = ((-1)%float, routing.Edge_default)
      \/ exists c, In c cands /\ best = (frontScore skipped c, routing.GetReverseEdge c))
  /\ exists tail,
      out = (if Dbl.ge (fst best) 0.5%float
                && routing.Edge_neb (hd routing.Edge_default (realEdges es)) (snd best)
             then [snd best] else [])
            ++ realEdges es ++ tail.
Proof.
  intros Hrec Ht Hp Hw cands best.
  destruct (ForStagePrefix_some _ _ _ _ _ Hp) as (pre & rest & Hes & Hsk & Hfe & Hall).
  simpl in Hsk. subst skipped.
  split; [eauto|]. split; [intros c Hc; apply chooseBest_max; auto|].
  split; [apply chooseBest_in|].
  unfold ReconstructPath in Hrec.
  destruct (CHECK (2 <=? length (m_points r))%nat); cbn [bind] in Hrec; try discriminate.
  rewrite Ht in Hrec. cbn [bind] in Hrec.
  rewrite (findFrontEdge_eq r es pre e wp Hp Hw) in Hrec. cbn [bind] in Hrec.
  fold cands in Hrec. fold best in Hrec.
  destruct (findBackEdge _ es) as [[r2 back]| |]; cbn [bind] in Hrec; try discriminate.
  assert (exists x xs, realEdges es = x :: xs) as (x & xs & Hre).
  { rewrite Hes, realEdges_app. unfold realEdges at 2. simpl. rewrite Hfe. simpl.
    destruct (realEdges pre); simpl; eauto. }
  unfold insertFront, insertBack in Hrec. rewrite Hre in *.
  cbn [length Nat.eqb negb andb hd] in Hrec. rewrite andb_true_r in Hrec.
  unfold kFakeCoverageThreshold in Hrec.
  destruct (Dbl.ge (fst best) 0.5%float && routing.Edge_neb x (snd best)) eqn:Ef.
  - cbn [length Nat.eqb negb andb] in Hrec. rewrite andb_true_r in Hrec.
    destruct (Dbl.ge (fst back) 0.5%float && _) in Hrec; cbn [length Nat.eqb bind app] in Hrec;
      injection Hrec as _ _ <-.
    + exists [snd back]. cbn [hd]. rewrite Ef. reflexivity.
    + exists []. cbn [hd]. rewrite Ef, app_nil_r. reflexivity.
  - cbn [length Nat.eqb negb andb] in Hrec. rewrite andb_true_r in Hrec.
    destruct (Dbl.ge (fst back) 0.5%float && _) in Hrec; cbn [length Nat.eqb bind app] in Hrec;
      injection Hrec as _ _ <-.
    + exists [snd back]. cbn [hd]. rewrite Ef. reflexivity.
    + exists []. cbn [hd]. rewrite Ef, app_nil_r. reflexivity.
Qed.

End ReconstructFacts.

(** ** The entry point *)

Section GoFacts.
Context {geo : Geometry} {G : Type} {graph : routing.RoadGraph G}.

Lemma bind_Ok {A B : Type} (c : res A) (k : A -> res B) b :
  bind c k = Ok b -> exists a, c = Ok a /\ k a = Ok b.
Proof. destruct c; simpl; intros H; try discriminate. eauto. Qed.

Lemma ReconstructPath_result fuel (r : Router G) edges path r' b out :
  ReconstructPath fuel r edges path = Ok (r', b, out) ->
  b = negb (length out =? 0)%nat.
Proof.
  unfold ReconstructPath. intros H.
  repeat (apply bind_Ok in H; destruct H as (? & _ & H)).
  destruct x1 as [r1 front]. apply bind_Ok in H. destruct H as ([r2 back] & _ & H).
  apply bind_Ok in H. destruct H as (p & _ & H).
  injection H as _ <- <-. reflexivity.
Qed.

Lemma FindPath_step_result fuel (r : Router G) s piS st su u path r' b out :
  FindPath_step fuel r s piS st su u path = Ok (inl (r', b, out)) ->
  b = negb (length out =? 0)%nat.
Proof.
  unfold FindPath_step.
  destruct (StdMap.index Vertex_ltb (scores st) u Score_zero) as [scores_u scores'].
  destruct (Score_neb su scores_u); [discriminate|].
  destruct (IsFinalVertex r u).
  - intros H. apply bind_Ok in H. destruct H as (edges & _ & H).
    apply bind_Ok in H. destruct H as ([[r1 b1] o1] & H1 & H).
    injection H as -> -> ->. eapply ReconstructPath_result; eauto.
  - intros H.
    repeat (apply bind_Ok in H; destruct H as (? & _ & H)).
    destruct (Dbl.gt _ _); [discriminate|].
    repeat (apply bind_Ok in H; destruct H as (? & _ & H)).
    discriminate.
Qed.

Lemma FindPath_loop_result fuel (r : Router G) s piS st path r' b out :
  FindPath_loop fuel r s piS st path = Ok (r', b, out) ->
  (b = true /\ out <> []) \/ (b = false /\ (out = [] \/ out = path)).
Proof.
  revert r st. induction fuel as [|fuel IH]; intros r st; simpl; [discriminate|].
  destruct (queue_pop (queue st)) as [[[su u] q]|].
  2:{ intros H. injection H as _ <- <-. auto. }
  intros H. apply bind_Ok in H. destruct H as (next & Hs & H).
  destruct next as [[[r1 b1] o1]|[r1 st1]].
  - injection H as -> -> ->. apply FindPath_step_result in Hs. subst b.
    destruct out; simpl; [right|left]; split; auto. discriminate.
  - eapply IH; eauto.
Qed.

(** C1 (as amended).  Whenever [Go] returns true the path is non-empty.
    Whenever it returns false the path is empty (reconstruction emptiness)
    or is the vector the caller passed, untouched (init failure, search
    exhaustion).  So for a call with an empty path vector the return value is
    true iff the path is non-empty on return. *)
Theorem Go_result fuel (r : Router G) points pos neg path r' b out :
  Go fuel r points pos neg path = Ok (r', b, out) ->
  (b = true -> out <> [])
  /\ (b = false -> out = [] \/ out = path)
  /\ (path = [] -> (b = true <-> out <> [])).
Proof.
  unfold Go. intros H. apply bind_Ok in H. destruct H as ([r1 ok] & _ & H).
  assert ((b = true /\ out <> []) \/ (b = false /\ (out = [] \/ out = path))) as Hr.
  { destruct ok; simpl in H.
    - unfold FindPath in H.
      repeat (apply bind_Ok in H; destruct H as (? & _ & H)).
      eapply FindPath_loop_result; eauto.
    - injection H as _ <- <-. auto. }
  destruct Hr as [[-> Ho]|[-> Ho]].
  - split; [auto|]. split; [discriminate|]. intros _. split; auto.
  - split; [discriminate|]. split; [auto|]. intros ->. split; [discriminate|].
    intros Hne. destruct Ho; congruence.
Qed.

End GoFacts.


(** ** The properties at concrete inputs *)

(** C4 at the scores [(1, 2)] and [(2, 0.5)]: the first has the larger sum. *)
Lemma Score_order_witness :
  exactly_one (Score_ltb (MakeScore 1 2) (MakeScore 2 0.5))
              (Score_eqb (MakeScore 1 2) (MakeScore 2 0.5))
              (Score_gtb (MakeScore 1 2) (MakeScore 2 0.5)).
Proof.
  apply (proj2 (proj2 (proj2 (proj2 Score_order))) (MakeScore 1 2) (MakeScore 2 0.5));
    vm_compute; reflexivity.
Defined.

(** C7 on the one-edge graph: with [M] (on the edge) in between, [Init]
    succeeds with two pivot lists; with [Far] in between, it fails. *)
Lemma Init_spec_witness :
  (exists r', Init (graph := Plane.roadGraph)
                   (Plane.router Plane.oneEdgeGraph FRC3) Plane.threePointsFar 0 0
              = Ok (r', false))
  /\ (exists r', Init (graph := Plane.roadGraph)
                      (Plane.router Plane.oneEdgeGraph FRC3) Plane.threePoints 0 0
                 = Ok (r', true)
                 /\ length (m_pivots r') = (length Plane.threePoints - 1)%nat
                 /\ Forall (fun ps => ps <> []) (m_pivots r')).
Proof.
  split.
  - apply (proj1 (@Init_spec _ Plane.roadGraph
                    (Plane.router Plane.oneEdgeGraph FRC3) Plane.threePointsFar 0 0
                    (le_S _ _ (le_n 2)))).
    exists 1%nat, (Plane.wayPoint Plane.Far Plane.metresPerUnit 64).
    repeat split; simpl; lia.
  - apply (proj2 (@Init_spec _ Plane.roadGraph
                    (Plane.router Plane.oneEdgeGraph FRC3) Plane.threePoints 0 0
                    (le_S _ _ (le_n 2)))).
    intros [|[|i]] wp H1 H2 H3; simpl in H2; try lia.
    injection H3 as <-. vm_compute. discriminate.
Defined.

(** C10 on a search path of one fake edge along [AB]: the fallback gives
    the path [[AB]]. *)
Lemma ReconstructPath_all_fake_witness :
  Plane.reconstruct Plane.oneEdgeGraph Plane.pointsPQ Plane.fakeOnly =
  (p <- FindSingleEdgeApproximation (geo := Plane.geometry) (graph := Plane.roadGraph) 5
          (Plane.routerAt Plane.oneEdgeGraph Plane.pointsPQ) Plane.fakeOnly [] ;;
   Ok (Plane.routerAt Plane.oneEdgeGraph Plane.pointsPQ, negb (length p =? 0)%nat, p))
  /\ returned (Plane.reconstruct Plane.oneEdgeGraph Plane.pointsPQ Plane.fakeOnly)
     = Ok (true, [Plane.AB]).
Proof.
  split.
  - apply (@ReconstructPath_all_fake Plane.geometry _ Plane.roadGraph 5
             (Plane.routerAt Plane.oneEdgeGraph Plane.pointsPQ) Plane.fakeOnly []
             Plane.fakeOnly); vm_compute; auto.
  - vm_compute. reflexivity.
Defined.

Lemma reconstruct_backAndForth :
  Plane.reconstruct Plane.twoWayGraph Plane.pointsS Plane.backAndForth
  = Ok (Plane.routerAfterBackAndForth, true, [Plane.AB]).
Proof. vm_compute. reflexivity. Qed.

Lemma trimEdges_backAndForth :
  trimEdges (geo := Plane.geometry) (Plane.routerAt Plane.twoWayGraph Plane.pointsS)
            Plane.backAndForth
  = Ok Plane.backAndForth.
Proof. vm_compute. reflexivity. Qed.

Lemma go_twoPoints :
  Plane.go 20 Plane.oneEdgeGraph Plane.twoPoints []
  = Ok (Plane.routerAfterGo, true, [Plane.AB]).
Proof. vm_compute. reflexivity. Qed.

(** C2 on the road with both directions: the only candidate is [BA], its
    score is [0.75], and its reverse, being the first edge of the path
    already, is not put in front. *)
Lemma front_reattachment_witness :
  exists tail,
    [Plane.AB] =
    (if Dbl.ge (fst (chooseBest (frontScore (geo := Plane.geometry)
                                            [nth 0 Plane.backAndForth Edge_default])
                                routing.GetReverseEdge [Plane.BA]
                                ((-1)%float, routing.Edge_default))) 0.5
        && routing.Edge_neb (hd routing.Edge_default (realEdges Plane.backAndForth))
             (snd (chooseBest (frontScore (geo := Plane.geometry)
                                          [nth 0 Plane.backAndForth Edge_default])
                              routing.GetReverseEdge [Plane.BA]
                              ((-1)%float, routing.Edge_default)))
     then [snd (chooseBest (frontScore (geo := Plane.geometry)
                                       [nth 0 Plane.backAndForth Edge_default])
                           routing.GetReverseEdge [Plane.BA]
                           ((-1)%float, routing.Edge_default))]
     else [])
    ++ realEdges Plane.backAndForth ++ tail.
Proof.
  exact (proj2 (proj2 (proj2
    (@front_reattachment Plane.geometry _ Plane.roadGraph 5
       (Plane.routerAt Plane.twoWayGraph Plane.pointsS) Plane.backAndForth []
       Plane.backAndForth [nth 0 Plane.backAndForth Edge_default]
       (nth 1 Plane.backAndForth Edge_default) (Plane.wayPoint Plane.S 0 64)
       Plane.routerAfterBackAndForth true [Plane.AB]
       reconstruct_backAndForth trimEdges_backAndForth eq_refl eq_refl)))).
Defined.

(** C2, the claim as stated, fails.  On the road with both directions the
    best candidate [BA] has the score [0.75], at least [0.5], and yet the path
    is [[AB]]: nothing was put in front.  On the graph with the road [X]
    beside [A], the nearest-edge query around [A] yields [X], whose score is
    [0.75], but the router asks no such query: it has no candidate and the
    path is [[AB]] again. *)
Lemma front_reattachment_counterexample :
  (frontCandidates (graph := Plane.roadGraph)
     (Plane.routerAt Plane.twoWayGraph Plane.pointsS)
     (nth 1 Plane.backAndForth Edge_default) (Plane.wayPoint Plane.S 0 64) = [Plane.BA]
   /\ Dbl.ge (frontScore (geo := Plane.geometry) [nth 0 Plane.backAndForth Edge_default]
                         Plane.BA) 0.5 = true
   /\ returned (Plane.reconstruct Plane.twoWayGraph Plane.pointsS Plane.backAndForth)
      = Ok (true, [Plane.AB]))
  /\ (specFrontCandidates (graph := Plane.roadGraph)
        (Plane.routerAt Plane.parallelGraph Plane.pointsS')
        (nth 1 Plane.alongParallel Edge_default) (Plane.wayPoint Plane.S' 0 64)
      = [Plane.AB; Plane.X]
      /\ frontCandidates (graph := Plane.roadGraph)
           (Plane.routerAt Plane.parallelGraph Plane.pointsS')
           (nth 1 Plane.alongParallel Edge_default) (Plane.wayPoint Plane.S' 0 64) = []
      /\ Dbl.ge (frontScore (geo := Plane.geometry) [nth 0 Plane.alongParallel Edge_default]
                            Plane.X) 0.5 = true
      /\ routing.Edge_neb (routing.GetReverseEdge Plane.X) Plane.AB = true
      /\ returned (Plane.reconstruct Plane.parallelGraph Plane.pointsS' Plane.alongParallel)
         = Ok (true, [Plane.AB])).
Proof. vm_compute. repeat split; reflexivity. Qed.

(** C1 on the one-edge graph, two way-points, empty path vector: [Go]
    returns true with the path [[AB]]. *)
Lemma Go_result_witness :
  (true = true -> [Plane.AB] <> [])
  /\ (true = false -> [Plane.AB] = [] \/ [Plane.AB] = [])
  /\ (@nil routing.Edge = [] -> (true = true <-> [Plane.AB] <> [])).
Proof.
  exact (@Go_result Plane.geometry _ Plane.roadGraph 20
           (Plane.router Plane.oneEdgeGraph FRC3) Plane.twoPoints 0 0 []
           Plane.routerAfterGo true [Plane.AB]
           go_twoPoints).
Defined.

(** C1, the claim as stated, fails.  With [Far] as intermediate way-point
    [Init] fails, and [Go] returns false with the path vector as it was
    passed: here [[AB]], not empty. *)
Lemma Go_false_nonempty_counterexample :
  returned (Plane.go 20 Plane.oneEdgeGraph Plane.threePointsFar [Plane.AB])
  = Ok (false, [Plane.AB]).
Proof. vm_compute. reflexivity. Qed.

(** ** The bearing quantizer *)

Lemma digits2_pos_bound m : Zpos m < 2 ^ Zpos (digits2_pos m).
Proof.
  induction m as [m IH|m IH|]; simpl digits2_pos.
  - rewrite Pos2Z.inj_succ, Z.pow_succ_r by lia. lia.
  - rewrite Pos2Z.inj_succ, Z.pow_succ_r by lia. lia.
  - reflexivity.
Qed.

Lemma valid_mantissa_bound s m e :
  valid_binary (S754_finite s m e) = true -> Zpos m < 2 ^ 53.
Proof.
  unfold valid_binary, SpecFloat.valid_binary, bounded, canonical_mantissa, fexp.
  intros H. apply andb_true_iff in H. destruct H as [H _]. apply Z.eqb_eq in H.
  pose proof (digits2_pos_bound m) as Hm.
  assert (Zpos (digits2_pos m) <= 53) as Hd by (unfold prec in H; lia).
  eapply Z.lt_le_trans; [exact Hm|]. apply Z.pow_le_mono_r; lia.
Qed.

Lemma trunc_range c :
  Dbl.le 0 c = true -> Dbl.le c 255 = true ->
  exists z, Dbl.SFtrunc (Prim2SF c) = Some z /\ 0 <= z <= 255.
Proof.
  unfold Dbl.le. rewrite !leb_key.
  change (key 0) with (Some (0, 0, 0)).
  change (key 255) with (Some (1, -45, 8972014882652160)).
  unfold key. pose proof (Prim2SF_valid c) as Hv.
  destruct (Prim2SF c) as [s|s| |s m e]; simpl.
  - intros _ _. exists 0. split; [reflexivity|lia].
  - destruct s; simpl; discriminate.
  - discriminate.
  - apply valid_mantissa_bound in Hv.
    destruct s; [intros H; discriminate|].
    intros _ H. apply orb_true_iff in H.
    rewrite key_ltb_true, key_eqb_true in H. unfold lexlt, lexeq in H. cbn [fst snd] in H.
    destruct e as [|p|p]; try lia.
    eexists. split; [reflexivity|].
    rewrite Z.shiftr_div_pow2 by lia.
    split; [apply Z.div_pos; lia|].
    assert (Zpos m < 256 * 2 ^ Zpos p) as Hb.
    { destruct (Z.eq_dec (Zpos p) 45) as [->|Hne].
      - lia.
      - assert (46 <= Zpos p) by lia.
        assert (2 ^ 46 <= 2 ^ Zpos p) by (apply Z.pow_le_mono_r; lia).
        change (2 ^ 53) with (128 * 2 ^ 46) in Hv. lia. }
    assert (Zpos m / 2 ^ Zpos p < 256); [|lia].
    apply Z.div_lt_upper_bound; [apply Z.pow_pos_nonneg; lia|lia].
Qed.

Lemma iter_pos_inv {A : Type} (P : A -> Prop) (f : A -> A) :
  (forall x, P x -> P (f x)) -> forall p x, P x -> P (iter_pos f p x).
Proof.
  intros Hf. induction p as [p IH|p IH|]; intros x Hx; simpl; auto.
Qed.

Lemma shr_1_nonneg mrs : 0 <= shr_m mrs -> 0 <= shr_m (shr_1 mrs).
Proof.
  destruct mrs as [m r s]. destruct m as [|[p|p|]|[p|p|]]; simpl; lia.
Qed.

Lemma shr_fexp_nonneg m e l :
  0 <= m -> 0 <= shr_m (fst (shr_fexp prec emax m e l)).
Proof.
  intros Hm. unfold shr_fexp, shr.
  assert (shr_m (shr_record_of_loc m l) = m) as Hl by (destruct l as [|[]]; reflexivity).
  destruct (fexp prec emax (Zdigits2 m + e) - e) as [|p|p]; simpl; try lia.
  apply (iter_pos_inv (fun mrs => 0 <= shr_m mrs)); [apply shr_1_nonneg|lia].
Qed.

Lemma round_nearest_even_nonneg m l : 0 <= m -> 0 <= round_nearest_even m l.
Proof.
  intros Hm. destruct l as [|[]]; simpl; try lia. destruct (Z.even m); lia.
Qed.

(** Rounding a non-negative mantissa gives a zero, a finite number or an
    infinity of the sign asked for: never NaN. *)
Lemma binary_round_aux_sign sx mx ex lx :
  0 <= mx ->
  match binary_round_aux prec emax sx mx ex lx with
  | S754_zero s | S754_infinity s | S754_finite s _ _ => s = sx
  | S754_nan => False
  end.
Proof.
  intros Hm. unfold binary_round_aux.
  pose proof (shr_fexp_nonneg mx ex lx Hm) as H1.
  destruct (shr_fexp prec emax mx ex lx) as [mrs' e']. simpl in H1.
  pose proof (shr_fexp_nonneg _ e' loc_Exact
                (round_nearest_even_nonneg _ (loc_of_shr_record mrs') H1)) as H2.
  destruct (shr_fexp prec emax _ e' loc_Exact) as [mrs'' e'']. simpl in H2.
  destruct (shr_m mrs'') as [|p|p]; try lia; auto.
  destruct (e'' <=? emax - prec); reflexivity.
Qed.

Lemma div_core_nonneg m1 e1 m2 e2 :
  0 <= fst (fst (SFdiv_core_binary prec emax (Zpos m1) e1 (Zpos m2) e2)).
Proof.
  unfold SFdiv_core_binary.
  set (m' := match _ - _ - _ with Z0 => Zpos m1 | Zpos _ => _ | Zneg _ => 0 end).
  assert (0 <= m') as Hm'.
  { subst m'. destruct (_ - _ - _); try lia. apply Z.shiftl_nonneg. lia. }
  pose proof (Z.div_pos m' (Zpos m2) Hm' ltac:(lia)) as Hq.
  unfold Z.div in Hq. destruct (Z.div_eucl m' (Zpos m2)) as [q r]. exact Hq.
Qed.

Lemma div_not_nan x y :
  Dbl.le 0 x = true -> Dbl.le x 360 = true -> Dbl.lt 0 y = true -> Dbl.lt y 2 = true ->
  Dbl.is_nan (x / y)%float = false.
Proof.
  intros H0 H1 H2 H3.
  destruct (Dbl.is_nan (x / y)%float) eqn:E; [|reflexivity].
  apply key_None_nan in E. unfold key in E. rewrite div_spec in E.
  revert H0 H1 H2 H3. unfold Dbl.le, Dbl.lt. rewrite !leb_key, !ltb_key.
  change (key 0) with (Some (0, 0, 0)).
  change (key 360) with (Some (1, -44, 6333186975989760)).
  change (key 2) with (Some (1, -51, 4503599627370496)).
  unfold key.
  destruct (Prim2SF x) as [sx|sx| |sx mx ex]; destruct (Prim2SF y) as [sy|sy| |sy my ey];
    simpl; try discriminate;
    try (destruct sx; simpl; discriminate); try (destruct sy; simpl; discriminate).
  intros _ _ _ _. unfold SF64div, SFdiv in E.
  pose proof (div_core_nonneg mx ex my ey) as Hq.
  destruct (SFdiv_core_binary prec emax (Zpos mx) ex (Zpos my) ey) as [[mz ez] lz].
  simpl in Hq. pose proof (binary_round_aux_sign (xorb sx sy) mz ez lz Hq) as Hs.
  destruct (binary_round_aux prec emax (xorb sx sy) mz ez lz); try discriminate.
  destruct Hs.
Qed.

Section BearingFacts.
Context {geo : Geometry}.

Lemma clamp_range q :
  Dbl.is_nan q = false ->
  Dbl.le 0 (Dbl.clamp q 0 255) = true /\ Dbl.le (Dbl.clamp q 0 255) 255 = true.
Proof.
  intros Hq. unfold Dbl.clamp.
  destruct (PrimFloat.ltb 255 q) eqn:E1; [split; reflexivity|].
  destruct (PrimFloat.ltb q 0) eqn:E2; [split; reflexivity|].
  revert E1 E2 Hq. unfold Dbl.le, Dbl.is_nan. rewrite !leb_key, !ltb_key, eqb_key.
  change (key 0) with (Some (0, 0, 0)).
  change (key 255) with (Some (1, -45, 8972014882652160)).
  destruct (key q) as [[[q1 q2] q3]|]; cbn [okey_ltb okey_leb okey_eqb negb];
    [|discriminate].
  rewrite !orb_true_iff, !negb_false_iff, !key_ltb_true, !key_ltb_false, !key_eqb_true.
  unfold lexlt, lexeq. cbn [fst snd]. intros. lia.
Qed.

Lemma to_uint32_clamp c :
  Dbl.le 0 c = true -> Dbl.le c 255 = true ->
  exists k, Dbl.to_uint32 c = Ok k /\ 0 <= k <= 255.
Proof.
  intros H0 H1. destruct (trunc_range c H0 H1) as (z & Hz & Hr).
  exists z. unfold Dbl.to_uint32. rewrite Hz.
  replace (0 <=? z) with true by (symmetry; apply Z.leb_le; lia).
  replace (z <? 2 ^ 32) with true by (symmetry; apply Z.ltb_lt; lia).
  auto.
Qed.

Lemma to_uint32_clamp_inv q k :
  Dbl.to_uint32 (Dbl.clamp q 0 255) = Ok k -> 0 <= k <= 255.
Proof.
  intros H.
  destruct (Dbl.is_nan q) eqn:Hq.
  - (* a NaN passes the clamp and its conversion is undefined *)
    assert (Dbl.clamp q 0 255 = q) as Hc.
    { unfold Dbl.clamp.
      replace (PrimFloat.ltb 255 q) with false by (symmetry; dbl_order).
      replace (PrimFloat.ltb q 0) with false by (symmetry; dbl_order). reflexivity. }
    rewrite Hc in H. unfold Dbl.to_uint32 in H. apply key_None_nan in Hq. unfold key in Hq.
    destruct (Prim2SF q); try discriminate.
  - destruct (clamp_range q Hq) as [H0 H1].
    destruct (to_uint32_clamp _ H0 H1) as (k' & Hk & Hr). congruence.
Qed.

(** C8.  Whenever [Bearing] returns, it returns a bucket in [0, 255], and
    with such a bucket as [actual] the range assertions of
    [AddBearingPenalty] on [actual] hold (the call succeeds for every
    [expected] in range).  [Bearing] does return when its two CHECKs on the
    angle pass: the clamped quotient converts to [uint32_t] without undefined
    behaviour. *)
Theorem Bearing_range (a b : m2.PointD) :
  (forall k, Bearing a b = Ok k ->
             0 <= k <= 255
             /\ forall s expected, 0 <= expected < 256 ->
                                   exists s', AddBearingPenalty s expected (Int.wrap k) = Ok s')
  /\ (Dbl.le 0 (AngleToBearing (RadToDeg (AngleTo a b))) = true ->
      Dbl.le (AngleToBearing (RadToDeg (AngleTo a b))) 360 = true ->
      exists k, Bearing a b = Ok k)
  /\ Bearing a b <> Fuel.
Proof.
  unfold Bearing.
  change (Dbl.of_int 360) with 360%float. change (Dbl.of_int 0) with 0%float.
  set (angle := AngleToBearing (RadToDeg (AngleTo a b))).
  split; [|split].
  - intros k H.
    destruct (Dbl.le angle 360); cbn [CHECK bind] in H; try discriminate.
    destruct (Dbl.ge angle 0); cbn [CHECK bind] in H; try discriminate.
    apply to_uint32_clamp_inv in H. split; auto.
    intros s expected He. rewrite int_wrap_small by lia.
    eexists. apply AddBearingPenalty_eq; lia.
  - intros H0 H1. rewrite H1. unfold Dbl.ge. unfold Dbl.le in H0. rewrite H0.
    cbn [CHECK bind].
    assert (Dbl.is_nan (angle / kAnglesInBucket)%float = false) as Hq
      by (apply div_not_nan; auto).
    destruct (clamp_range _ Hq) as [Hc0 Hc1].
    destruct (to_uint32_clamp _ Hc0 Hc1) as (k & Hk & _). eauto.
  - destruct (Dbl.le angle 360); cbn [CHECK bind]; try discriminate.
    destruct (Dbl.ge angle 0); cbn [CHECK bind]; try discriminate.
    unfold Dbl.to_uint32. destruct (Dbl.SFtrunc _); try discriminate.
    destruct (_ && _); discriminate.
Qed.
End BearingFacts.

(** C8 at the points [A] and [B] of the plane: due east is bucket 64. *)
Lemma Bearing_range_witness :
  Bearing (geo := Plane.geometry) (routing.GetPoint Plane.A) (routing.GetPoint Plane.B) = Ok 64
  /\ 0 <= 64 <= 255.
Proof.
  split; [vm_compute; reflexivity|].
  exact (proj1 (proj1 (@Bearing_range Plane.geometry (routing.GetPoint Plane.A)
                         (routing.GetPoint Plane.B)) 64 eq_refl)).
Defined.

(** ** The range of [GetCoverage]

    Rounding to nearest on non-negative doubles, in exact integer terms. *)

Lemma digits2_log2 m : Zpos (digits2_pos m) = Z.log2 (Zpos m) + 1.
Proof.
  destruct m as [m|m|]; simpl; try reflexivity.
  - rewrite Pos2Z.inj_succ. f_equal. clear. induction m; simpl; auto; rewrite IHm; auto.
  - rewrite Pos2Z.inj_succ. f_equal. clear. induction m; simpl; auto; rewrite IHm; auto.
Qed.

Lemma valid_finite s m e :
  valid_binary (S754_finite s m e) = true ->
  -1074 <= e <= 971 /\ Z.log2 (Zpos m) <= 52 /\ (-1074 < e -> Z.log2 (Zpos m) = 52).
Proof.
  unfold valid_binary, SpecFloat.valid_binary, bounded, canonical_mantissa, fexp, SpecFloat.emin.
  rewrite digits2_log2. unfold prec, emax. intros H.
  apply andb_true_iff in H. destruct H as [H1 H2].
  apply Z.eqb_eq in H1. apply Z.leb_le in H2. lia.
Qed.

Lemma pow2_pos n : 0 <= n -> 0 < 2 ^ n.
Proof. intros. apply Z.pow_pos_nonneg; lia. Qed.

Lemma log2_bounds a : 0 < a -> 2 ^ Z.log2 a <= a < 2 ^ (Z.log2 a + 1).
Proof. intros H. pose proof (Z.log2_spec a H). lia. Qed.

Lemma SFval_nonneg f : 0 <= SFval f.
Proof.
  destruct f as [s|s| |s m e]; unfold SFval; try lia. destruct s; lia.
Qed.

Lemma SFval_finite_pos m e : -1074 <= e -> 0 < SFval (S754_finite false m e).
Proof. intros H. unfold SFval. apply Z.mul_pos_pos; [lia|]. apply pow2_pos. lia. Qed.



Lemma val_lt_of_exp s1 m1 e1 s2 m2 e2 :
  valid_binary (S754_finite s1 m1 e1) = true ->
  valid_binary (S754_finite s2 m2 e2) = true ->
  e1 < e2 -> Zpos m1 * 2 ^ (e1 + 1074) < Zpos m2 * 2 ^ (e2 + 1074).
Proof.
  intros H1 H2 He.
  destruct (valid_finite _ _ _ H1) as (He1 & Hl1 & _).
  destruct (valid_finite _ _ _ H2) as (He2 & _ & Hn2).
  specialize (Hn2 ltac:(lia)).
  pose proof (log2_bounds (Zpos m1) ltac:(lia)) as [_ Hb1].
  pose proof (log2_bounds (Zpos m2) ltac:(lia)) as [Hb2 _].
  rewrite Hn2 in Hb2.
  assert (2 ^ (Z.log2 (Zpos m1) + 1) <= 2 ^ 53) as Hp by (apply Z.pow_le_mono_r; lia).
  assert (0 < 2 ^ (e1 + 1074)) as Hq1 by (apply pow2_pos; lia).
  assert (2 ^ (e2 + 1074) = 2 ^ (e2 - e1 - 1) * 2 * 2 ^ (e1 + 1074)) as ->.
  { replace (e2 + 1074) with ((e2 - e1 - 1) + 1 + (e1 + 1074)) by lia.
    rewrite !Z.pow_add_r by lia. reflexivity. }
  assert (0 < 2 ^ (e2 - e1 - 1)) as Hq2 by (apply pow2_pos; lia).
  change (2 ^ 53) with (2 * 2 ^ 52) in Hp.
  assert (Zpos m1 < 2 ^ (e2 - e1 - 1) * 2 * Zpos m2) as Hlt.
  { apply Z.lt_le_trans with (1 * 2 * Zpos m2); [lia|].
    apply Z.mul_le_mono_nonneg_r; [lia|]. apply Z.mul_le_mono_nonneg_r; lia. }
  replace (Zpos m2 * (2 ^ (e2 - e1 - 1) * 2 * 2 ^ (e1 + 1074)))
    with (2 ^ (e2 - e1 - 1) * 2 * Zpos m2 * 2 ^ (e1 + 1074)) by ring.
  apply Z.mul_lt_mono_pos_r; auto.
Qed.

(** On valid non-negative numbers the order of the keys is the order of the
    values. *)
Lemma key_val_lt f1 f2 k1 k2 :
  valid_binary f1 = true -> valid_binary f2 = true -> SFnn f1 -> SFnn f2 ->
  SFkey f1 = Some k1 -> SFkey f2 = Some k2 ->
  (lexlt k1 k2 <-> SFval f1 < SFval f2) /\ (lexeq k1 k2 <-> SFval f1 = SFval f2).
Proof.
  intros V1 V2 N1 N2 K1 K2.
  destruct f1 as [s1|s1| |s1 m1 e1]; try destruct N1;
    destruct f2 as [s2|s2| |s2 m2 e2]; try destruct N2.
  - injection K1 as <-. injection K2 as <-. unfold lexlt, lexeq, SFval. cbn [fst snd]. lia.
  - destruct s2; [destruct N2|]. injection K1 as <-. injection K2 as <-.
    pose proof (SFval_finite_pos m2 e2 ltac:(destruct (valid_finite _ _ _ V2); lia)).
    unfold lexlt, lexeq. cbn [fst snd]. unfold SFval at 1 3. lia.
  - destruct s1; [destruct N1|]. injection K1 as <-. injection K2 as <-.
    pose proof (SFval_finite_pos m1 e1 ltac:(destruct (valid_finite _ _ _ V1); lia)).
    unfold lexlt, lexeq. cbn [fst snd]. unfold SFval at 2 4. lia.
  - destruct s1; [destruct N1|]. destruct s2; [destruct N2|].
    injection K1 as <-. injection K2 as <-.
    unfold lexlt, lexeq. cbn [fst snd]. unfold SFval.
    destruct (Z.lt_trichotomy e1 e2) as [He|[He|He]].
    + pose proof (val_lt_of_exp _ _ _ _ _ _ V1 V2 He). lia.
    + subst e2.
      assert (0 < 2 ^ (e1 + 1074))
        by (apply pow2_pos; destruct (valid_finite _ _ _ V1); lia).
      nia.
    + pose proof (val_lt_of_exp _ _ _ _ _ _ V2 V1 He). lia.
Qed.

(** *** Shifting right with round and sticky bits *)



















(** *** The sum of a group of merged intervals *)

Lemma gran_pos N : 0 < gran N.
Proof. apply pow2_pos. lia. Qed.



Lemma multiples_gap g x y : 0 < g -> x mod g = 0 -> y mod g = 0 -> x < y -> x + g <= y.
Proof.
  intros Hg Hx Hy Hlt.
  apply Z.mod_divide in Hx; [|lia]. apply Z.mod_divide in Hy; [|lia].
  destruct Hx as [c ->], Hy as [c' ->]. assert (c < c') by nia. nia.
Qed.

Lemma rounds_rep N r : N mod gran N = 0 -> rounds N r -> r = N.
Proof.
  intros HN [Hr Hd]. pose proof (gran_pos N) as Hg.
  destruct (Z.lt_trichotomy r N) as [H|[H|H]]; auto.
  - pose proof (multiples_gap _ _ _ Hg Hr HN H). lia.
  - pose proof (multiples_gap _ _ _ Hg HN Hr H). lia.
Qed.



(** *** Doubles between 0 and 1 *)

Lemma nonneg_key x : nonneg x -> exists k, key x = Some k.
Proof.
  unfold nonneg, key. destruct (Prim2SF x) as [s|s| |s m e]; simpl; try tauto; eauto.
Qed.

Lemma lt_val x y : nonneg x -> nonneg y -> Dbl.lt x y = (dval x <? dval y).
Proof.
  intros Nx Ny. unfold Dbl.lt. rewrite ltb_key.
  destruct (nonneg_key x Nx) as [kx Kx], (nonneg_key y Ny) as [ky Ky].
  rewrite Kx, Ky. cbn [okey_ltb].
  destruct (key_val_lt _ _ _ _ (Prim2SF_valid x) (Prim2SF_valid y) Nx Ny Kx Ky) as [Hlt _].
  unfold dval. destruct (Z.ltb_spec (SFval (Prim2SF x)) (SFval (Prim2SF y))).
  - apply key_ltb_true. tauto.
  - apply key_ltb_false. rewrite Hlt. lia.
Qed.

Lemma le_val x y : nonneg x -> nonneg y -> Dbl.le x y = (dval x <=? dval y).
Proof.
  intros Nx Ny. unfold Dbl.le. rewrite leb_key.
  destruct (nonneg_key x Nx) as [kx Kx], (nonneg_key y Ny) as [ky Ky].
  rewrite Kx, Ky. cbn [okey_leb].
  destruct (key_val_lt _ _ _ _ (Prim2SF_valid x) (Prim2SF_valid y) Nx Ny Kx Ky) as [Hlt Heq].
  unfold dval. destruct (Z.leb_spec (SFval (Prim2SF x)) (SFval (Prim2SF y))).
  - apply orb_true_iff. rewrite key_ltb_true, key_eqb_true, Hlt, Heq. lia.
  - apply orb_false_iff. rewrite key_ltb_false, key_eqb_false, Hlt, Heq. lia.
Qed.

Lemma nan_not_nonneg x : Dbl.is_nan x = true -> ~ nonneg x.
Proof.
  intros H N. apply key_None_nan in H. destruct (nonneg_key x N). congruence.
Qed.



Lemma dval_zero : dval 0 = 0.
Proof. reflexivity. Qed.

Lemma dval_one : dval 1 = 2 ^ 1074.
Proof. vm_compute. reflexivity. Qed.

Lemma in_unit_zero : in_unit 0.
Proof. split; [exact I|]. rewrite dval_zero. apply Z.pow_nonneg. lia. Qed.

Lemma in_unit_one : in_unit 1.
Proof. split; [exact I|]. rewrite dval_one. lia. Qed.

Lemma dval_nonneg x : 0 <= dval x.
Proof. apply SFval_nonneg. Qed.

Lemma in_unit_range x : in_unit x -> Dbl.le 0 x = true /\ Dbl.le x 1 = true.
Proof.
  intros [N H]. rewrite !le_val; auto; try exact I.
  rewrite dval_zero, dval_one. pose proof (dval_nonneg x). split; apply Z.leb_le; lia.
Qed.

(** [my::clamp (x, 0, 1)] is NaN or in [0, 1]. *)
Lemma clamp_clamped x : clamped (Dbl.clamp x 0 1).
Proof.
  unfold Dbl.clamp.
  destruct (PrimFloat.ltb 1 x) eqn:H1; [right; apply in_unit_one|].
  destruct (PrimFloat.ltb x 0) eqn:H0; [right; apply in_unit_zero|].
  destruct (Dbl.is_nan x) eqn:En; [left; exact En|]. right.
  assert (nonneg x) as N.
  { rewrite ltb_spec in H1, H0. unfold nonneg.
    assert (key x <> None) as Hk by (rewrite key_None_nan; congruence).
    unfold key in Hk.
    destruct (Prim2SF x) as [s|s| |s m e]; try exact I;
      try (exfalso; apply Hk; reflexivity);
      destruct s; try exact I;
      try (vm_compute in H0; discriminate); vm_compute in H1; discriminate. }
  split; [exact N|].
  change (PrimFloat.ltb 1 x) with (Dbl.lt 1 x) in H1.
  rewrite lt_val in H1; [|exact I|exact N].
  rewrite dval_one in H1. apply Z.ltb_ge in H1. exact H1.
Qed.






(** *** The merge of the intervals *)
















Section CoverageFacts.
Context {geo : Geometry}.




End CoverageFacts.

(** The coverage of [AB] by the single fake edge from [P] to [Q]. *)
Lemma GetCoverage_fakeOnly :
  GetCoverage (geo := Plane.geometry) 1 (routing.GetPoint Plane.A)
    (routing.GetPoint Plane.B) Plane.fakeOnly = Ok 0.875%float.
Proof. vm_compute. reflexivity. Qed.

(** * Further properties of router.cpp *)

(** ** The order of the search vertices *)

Lemma strict_lex {T : Type} (ne1 lt1 ne2 lt2 ne lt : T -> T -> bool) :
  strict_component ne1 lt1 -> strict_component ne2 lt2 ->
  (forall a b, ne a b = ne1 a b || ne2 a b) ->
  (forall a b, lt a b = if ne1 a b then lt1 a b else lt2 a b) ->
  strict_component ne lt.
Proof.
  intros (T1 & E1 & L1 & R1 & N1 & A1) (T2 & E2 & L2 & R2 & N2 & A2) Hne Hlt.
  repeat split.
  - intros a b c. rewrite !Hlt.
    destruct (ne1 a b) eqn:Hab, (ne1 b c) eqn:Hbc; intros H1 H2.
    + rewrite (N1 _ _ (T1 _ _ _ H1 H2)). eauto.
    + rewrite (N1 _ _ (L1 _ _ _ H1 Hbc)). eauto.
    + rewrite (N1 _ _ (R1 _ _ _ Hab H2)). eauto.
    + rewrite (E1 _ _ _ Hab Hbc). eauto.
  - intros a b c. rewrite !Hne, !orb_false_iff. intros [H1 H2] [H3 H4]. eauto.
  - intros a b c. rewrite !Hlt, Hne, orb_false_iff. intros H1 [H2 H3].
    destruct (ne1 a b) eqn:Hab.
    + rewrite (N1 _ _ (L1 _ _ _ H1 H2)). eauto.
    + rewrite (E1 _ _ _ Hab H2). eauto.
  - intros a b c. rewrite !Hlt, Hne, orb_false_iff. intros [H1 H2] H3.
    destruct (ne1 b c) eqn:Hbc.
    + rewrite (N1 _ _ (R1 _ _ _ H1 H3)). eauto.
    + rewrite (E1 _ _ _ H1 Hbc). eauto.
  - intros a b. rewrite Hlt, Hne. destruct (ne1 a b); simpl; auto.
  - intros a b. rewrite !Hlt. destruct (ne1 a b) eqn:Hab; intros H.
    + destruct (ne1 b a) eqn:Hba; [apply A1; auto|].
      (* [b] and [a] do not differ, so [a < a] would follow *)
      pose proof (L1 _ _ _ H Hba) as Haa. pose proof (A1 _ _ Haa). congruence.
    + destruct (ne1 b a) eqn:Hba; [|apply A2; auto].
      destruct (lt1 b a) eqn:Hl; auto.
      pose proof (L1 _ _ _ Hl Hab) as Hbb. pose proof (A1 _ _ Hbb). congruence.
Qed.

Lemma strict_on {T U : Type} (f : T -> U) (ne lt : U -> U -> bool) :
  strict_component ne lt ->
  strict_component (fun a b => ne (f a) (f b)) (fun a b => lt (f a) (f b)).
Proof. intros (H1 & H2 & H3 & H4 & H5 & H6). repeat split; eauto. Qed.

Lemma strict_dbl : strict_component Dbl.ne Dbl.lt.
Proof. repeat split; intros; dbl_order. Qed.

Lemma strict_Z : strict_component (fun a b => negb (a =? b)) Z.ltb.
Proof.
  repeat split; intros *;
    rewrite ?negb_false_iff, ?negb_true_iff, ?Z.ltb_lt, ?Z.eqb_eq, ?Z.eqb_neq, ?Z.ltb_ge; lia.
Qed.

Lemma strict_nat : strict_component (fun a b => negb (a =? b)%nat) Nat.ltb.
Proof.
  repeat split; intros *;
    rewrite ?negb_false_iff, ?negb_true_iff, ?Nat.ltb_lt, ?Nat.eqb_eq, ?Nat.eqb_neq,
      ?Nat.ltb_ge; lia.
Qed.

Lemma strict_bool : strict_component (fun a b => negb (Bool.eqb a b)) bool_ltb.
Proof.
  split; [|split; [|split; [|split; [|split]]]].
  1-4: intros [] [] []; cbv; intros; congruence.
  all: intros [] []; cbv; intros; congruence.
Qed.

Lemma strict_point : strict_component m2.neb m2.ltb.
Proof.
  apply (strict_lex (fun a b => Dbl.ne (m2.x a) (m2.x b)) (fun a b => Dbl.lt (m2.x a) (m2.x b))
                    (fun a b => Dbl.ne (m2.y a) (m2.y b)) (fun a b => Dbl.lt (m2.y a) (m2.y b))).
  - exact (strict_on m2.x _ _ strict_dbl).
  - exact (strict_on m2.y _ _ strict_dbl).
  - intros a b. unfold m2.neb, m2.eqb, Dbl.ne, Dbl.eq. apply negb_andb.
  - reflexivity.
Qed.

Lemma strict_junction : strict_component routing.Junction_neb routing.Junction_ltb.
Proof.
  apply (strict_lex (fun a b => m2.neb (routing.GetPoint a) (routing.GetPoint b))
                    (fun a b => m2.ltb (routing.GetPoint a) (routing.GetPoint b))
                    (fun a b => negb (routing.GetAltitude a =? routing.GetAltitude b))
                    (fun a b => routing.GetAltitude a <? routing.GetAltitude b)).
  - exact (strict_on routing.GetPoint _ _ strict_point).
  - exact (strict_on routing.GetAltitude _ _ strict_Z).
  - intros a b. unfold routing.Junction_neb, routing.Junction_eqb, m2.neb. apply negb_andb.
  - reflexivity.
Qed.

(** The five components of a vertex, combined from the last one up. *)
Lemma strict_vertex : strict_component Vertex_neb Vertex_ltb.
Proof.
  pose proof (strict_on m_junction _ _ strict_junction) as S1.
  pose proof (strict_on m_stageStart _ _ strict_junction) as S2.
  pose proof (strict_on m_stageStartDistance _ _ strict_dbl) as S3.
  pose proof (strict_on m_stage _ _ strict_nat) as S4.
  pose proof (strict_on m_bearingChecked _ _ strict_bool) as S5.
  pose proof (strict_lex _ _ _ _ _ _ S4 S5 (fun a b => eq_refl) (fun a b => eq_refl)) as S45.
  pose proof (strict_lex _ _ _ _ _ _ S3 S45 (fun a b => eq_refl) (fun a b => eq_refl)) as S345.
  pose proof (strict_lex _ _ _ _ _ _ S2 S345 (fun a b => eq_refl) (fun a b => eq_refl)) as S2345.
  apply (strict_lex _ _ _ _ Vertex_neb Vertex_ltb S1 S2345).
  - intros a b. unfold Vertex_neb, Vertex_eqb, routing.Junction_neb, Dbl.ne.
    rewrite !negb_andb, !orb_assoc. reflexivity.
  - reflexivity.
Qed.

(** X1.  [Vertex::operator<] is a strict order, whatever the doubles in the
    vertices (NaN included): nothing is less than itself, the order is
    asymmetric and transitive, and two vertices one of which is less than the
    other are not [==]. *)
Theorem Vertex_order_strict :
  (forall a, Vertex_ltb a a = false)
  /\ (forall a b, Vertex_ltb a b = true -> Vertex_ltb b a = false)
  /\ (forall a b c, Vertex_ltb a b = true -> Vertex_ltb b c = true -> Vertex_ltb a c = true)
  /\ (forall a b, Vertex_ltb a b = true -> Vertex_eqb a b = false).
Proof.
  destruct strict_vertex as (T & _ & _ & _ & N & A).
  split; [|split; [exact A|split; [exact T|]]].
  - intros a. destruct (Vertex_ltb a a) eqn:E; auto. pose proof (A _ _ E). congruence.
  - intros a b H. apply N in H. unfold Vertex_neb in H. apply negb_true_iff in H. exact H.
Qed.

Lemma total_lex {T : Type} (ok1 ok2 ok : T -> Prop) (ne1 lt1 ne2 lt2 ne lt : T -> T -> bool) :
  strict_component ne1 lt1 ->
  total_on ok1 ne1 lt1 -> total_on ok2 ne2 lt2 ->
  (forall a, ok a -> ok1 a /\ ok2 a) ->
  (forall a b, ne a b = ne1 a b || ne2 a b) ->
  (forall a b, lt a b = if ne1 a b then lt1 a b else lt2 a b) ->
  total_on ok ne lt.
Proof.
  intros (_ & _ & _ & _ & N1 & _) [S1 T1] [S2 T2] Hok Hne Hlt. split.
  - intros a b. rewrite !Hne, (S1 a b), (S2 a b). reflexivity.
  - intros a b Ha Hb. rewrite Hne, !Hlt, (S1 b a).
    destruct (Hok a Ha) as [Ha1 Ha2]. destruct (Hok b Hb) as [Hb1 Hb2].
    destruct (ne1 a b) eqn:E; simpl; intros H.
    + apply T1; auto.
    + apply T2; auto.
Qed.

Lemma total_on_map {T U : Type} (f : T -> U) (ok : U -> Prop) (ne lt : U -> U -> bool) :
  total_on ok ne lt ->
  total_on (fun a => ok (f a)) (fun a b => ne (f a) (f b)) (fun a b => lt (f a) (f b)).
Proof. intros [H1 H2]. split; intros; auto. Qed.

Lemma total_dbl : total_on (fun x => Dbl.is_nan x = false) Dbl.ne Dbl.lt.
Proof.
  split.
  - intros a b. destruct (Dbl.ne a b) eqn:E; symmetry; dbl_order.
  - intros a b Ha Hb H. destruct (Dbl.lt a b) eqn:E; auto. right. dbl_order.
Qed.

Lemma total_Z : total_on (fun _ : Z => True) (fun a b => negb (a =? b)) Z.ltb.
Proof.
  split.
  - intros a b. rewrite (Z.eqb_sym a b). reflexivity.
  - intros a b _ _. rewrite negb_true_iff, Z.eqb_neq, !Z.ltb_lt. lia.
Qed.

Lemma total_nat : total_on (fun _ : nat => True) (fun a b => negb (a =? b)%nat) Nat.ltb.
Proof.
  split.
  - intros a b. rewrite (Nat.eqb_sym a b). reflexivity.
  - intros a b _ _. rewrite negb_true_iff, Nat.eqb_neq, !Nat.ltb_lt. lia.
Qed.

Lemma total_bool : total_on (fun _ : bool => True) (fun a b => negb (Bool.eqb a b)) bool_ltb.
Proof. split; intros [] []; cbv; auto. Qed.

Lemma total_point : total_on point_no_nan m2.neb m2.ltb.
Proof.
  apply (total_lex (fun p => Dbl.is_nan (m2.x p) = false) (fun p => Dbl.is_nan (m2.y p) = false)
                   point_no_nan
                   (fun a b => Dbl.ne (m2.x a) (m2.x b)) (fun a b => Dbl.lt (m2.x a) (m2.x b))
                   (fun a b => Dbl.ne (m2.y a) (m2.y b)) (fun a b => Dbl.lt (m2.y a) (m2.y b))).
  - exact (strict_on m2.x _ _ strict_dbl).
  - exact (total_on_map m2.x _ _ _ total_dbl).
  - exact (total_on_map m2.y _ _ _ total_dbl).
  - intros a H. exact H.
  - intros a b. unfold m2.neb, m2.eqb, Dbl.ne, Dbl.eq. apply negb_andb.
  - reflexivity.
Qed.

Lemma total_junction :
  total_on (fun j => point_no_nan (routing.GetPoint j)) routing.Junction_neb routing.Junction_ltb.
Proof.
  apply (total_lex (fun j => point_no_nan (routing.GetPoint j)) (fun _ => True) _
                   (fun a b => m2.neb (routing.GetPoint a) (routing.GetPoint b))
                   (fun a b => m2.ltb (routing.GetPoint a) (routing.GetPoint b))
                   (fun a b => negb (routing.GetAltitude a =? routing.GetAltitude b))
                   (fun a b => routing.GetAltitude a <? routing.GetAltitude b)).
  - exact (strict_on routing.GetPoint _ _ strict_point).
  - exact (total_on_map routing.GetPoint _ _ _ total_point).
  - exact (total_on_map routing.GetAltitude _ _ _ total_Z).
  - intros a H. split; [exact H|exact I].
  - intros a b. unfold routing.Junction_neb, routing.Junction_eqb, m2.neb. apply negb_andb.
  - reflexivity.
Qed.

Lemma total_vertex : total_on Vertex_no_nan Vertex_neb Vertex_ltb.
Proof.
  pose proof (strict_on m_junction _ _ strict_junction) as S1.
  pose proof (strict_on m_stageStart _ _ strict_junction) as S2.
  pose proof (strict_on m_stageStartDistance _ _ strict_dbl) as S3.
  pose proof (strict_on m_stage _ _ strict_nat) as S4.
  pose proof (total_on_map m_junction _ _ _ total_junction) as T1.
  pose proof (total_on_map m_stageStart _ _ _ total_junction) as T2.
  pose proof (total_on_map m_stageStartDistance _ _ _ total_dbl) as T3.
  pose proof (total_on_map m_stage _ _ _ total_nat) as T4.
  pose proof (total_on_map m_bearingChecked _ _ _ total_bool) as T5.
  pose proof (total_lex _ _ (fun _ => True) _ _ _ _ _ _ S4 T4 T5
                (fun a _ => conj I I) (fun a b => eq_refl) (fun a b => eq_refl)) as T45.
  pose proof (total_lex _ _ (fun v => Dbl.is_nan (m_stageStartDistance v) = false)
                _ _ _ _ _ _ S3 T3 T45
                (fun a H => conj H I) (fun a b => eq_refl) (fun a b => eq_refl)) as T345.
  pose proof (total_lex _ _ (fun v => point_no_nan (routing.GetPoint (m_stageStart v))
                                      /\ Dbl.is_nan (m_stageStartDistance v) = false)
                _ _ _ _ _ _ S2 T2 T345
                (fun a H => H) (fun a b => eq_refl) (fun a b => eq_refl)) as T2345.
  apply (total_lex _ _ Vertex_no_nan _ _ _ _ Vertex_neb Vertex_ltb S1 T1 T2345).
  - intros a H. exact H.
  - intros a b. unfold Vertex_neb, Vertex_eqb, routing.Junction_neb, Dbl.ne.
    rewrite !negb_andb, !orb_assoc. reflexivity.
  - reflexivity.
Qed.

(** X2.  On vertices without NaN the keys of [std::map<Vertex, _>] are the
    classes of [operator==]: neither of two vertices is less than the other
    exactly when they are [==]. *)
Theorem Vertex_equiv_eq (a b : Vertex) :
  Vertex_no_nan a -> Vertex_no_nan b ->
  (StdMap.equiv Vertex_ltb a b = true <-> Vertex_eqb a b = true).
Proof.
  intros Ha Hb. destruct strict_vertex as (_ & _ & _ & _ & N & _).
  destruct total_vertex as [Sy To]. unfold StdMap.equiv.
  rewrite andb_true_iff, !negb_true_iff. split.
  - intros [H1 H2]. destruct (Vertex_eqb a b) eqn:E; auto.
    destruct (To a b Ha Hb) as [H|H]; try congruence.
    unfold Vertex_neb. rewrite E. reflexivity.
  - intros E. split.
    + destruct (Vertex_ltb a b) eqn:H; auto. apply N in H. unfold Vertex_neb in H.
      rewrite E in H. discriminate.
    + destruct (Vertex_ltb b a) eqn:H; auto. apply N in H. rewrite <- Sy in H.
      unfold Vertex_neb in H. rewrite E in H. discriminate.
Qed.

(** X2 at two vertices that differ in the sign of a zero distance: they are
    [==] and the same map key. *)
Lemma Vertex_equiv_eq_witness :
  StdMap.equiv Vertex_ltb (MakeVertex Plane.A Plane.A 0%float 0 false)
                          (MakeVertex Plane.A Plane.A (-0)%float 0 false) = true
  <-> Vertex_eqb (MakeVertex Plane.A Plane.A 0%float 0 false)
                 (MakeVertex Plane.A Plane.A (-0)%float 0 false) = true.
Proof.
  apply Vertex_equiv_eq; repeat split; vm_compute; reflexivity.
Defined.

(** ** The edge caches and the enumeration of edges *)

Lemma for_each_map {A B S : Type} (f : A -> B) (fn : B -> S -> res S) l s :
  for_each (fun a s => fn (f a) s) l s = for_each fn (map f l) s.
Proof.
  revert s. induction l as [|a l IH]; intros s; simpl; [reflexivity|].
  destruct (fn (f a) s); simpl; auto.
Qed.

Lemma for_each_ext {A S : Type} (f g : A -> S -> res S) l s :
  (forall a s, f a s = g a s) -> for_each f l s = for_each g l s.
Proof.
  intros H. revert s. induction l as [|a l IH]; intros s; simpl; [reflexivity|].
  rewrite H. destruct (g a s); simpl; auto.
Qed.

Section EnumerationFacts.
Context {geo : Geometry} {G : Type} {graph : routing.RoadGraph G}.

(** X3.  The edge caches are filled on the first query of a junction and
    only read after that: asking again gives the same edges and changes
    nothing, a query leaves the graph and the cache of the other direction
    alone, and the junction asked about is cached afterwards. *)
Theorem GetEdges_cached (r : Router G) (u : routing.Junction) :
  (GetOutgoingEdges (snd (GetOutgoingEdges r u)) u = GetOutgoingEdges r u
   /\ m_graph (snd (GetOutgoingEdges r u)) = m_graph r
   /\ m_ingoingCache (snd (GetOutgoingEdges r u)) = m_ingoingCache r
   /\ StdMap.count routing.Junction_ltb (m_outgoingCache (snd (GetOutgoingEdges r u))) u = 1%nat)
  /\ (GetIngoingEdges (snd (GetIngoingEdges r u)) u = GetIngoingEdges r u
      /\ m_graph (snd (GetIngoingEdges r u)) = m_graph r
      /\ m_outgoingCache (snd (GetIngoingEdges r u)) = m_outgoingCache r
      /\ StdMap.count routing.Junction_ltb (m_ingoingCache (snd (GetIngoingEdges r u))) u = 1%nat).
Proof.
  split.
  - unfold GetOutgoingEdges, GetEdges.
    destruct (StdMap.find routing.Junction_ltb (m_outgoingCache r) u) as [es|] eqn:E;
      cbn [snd fst set_outgoingCache m_outgoingCache m_graph m_ingoingCache].
    + rewrite E. unfold StdMap.count. rewrite E. repeat split; reflexivity.
    + rewrite find_assign_same by apply Junction_ltb_irrefl.
      unfold StdMap.count. rewrite find_assign_same by apply Junction_ltb_irrefl.
      repeat split; reflexivity.
  - unfold GetIngoingEdges, GetEdges.
    destruct (StdMap.find routing.Junction_ltb (m_ingoingCache r) u) as [es|] eqn:E;
      cbn [snd fst set_ingoingCache m_outgoingCache m_graph m_ingoingCache].
    + rewrite E. unfold StdMap.count. rewrite E. repeat split; reflexivity.
    + rewrite find_assign_same by apply Junction_ltb_irrefl.
      unfold StdMap.count. rewrite find_assign_same by apply Junction_ltb_irrefl.
      repeat split; reflexivity.
Qed.

(** X4.  A looser road-class restriction never rejects what a stricter one
    accepts: the edges [ForEachEdge] visits under [l1] are visited under any
    [l2] at least as large. *)
Theorem PassesRestriction_monotone (r : Router G) (l1 l2 : FunctionalRoadClass) :
  frc_to_int l1 <= frc_to_int l2 ->
  (forall e, PassesRestriction r e l1 = true -> PassesRestriction r e l2 = true)
  /\ forall es, incl (filter (fun e => PassesRestriction r e l1) es)
                     (filter (fun e => PassesRestriction r e l2) es).
Proof.
  intros Hle.
  assert (forall e, PassesRestriction r e l1 = true -> PassesRestriction r e l2 = true) as H.
  { intros e. rewrite !PassesRestriction_iff. intros [Hf|[Hf Hc]]; [left; auto|right].
    split; auto. lia. }
  split; [exact H|].
  intros es e He. apply filter_In in He. apply filter_In. destruct He; auto.
Qed.

Lemma ForEachNonFakeEdge_eq (S : Type) (r : Router G) u outgoing lfrcnp
    (fn : routing.Edge -> S -> res S) s :
  ForEachNonFakeEdge r u outgoing lfrcnp fn s =
  (s' <- for_each fn
           (filter (fun e => negb (routing.IsFake e))
                   (filter (fun e => PassesRestriction r e lfrcnp)
                           (fst (edgesAt r u outgoing)))) s ;;
   Ok (snd (edgesAt r u outgoing), s')).
Proof.
  unfold ForEachNonFakeEdge. rewrite ForEachEdge_eq.
  rewrite (for_each_when (fun c => negb (routing.IsFake c)) fn). reflexivity.
Qed.

(** X5.  [ForEachNonFakeEdge] runs its callback exactly on the edges at the
    vertex that pass the restriction and are not fake, in their order;
    whatever the callback, it never sees a fake edge. *)
Theorem ForEachNonFakeEdge_filter :
  (forall (S : Type) (r : Router G) u outgoing lfrcnp (fn : routing.Edge -> S -> res S) s,
      ForEachNonFakeEdge r u outgoing lfrcnp fn s =
      (s' <- for_each fn
               (filter (fun e => negb (routing.IsFake e))
                       (filter (fun e => PassesRestriction r e lfrcnp)
                               (fst (edgesAt r u outgoing)))) s ;;
       Ok (snd (edgesAt r u outgoing), s')))
  /\ (forall (r : Router G) u outgoing lfrcnp,
         exists called,
           ForEachNonFakeEdge r u outgoing lfrcnp (fun e tr => Ok (tr ++ [e])) []
           = Ok (snd (edgesAt r u outgoing), called)
           /\ Forall (fun e => routing.IsFake e = false
                               /\ PassesRestriction r e lfrcnp = true) called).
Proof.
  split; [exact ForEachNonFakeEdge_eq|].
  intros r u outgoing lfrcnp. eexists. rewrite ForEachNonFakeEdge_eq, for_each_record. simpl.
  split; [reflexivity|].
  apply Forall_forall. intros e He. apply filter_In in He. destruct He as [He Hf].
  apply filter_In in He. destruct He as [_ Hp]. apply negb_true_iff in Hf. auto.
Qed.

Lemma ForEachNonFakeClosestEdge_eq (S : Type) (r : Router G) u lfrcnp
    (fn : routing.Edge -> S -> res S) s :
  ForEachNonFakeClosestEdge r u lfrcnp fn s =
  for_each fn
    (filter (fun e => PassesRestriction r e lfrcnp)
            (filter (fun e => negb (routing.IsFake e))
                    (map fst (routing.FindClosestEdges
                                (m_graph r) (routing.GetPoint (m_junction u))
                                kMaxRoadCandidates)))) s.
Proof.
  unfold ForEachNonFakeClosestEdge, kMaxRoadCandidates.
  rewrite (for_each_map fst
             (fun edge s0 => if routing.IsFake edge then Ok s0
                             else if negb (PassesRestriction r edge lfrcnp) then Ok s0
                                  else fn edge s0)).
  rewrite <- (for_each_filter (fun e => PassesRestriction r e lfrcnp) fn).
  rewrite <- (for_each_when (fun e => negb (routing.IsFake e))).
  apply for_each_ext. intros e s0. destruct (routing.IsFake e); reflexivity.
Qed.

(** X6.  [ForEachNonFakeClosestEdge] runs its callback exactly on the edges
    the nearest-edge query returns around the vertex (at most
    [kMaxRoadCandidates] are asked for) that are not fake and pass the
    restriction, in their order; the edge caches play no part. *)
Theorem ForEachNonFakeClosestEdge_filter :
  (forall (S : Type) (r : Router G) u lfrcnp (fn : routing.Edge -> S -> res S) s,
      ForEachNonFakeClosestEdge r u lfrcnp fn s =
      for_each fn
        (filter (fun e => PassesRestriction r e lfrcnp)
                (filter (fun e => negb (routing.IsFake e))
                        (map fst (routing.FindClosestEdges
                                    (m_graph r) (routing.GetPoint (m_junction u))
                                kMaxRoadCandidates)))) s)
  /\ (forall (r : Router G) u lfrcnp,
         exists called,
           ForEachNonFakeClosestEdge r u lfrcnp (fun e tr => Ok (tr ++ [e])) [] = Ok called
           /\ Forall (fun e => routing.IsFake e = false
                               /\ PassesRestriction r e lfrcnp = true) called).
Proof.
  split; [exact ForEachNonFakeClosestEdge_eq|].
  intros r u lfrcnp. eexists. rewrite ForEachNonFakeClosestEdge_eq, for_each_record. simpl.
  split; [reflexivity|].
  apply Forall_forall. intros e He. apply filter_In in He. destruct He as [He Hp].
  apply filter_In in He. destruct He as [_ Hf]. apply negb_true_iff in Hf. auto.
Qed.

End EnumerationFacts.

(** ** The first part of the reconstruction *)

Section TrimFacts.
Context {geo : Geometry} {G : Type} {graph : routing.RoadGraph G}.

Lemma FindPrefixLengthToConsume_range ps : forall lengthM n,
  (n <= FindPrefixLengthToConsume ps lengthM n <= n + length ps)%nat.
Proof.
  induction ps as [|[u v] ps IH]; intros lengthM n; simpl; [lia|].
  destruct (negb (Dbl.gt lengthM 0)); [lia|].
  destruct (Dbl.lt (2 * lengthM) (DistanceOnEarth u v)); [lia|].
  specialize (IH (lengthM - DistanceOnEarth u v)%float (S n)). lia.
Qed.

Lemma FindPrefixLengthToConsume_zero ps lengthM :
  Dbl.gt lengthM 0 = false -> FindPrefixLengthToConsume ps lengthM 0 = 0%nat.
Proof. intros H. destruct ps as [|[u v] ps]; simpl; [reflexivity|]. rewrite H. reflexivity. Qed.

(** X7.  [FindPrefixLengthToConsume] counts at most the pairs of its range;
    it consumes nothing when the length is not positive (zero, negative or
    NaN), and nothing when the first pair is longer than twice the length. *)
Theorem FindPrefixLengthToConsume_bound (ps : list (m2.PointD * m2.PointD)) (lengthM : double) :
  (FindPrefixLengthToConsume ps lengthM 0 <= length ps)%nat
  /\ (Dbl.gt lengthM 0 = false -> FindPrefixLengthToConsume ps lengthM 0 = 0%nat)
  /\ (forall u v ps', ps = (u, v) :: ps' ->
                      Dbl.lt (2 * lengthM) (DistanceOnEarth u v) = true ->
                      FindPrefixLengthToConsume ps lengthM 0 = 0%nat).
Proof.
  split; [|split].
  - pose proof (FindPrefixLengthToConsume_range ps lengthM 0). lia.
  - apply FindPrefixLengthToConsume_zero.
  - intros u v ps' -> H. simpl. rewrite H. destruct (negb (Dbl.gt lengthM 0)); reflexivity.
Qed.

Lemma trimEdges_eq (r : Router G) edges :
  let es0 := filter (fun e => negb (IsSpecial e)) edges in
  let n1 := FindPrefixLengthToConsume (map ToPair es0) (m_positiveOffsetM r) 0 in
  let es1 := skipn n1 es0 in
  let n2 := FindPrefixLengthToConsume (map ToPairRev (rev es1)) (m_negativeOffsetM r) 0 in
  trimEdges r edges = Ok (firstn (length es1 - n2) es1)
  /\ (n1 <= length es0)%nat /\ (n2 <= length es1)%nat.
Proof.
  intros es0 n1 es1 n2.
  assert (n1 <= length es0)%nat as H1.
  { pose proof (FindPrefixLengthToConsume_range (map ToPair es0) (m_positiveOffsetM r) 0) as H.
    rewrite length_map in H. subst n1. lia. }
  assert (n2 <= length es1)%nat as H2.
  { pose proof (FindPrefixLengthToConsume_range (map ToPairRev (rev es1))
                  (m_negativeOffsetM r) 0) as H.
    rewrite length_map, length_rev in H. subst n2. lia. }
  split; [|split; assumption].
  unfold trimEdges. fold es0. fold n1.
  replace (n1 <=? length es0)%nat with true by (symmetry; apply Nat.leb_le; exact H1).
  cbn [CHECK bind]. fold es1. fold n2.
  replace (n2 <=? length es1)%nat with true by (symmetry; apply Nat.leb_le; exact H2).
  reflexivity.
Qed.

(** X8.  The first part of [ReconstructPath] never fails (its two CHECKs on
    the consumed lengths always hold).  What is left is a contiguous run of
    the non-special edges, in their order; it holds no special edge; and an
    offset that is not positive consumes nothing at its end. *)
Theorem trimEdges_infix (r : Router G) (edges : list Edge) :
  exists es pre post,
    trimEdges r edges = Ok es
    /\ filter (fun e => negb (IsSpecial e)) edges = pre ++ es ++ post
    /\ Forall (fun e => IsSpecial e = false) es
    /\ (Dbl.gt (m_positiveOffsetM r) 0 = false -> pre = [])
    /\ (Dbl.gt (m_negativeOffsetM r) 0 = false -> post = []).
Proof.
  destruct (trimEdges_eq r edges) as (Heq & H1 & H2).
  set (es0 := filter (fun e => negb (IsSpecial e)) edges) in *.
  set (n1 := FindPrefixLengthToConsume (map ToPair es0) (m_positiveOffsetM r) 0) in *.
  set (es1 := skipn n1 es0) in *.
  set (n2 := FindPrefixLengthToConsume (map ToPairRev (rev es1)) (m_negativeOffsetM r) 0) in *.
  exists (firstn (length es1 - n2) es1), (firstn n1 es0), (skipn (length es1 - n2) es1).
  split; [exact Heq|]. split; [|split; [|split]].
  - rewrite firstn_skipn. unfold es1. rewrite firstn_skipn. reflexivity.
  - apply Forall_forall. intros e He.
    assert (In e es0) as Hin.
    { rewrite <- (firstn_skipn n1 es0). apply in_or_app. right. fold es1.
      rewrite <- (firstn_skipn (length es1 - n2) es1). apply in_or_app. left. exact He. }
    apply filter_In in Hin. destruct Hin as [_ Hs]. apply negb_true_iff in Hs. exact Hs.
  - intros H. unfold n1. rewrite FindPrefixLengthToConsume_zero by exact H. reflexivity.
  - intros H. unfold n2. rewrite FindPrefixLengthToConsume_zero by exact H.
    rewrite Nat.sub_0_r. apply skipn_all.
Qed.

Lemma ForStagePrefix_none es stage : forall acc,
  ForStagePrefix es stage acc = None ->
  Forall (fun b => IsFake b = true /\ m_stage (m_u b) = stage /\ m_stage (m_v b) = stage) es
  \/ exists pre b rest,
      es = pre ++ b :: rest
      /\ Forall (fun b => IsFake b = true /\ m_stage (m_u b) = stage /\ m_stage (m_v b) = stage)
                pre
      /\ IsFake b = true /\ (m_stage (m_u b) <> stage \/ m_stage (m_v b) <> stage).
Proof.
  induction es as [|b es IH]; intros acc H; simpl in H; [left; constructor|].
  destruct (routing.IsFake (m_raw b)) eqn:Ef; cbn [andb negb] in H.
  - destruct ((m_stage (m_u b) =? stage)%nat) eqn:E1; cbn [andb] in H.
    + destruct ((m_stage (m_v b) =? stage)%nat) eqn:E2.
      * apply Nat.eqb_eq in E1, E2.
        destruct (IH _ H) as [Hall|(pre & c & rest & -> & Hpre & Hc)].
        -- left. constructor; auto.
        -- right. exists (b :: pre), c, rest. split; [reflexivity|]. split; auto.
      * apply Nat.eqb_neq in E2. right. exists [], b, es. repeat split; auto.
    + apply Nat.eqb_neq in E1. right. exists [], b, es. repeat split; auto.
  - discriminate.
Qed.

(** X9.  [ForStagePrefix] calls its callback at most once: on the first
    edge that is not a fake edge of the stage, when that edge is not fake.
    It calls nothing when every edge is a fake edge of the stage or when the
    first edge that is not one is a fake edge of another stage. *)
Theorem ForStagePrefix_spec (es : list Edge) (stage : nat) :
  match ForStagePrefix es stage [] with
  | Some (skipped, e) =>
      exists rest,
        es = skipped ++ e :: rest /\ IsFake e = false
        /\ Forall (fun b => IsFake b = true /\ m_stage (m_u b) = stage
                            /\ m_stage (m_v b) = stage) skipped
  | None =>
      Forall (fun b => IsFake b = true /\ m_stage (m_u b) = stage /\ m_stage (m_v b) = stage) es
      \/ exists pre b rest,
          es = pre ++ b :: rest
          /\ Forall (fun b => IsFake b = true /\ m_stage (m_u b) = stage
                              /\ m_stage (m_v b) = stage) pre
          /\ IsFake b = true /\ (m_stage (m_u b) <> stage \/ m_stage (m_v b) <> stage)
  end.
Proof.
  destruct (ForStagePrefix es stage []) as [[skipped e]|] eqn:E.
  - destruct (ForStagePrefix_some _ _ _ _ _ E) as (pre & rest & Hes & Hsk & Hf & Hall).
    simpl in Hsk. subst skipped. eauto.
  - apply (ForStagePrefix_none _ _ _ E).
Qed.

End TrimFacts.

(** ** Matching scores *)

Lemma clamped_bounds x :
  clamped x ->
  Dbl.lt x 0 = false /\ Dbl.gt x 1 = false
  /\ (Dbl.is_nan x = false -> Dbl.le 0 x = true /\ Dbl.le x 1 = true).
Proof.
  intros [Hn|Hu].
  - split; [|split]; try congruence; dbl_order.
  - destruct (in_unit_range x Hu) as [H0 H1].
    split; [|split]; auto; dbl_order.
Qed.

(** Zero divided by a number that is neither zero nor NaN is a zero. *)
Lemma zero_div len :
  Dbl.is_nan len = false -> Dbl.eq len 0 = false ->
  exists s, Prim2SF (0 / len) = S754_zero s.
Proof.
  intros Hn Hz. rewrite div_spec.
  assert (key len <> None) as Hk by (rewrite key_None_nan; congruence).
  unfold Dbl.eq in Hz. rewrite eqb_spec in Hz. unfold key in Hk.
  change (Prim2SF 0) with (S754_zero false) in *.
  destruct (Prim2SF len) as [s|s| |s m e]; simpl in *; try congruence; eauto.
  destruct s; discriminate.
Qed.

Section MatchingFacts.
Context {geo : Geometry}.

(** X10.  A matching score is NaN or lies between 0 and 1: it is never
    below 0 and never above 1.  Against an empty range the score is zero,
    unless the length of the candidate is NaN. *)
Theorem GetMatchingScore_range (u v : m2.PointD) (ps : list (m2.PointD * m2.PointD)) :
  Dbl.lt (GetMatchingScore u v ps) 0 = false
  /\ Dbl.gt (GetMatchingScore u v ps) 1 = false
  /\ (Dbl.is_nan (GetMatchingScore u v ps) = false ->
      Dbl.le 0 (GetMatchingScore u v ps) = true /\ Dbl.le (GetMatchingScore u v ps) 1 = true)
  /\ (Dbl.is_nan (DistanceOnEarth u v) = false -> Dbl.eq (GetMatchingScore u v []) 0 = true).
Proof.
  assert (forall qs, clamped (GetMatchingScore u v qs)) as Hc.
  { intros qs. unfold GetMatchingScore.
    destruct (Dbl.eq (DistanceOnEarth u v) 0); [right; apply in_unit_zero|apply clamp_clamped]. }
  destruct (clamped_bounds _ (Hc ps)) as (H1 & H2 & H3).
  split; [exact H1|]. split; [exact H2|]. split; [exact H3|].
  intros Hn. unfold GetMatchingScore. cbn [matching_cov].
  destruct (Dbl.eq (DistanceOnEarth u v) 0) eqn:Ez; [reflexivity|].
  destruct (zero_div _ Hn Ez) as [s Hs].
  unfold Dbl.clamp, Dbl.eq. rewrite !ltb_spec, Hs.
  destruct s; cbn; rewrite eqb_spec, Hs; reflexivity.
Qed.

End MatchingFacts.

(** ** Potentials *)

Lemma min_step init d :
  Dbl.is_nan init = false ->
  Dbl.is_nan (Dbl.min init d) = false
  /\ Dbl.gt (Dbl.min init d) init = false
  /\ Dbl.lt d (Dbl.min init d) = false
  /\ (Dbl.min init d = init \/ Dbl.min init d = d).
Proof.
  intros Hn. unfold Dbl.min. destruct (PrimFloat.ltb d init) eqn:E.
  - repeat split; auto; dbl_order.
  - repeat split; auto; dbl_order.
Qed.

Lemma dbl_bound_trans d r m init :
  Dbl.is_nan r = false -> Dbl.is_nan m = false ->
  Dbl.gt r m = false -> Dbl.lt d m = false -> Dbl.gt m init = false ->
  Dbl.lt d r = false /\ Dbl.gt r init = false.
Proof. intros. split; dbl_order. Qed.

(** The running minimum of [GetPotential]. *)
Lemma fold_min_spec {A : Type} (f : A -> double) (l : list A) : forall init,
  Dbl.is_nan init = false ->
  Dbl.is_nan (fold_left (fun p a => Dbl.min p (f a)) l init) = false
  /\ Dbl.gt (fold_left (fun p a => Dbl.min p (f a)) l init) init = false
  /\ (forall a, In a l -> Dbl.lt (f a) (fold_left (fun p a => Dbl.min p (f a)) l init) = false)
  /\ (fold_left (fun p a => Dbl.min p (f a)) l init = init
      \/ exists a, In a l /\ fold_left (fun p a => Dbl.min p (f a)) l init = f a).
Proof.
  induction l as [|a l IH]; intros init Hn; simpl.
  - split; [exact Hn|]. split; [dbl_order|]. split; [tauto|auto].
  - destruct (min_step init (f a) Hn) as (M1 & M2 & M3 & M4).
    destruct (IH _ M1) as (I1 & I2 & I3 & I4).
    set (r := fold_left (fun p a => Dbl.min p (f a)) l (Dbl.min init (f a))) in *.
    destruct (dbl_bound_trans (f a) r (Dbl.min init (f a)) init I1 M1 I2 M3 M2) as [B1 B2].
    split; [exact I1|]. split; [exact B2|]. split.
    + intros b [<-|Hb]; auto.
    + destruct I4 as [I4|(b & Hb & I4)].
      * destruct M4 as [M4|M4]; rewrite I4, M4; eauto.
      * right. eauto.
Qed.

Section PotentialFacts.
Context {geo : Geometry} {G : Type} {graph : routing.RoadGraph G}.

(** X11.  [GetPotential] is zero on a final vertex.  On any other vertex it
    returns exactly when the vertex has a list of pivots that is not empty;
    the potential is then not NaN, no pivot is nearer to the vertex than the
    potential, and the potential is the distance of some pivot (or the
    largest double, when no distance is below it). *)
Theorem GetPotential_spec (r : Router G) (u : Vertex) :
  (IsFinalVertex r u = true -> GetPotential r u = Ok 0%float)
  /\ (IsFinalVertex r u = false ->
      ((exists p, GetPotential r u = Ok p) <->
       exists pivots, nth_error (m_pivots r) (m_stage u) = Some pivots /\ pivots <> [])
      /\ forall p pivots,
          GetPotential r u = Ok p ->
          nth_error (m_pivots r) (m_stage u) = Some pivots ->
          Dbl.is_nan p = false
          /\ (forall pivot, In pivot pivots ->
                Dbl.lt (DistanceOnEarth pivot (routing.GetPoint (m_junction u))) p = false)
          /\ (p = Dbl.DBL_MAX
              \/ exists pivot, In pivot pivots
                               /\ p = DistanceOnEarth pivot (routing.GetPoint (m_junction u)))).
Proof.
  unfold GetPotential. split; [intros ->; reflexivity|]. intros ->.
  unfold at_index.
  destruct (nth_error (m_pivots r) (m_stage u)) as [pivots|] eqn:E.
  - assert (m_stage u < length (m_pivots r))%nat as Hlt
        by (apply nth_error_Some; congruence).
    replace (m_stage u <? length (m_pivots r))%nat with true
      by (symmetry; apply Nat.ltb_lt; exact Hlt).
    cbn [CHECK bind]. split.
    + destruct pivots as [|p0 ps]; cbn [length Nat.eqb negb CHECK bind].
      * split; [intros [p Hp]; discriminate|].
        intros (pv & Hpv & Hne). congruence.
      * split; [intros _; eexists; split; [reflexivity|discriminate]|]. eauto.
    + intros p pv Hp Hpv. injection Hpv as <-.
      destruct pivots as [|p0 ps]; cbn [length Nat.eqb negb CHECK bind] in Hp;
        [discriminate|].
      injection Hp as <-.
      destruct (fold_min_spec
                  (fun pivot => DistanceOnEarth pivot (routing.GetPoint (m_junction u)))
                  (p0 :: ps) Dbl.DBL_MAX eq_refl) as (H1 & _ & H3 & H4).
      split; [exact H1|]. split; [exact H3|exact H4].
  - assert (length (m_pivots r) <= m_stage u)%nat as Hge by (apply nth_error_None; exact E).
    replace (m_stage u <? length (m_pivots r))%nat with false
      by (symmetry; apply Nat.ltb_ge; exact Hge).
    cbn [CHECK bind]. split.
    + split; [intros [p Hp]; discriminate|]. intros (pv & Hpv & _). discriminate.
    + intros p pv Hp. discriminate.
Qed.

Lemma GetPotential_ok (r : Router G) (u : Vertex) :
  (m_stage u <= length (m_pivots r))%nat ->
  Forall (fun ps => ps <> []) (m_pivots r) ->
  exists p, GetPotential r u = Ok p.
Proof.
  intros Hs Hall. unfold GetPotential, IsFinalVertex.
  destruct (m_stage u =? length (m_pivots r))%nat eqn:E; [eauto|].
  apply Nat.eqb_neq in E.
  replace (m_stage u <? length (m_pivots r))%nat with true
    by (symmetry; apply Nat.ltb_lt; lia).
  cbn [CHECK bind]. unfold at_index.
  destruct (nth_error (m_pivots r) (m_stage u)) as [pivots|] eqn:En.
  2:{ apply nth_error_None in En. lia. }
  cbn [bind]. rewrite Forall_forall in Hall.
  specialize (Hall pivots (nth_error_In _ _ En)).
  destruct pivots; [congruence|]. cbn. eauto.
Qed.

Lemma Init_pivots_true (g : G) points idx : forall acc pv,
  Init_pivots g points idx acc = Ok (pv, true) ->
  exists new, pv = acc ++ new /\ length new = length idx /\ Forall (fun ps => ps <> []) new.
Proof.
  induction idx as [|i idx IH]; intros acc pv H; simpl in H.
  - injection H as <-. exists []. rewrite app_nil_r. auto.
  - apply bind_Ok in H. destruct H as (wp & _ & H).
    destruct (length (pivotsOf g wp) =? 0)%nat eqn:E; [discriminate|].
    destruct (IH _ _ H) as (new & -> & Hl & Hf).
    exists (pivotsOf g wp :: new). rewrite <- app_assoc. split; [reflexivity|].
    split; [simpl; lia|]. constructor; auto.
    intros Hn. rewrite Hn in E. discriminate.
Qed.

Lemma Init_true (r r' : Router G) points pos neg :
  Init r points pos neg = Ok (r', true) ->
  (2 <= length points)%nat
  /\ m_points r' = points
  /\ (length (m_pivots r') + 1 = length points)%nat
  /\ Forall (fun ps => ps <> []) (m_pivots r')
  /\ exists front, nth_error points 0 = Some front
                   /\ m_sourceJunction r' = routing.MakeJunction (m_point front) 0.
Proof.
  unfold Init. intros H.
  destruct (2 <=? length points)%nat eqn:E2; cbn [CHECK bind] in H; [|discriminate].
  apply Nat.leb_le in E2.
  apply bind_Ok in H. destruct H as ([pv ok] & Hp & H).
  destruct ok; cbn [negb] in H; [|discriminate].
  destruct (Init_pivots_true _ _ _ _ _ Hp) as (new & Hpv & Hl & Hf).
  simpl in Hpv. subst pv.
  apply bind_Ok in H. destruct H as (front & Hfront & H).
  apply bind_Ok in H. destruct H as (back & Hback & H).
  apply bind_Ok in H. destruct H as (? & Hc & H).
  injection H as <-. cbn [m_points m_pivots m_sourceJunction].
  split; [exact E2|]. split; [reflexivity|]. split; [|split].
  - rewrite length_app, Hl, length_seq. simpl. lia.
  - apply Forall_app. split; auto. constructor; auto. discriminate.
  - exists front. split; auto. unfold at_index in Hfront.
    destruct (nth_error points 0); [injection Hfront as ->; reflexivity|discriminate].
Qed.

(** X12.  After a successful [Init] the potential of every vertex whose
    stage is at most the number of pivot lists is defined (no assertion of
    [GetPotential] fails), and [FindPath] passes its first CHECK and reaches
    its loop with the source vertex alone in the queue. *)
Theorem Init_then_FindPath (r r' : Router G) points pos neg :
  Init r points pos neg = Ok (r', true) ->
  (forall u, (m_stage u <= length (m_pivots r'))%nat -> exists p, GetPotential r' u = Ok p)
  /\ forall fuel path,
      exists piS,
        GetPotential r' (MakeVertex (m_sourceJunction r') (m_sourceJunction r') 0 0 false)
        = Ok piS
        /\ FindPath fuel r' path =
           FindPath_loop fuel r'
             (MakeVertex (m_sourceJunction r') (m_sourceJunction r') 0 0 false) piS
             (MakeSearch
                [(Score_zero, MakeVertex (m_sourceJunction r') (m_sourceJunction r') 0 0 false)]
                [(MakeVertex (m_sourceJunction r') (m_sourceJunction r') 0 0 false, Score_zero)]
                [])
             path.
Proof.
  intros H. destruct (Init_true _ _ _ _ _ H) as (H2 & Hpts & Hlen & Hall & _).
  split; [intros u Hu; apply GetPotential_ok; auto|].
  intros fuel path.
  set (s := MakeVertex (m_sourceJunction r') (m_sourceJunction r') 0 0 false).
  destruct (GetPotential_ok r' s) as [piS Hpi]; [simpl; lia|exact Hall|].
  exists piS. split; [exact Hpi|].
  unfold FindPath. fold s. rewrite Hpi.
  assert (NeedToCheckBearing r' s 0 = false) as ->.
  { unfold NeedToCheckBearing, IsFinalVertex. cbn [s m_stage m_bearingChecked].
    replace (0 =? length (m_pivots r'))%nat with false
      by (symmetry; apply Nat.eqb_neq; lia).
    reflexivity. }
  reflexivity.
Qed.

End PotentialFacts.

(** ** The state after [Init] *)

Section InitState.
Context {geo : Geometry} {G : Type} {graph : routing.RoadGraph G}.

Lemma Init_pivots_false (g : G) points idx : forall acc pv,
  Init_pivots g points idx acc = Ok (pv, false) ->
  exists new, pv = acc ++ new ++ [[]] /\ Forall (fun ps => ps <> []) new
              /\ (length new < length idx)%nat.
Proof.
  induction idx as [|i idx IH]; intros acc pv H; simpl in H; [discriminate|].
  apply bind_Ok in H. destruct H as (wp & _ & H).
  destruct (length (pivotsOf g wp) =? 0)%nat eqn:E.
  - injection H as <-. exists []. apply Nat.eqb_eq in E.
    destruct (pivotsOf g wp); [|discriminate]. simpl. split; auto. split; [constructor|lia].
  - destruct (IH _ _ H) as (new & -> & Hf & Hl).
    exists (pivotsOf g wp :: new). rewrite <- app_assoc. split; [reflexivity|].
    split; [|simpl; lia]. constructor; auto.
    intros Hn. rewrite Hn in E. discriminate.
Qed.

(** X20.  What [Init] writes.  It stores the way-points and the offsets and
    leaves the edge caches alone.  When it fails the fake edges of the graph
    are reset and none is added, the source and target junctions are those of
    the run before, and the pivot lists end with the empty one that made it
    fail.  When it succeeds the source and target junctions are the first and
    last way-points at altitude 0, and their fake edges are added to the
    reset graph, the source's first: the target's nearest edges are looked up
    in the graph that already holds the fake edges of the source. *)
Theorem Init_state (r r' : Router G) (points : list WayPoint) (pos neg : double) (ok : bool) :
  Init r points pos neg = Ok (r', ok) ->
  (m_points r' = points /\ m_positiveOffsetM r' = pos /\ m_negativeOffsetM r' = neg
   /\ m_outgoingCache r' = m_outgoingCache r /\ m_ingoingCache r' = m_ingoingCache r)
  /\ (ok = false ->
      m_graph r' = routing.ResetFakes (m_graph r)
      /\ m_sourceJunction r' = m_sourceJunction r
      /\ m_targetJunction r' = m_targetJunction r
      /\ exists pv, m_pivots r' = pv ++ [[]] /\ Forall (fun ps => ps <> []) pv
                    /\ (length pv + 2 < length points)%nat)
  /\ (ok = true ->
      exists front back,
        nth_error points 0 = Some front
        /\ nth_error points (length points - 1) = Some back
        /\ m_sourceJunction r' = routing.MakeJunction (m_point front) 0
        /\ m_targetJunction r' = routing.MakeJunction (m_point back) 0
        /\ m_graph r' =
           routing.AddFakeEdges
             (routing.AddFakeEdges
                (routing.ResetFakes (m_graph r)) (routing.MakeJunction (m_point front) 0)
                (routing.FindClosestEdges (routing.ResetFakes (m_graph r)) (m_point front)
                                          kMaxRoadCandidates))
             (routing.MakeJunction (m_point back) 0)
             (routing.FindClosestEdges
                (routing.AddFakeEdges
                   (routing.ResetFakes (m_graph r)) (routing.MakeJunction (m_point front) 0)
                   (routing.FindClosestEdges (routing.ResetFakes (m_graph r)) (m_point front)
                                             kMaxRoadCandidates))
                (m_point back) kMaxRoadCandidates)
        /\ last (m_pivots r') [] = [m_point back]).
Proof.
  unfold Init. intros H.
  destruct (2 <=? length points)%nat eqn:E2; cbn [CHECK bind] in H; [|discriminate].
  apply bind_Ok in H. destruct H as ([pv okp] & Hp & H).
  destruct okp; cbn [negb] in H.
  - apply bind_Ok in H. destruct H as (front & Hfront & H).
    apply bind_Ok in H. destruct H as (back & Hback & H).
    apply bind_Ok in H. destruct H as (? & _ & H). injection H as <- <-.
    cbn [m_points m_positiveOffsetM m_negativeOffsetM m_outgoingCache m_ingoingCache
         m_graph m_sourceJunction m_targetJunction m_pivots].
    split; [repeat split|]. split; [discriminate|]. intros _.
    exists front, back. unfold at_index in Hfront, Hback.
    destruct (nth_error points 0); [injection Hfront as ->|discriminate].
    destruct (nth_error points (length points - 1)); [injection Hback as ->|discriminate].
    repeat split. apply last_last.
  - injection H as <- <-.
    cbn [m_points m_positiveOffsetM m_negativeOffsetM m_outgoingCache m_ingoingCache
         m_graph m_sourceJunction m_targetJunction m_pivots].
    split; [repeat split|]. split; [|discriminate]. intros _.
    split; [reflexivity|]. split; [reflexivity|]. split; [reflexivity|].
    destruct (Init_pivots_false _ _ _ _ _ Hp) as (new & -> & Hf & Hl).
    exists new. simpl. split; [reflexivity|]. split; [exact Hf|].
    rewrite length_seq in Hl. lia.
Qed.

End InitState.

(** ** The single-edge approximation *)

Lemma for_each_inv {A S : Type} (P : S -> Prop) (fn : A -> S -> res S) l : forall s s',
  (forall a s s', In a l -> P s -> fn a s = Ok s' -> P s') ->
  P s -> for_each fn l s = Ok s' -> P s'.
Proof.
  induction l as [|a l IH]; intros s s' Hstep Hs H; simpl in H.
  - injection H as <-. exact Hs.
  - apply bind_Ok in H. destruct H as (s1 & H1 & H).
    apply (IH s1 s'); auto.
    + intros b t t' Hb. apply Hstep. right. exact Hb.
    + apply (Hstep a s s1); auto. left. reflexivity.
Qed.

(** A bound that is not below [kEps], halved, is above [-1]. *)
Lemma minus_one_below x :
  Dbl.lt x kEps = false -> Dbl.ge (-1) (x * kCoverageThreshold) = false.
Proof.
  intros H. unfold Dbl.ge, Dbl.lt in *. rewrite leb_spec, mul_spec. rewrite ltb_spec in H.
  change (Prim2SF kCoverageThreshold) with (S754_finite false 4503599627370496 (-53)).
  change (Prim2SF (-1)) with (S754_finite true 4503599627370496 (-52)).
  destruct (Prim2SF x) as [s|s| |s m e].
  - destruct s; reflexivity.
  - destruct s; [vm_compute in H; discriminate|reflexivity].
  - reflexivity.
  - destruct s; [vm_compute in H; discriminate|].
    unfold SF64mul, SFmul. cbn [xorb].
    pose proof (binary_round_aux_sign false (Zpos (m * 4503599627370496)) (e + -53) loc_Exact
                  ltac:(lia)) as Hs.
    destruct (binary_round_aux prec emax false (Zpos (m * 4503599627370496)) (e + -53)
                               loc_Exact) as [s'|s'| |s' m' e'];
      try contradiction; subst s'; reflexivity.
Qed.

Section ApproximationFacts.
Context {geo : Geometry} {G : Type} {graph : routing.RoadGraph G}.

Lemma checkEdge_inv fuel (r : Router G) edges se w wp :
  In se edges -> (w = m_u se \/ w = m_v se) ->
  nth_error (m_points r) (m_stage (m_u se)) = Some wp ->
  forall best best',
    best = ((-1)%float, routing.Edge_default) \/ approxCandidate fuel r edges best ->
    ForEachNonFakeClosestEdge r w (m_lfrcnp wp) (checkEdge fuel edges) best = Ok best' ->
    best' = ((-1)%float, routing.Edge_default) \/ approxCandidate fuel r edges best'.
Proof.
  intros Hse Hw Hwp best best' Hinv H.
  rewrite ForEachNonFakeClosestEdge_eq in H.
  revert H.
  apply (for_each_inv
           (fun b => b = ((-1)%float, routing.Edge_default) \/ approxCandidate fuel r edges b));
    [|exact Hinv].
  intros e b b' He Hb Hc. apply filter_In in He. destruct He as [He Hp].
  apply filter_In in He. destruct He as [He Hf]. apply negb_true_iff in Hf.
  unfold checkEdge in Hc. apply bind_Ok in Hc. destruct Hc as (fraction & Hcov & Hc).
  destruct (Dbl.ge fraction kThreshold && _) eqn:E; injection Hc as <-; [|exact Hb].
  right. apply andb_true_iff in E. destruct E as [E1 _].
  exists se, w, wp, fraction. cbn [fst snd]. repeat split; auto.
Qed.

Lemma FindSingleEdgeApproximation_inv fuel (r : Router G) edges path out :
  FindSingleEdgeApproximation fuel r edges path = Ok out ->
  forallb IsFake edges = true
  /\ (out = path
      \/ exists best,
          out = [snd best] /\ approxCandidate fuel r edges best
          /\ Dbl.ge (fst best)
                    (fold_left (fun acc edge => acc + GetWeight (m_raw edge))%float edges 0%float
                     * kCoverageThreshold) = true).
Proof.
  unfold FindSingleEdgeApproximation. intros H.
  destruct (forallb IsFake edges) eqn:Ef; cbn [CHECK bind] in H; [|discriminate].
  split; [reflexivity|].
  set (expected := fold_left (fun acc edge => (acc + GetWeight (m_raw edge))%float) edges
                             0%float) in *.
  destruct (Dbl.lt expected kEps) eqn:Ee; [injection H as <-; auto|].
  apply bind_Ok in H. destruct H as (best & Hloop & H).
  assert (best = ((-1)%float, routing.Edge_default) \/ approxCandidate fuel r edges best)
    as Hbest.
  { revert Hloop.
    apply (for_each_inv
             (fun b => b = ((-1)%float, routing.Edge_default) \/ approxCandidate fuel r edges b));
      [|left; reflexivity].
    intros se b b' Hse Hb Hstep.
    apply bind_Ok in Hstep. destruct Hstep as (? & _ & Hstep).
    apply bind_Ok in Hstep. destruct Hstep as (wp & Hwp & Hstep).
    apply bind_Ok in Hstep. destruct Hstep as (b1 & H1 & Hstep).
    apply bind_Ok in Hstep. destruct Hstep as (wp' & Hwp' & Hstep).
    unfold at_index in Hwp, Hwp'.
    destruct (nth_error (m_points r) (m_stage (m_u se))) as [w0|] eqn:En; [|discriminate].
    injection Hwp as <-. injection Hwp' as <-.
    apply (checkEdge_inv fuel r edges se (m_v se) w0 Hse (or_intror eq_refl) En b1 b');
      [|exact Hstep].
    apply (checkEdge_inv fuel r edges se (m_u se) w0 Hse (or_introl eq_refl) En b b1);
      [exact Hb|exact H1]. }
  destruct (Dbl.ge (fst best) (expected * kCoverageThreshold)) eqn:Eg;
    injection H as <-; [|auto].
  right. exists best. split; [reflexivity|].
  destruct Hbest as [->|Hc]; [|split; [exact Hc|exact Eg]].
  cbn [fst] in Eg. rewrite (minus_one_below _ Ee) in Eg. discriminate.
Qed.

(** X13.  The single-edge approximation requires every search edge to be
    fake.  It leaves the path as it is or makes it one edge; that edge is a
    real edge the nearest-edge query returned around an end of some search
    edge, it passes the restriction of that edge's stage, the search edges
    cover at least [0.8] of it, and its covered length is at least half the
    total length of the search edges. *)
Theorem FindSingleEdgeApproximation_spec fuel (r : Router G) (edges : list Edge)
    (path out : list routing.Edge) :
  FindSingleEdgeApproximation fuel r edges path = Ok out ->
  forallb IsFake edges = true
  /\ (out = path
      \/ exists e se w wp fraction,
          out = [e]
          /\ In se edges /\ (w = m_u se \/ w = m_v se)
          /\ nth_error (m_points r) (m_stage (m_u se)) = Some wp
          /\ In e (map fst (routing.FindClosestEdges
                              (m_graph r) (routing.GetPoint (m_junction w))
                      kMaxRoadCandidates))
          /\ routing.IsFake e = false
          /\ PassesRestriction r e (m_lfrcnp wp) = true
          /\ GetCoverage fuel (routing.GetPoint (routing.GetStartJunction e))
                         (routing.GetPoint (routing.GetEndJunction e)) edges = Ok fraction
          /\ Dbl.ge fraction kThreshold = true
          /\ Dbl.ge (GetWeight e * fraction)
                    (fold_left (fun acc edge => acc + GetWeight (m_raw edge))%float edges 0%float
                     * kCoverageThreshold) = true).
Proof.
  intros H. destruct (FindSingleEdgeApproximation_inv _ _ _ _ _ H) as [Hf Ho].
  split; [exact Hf|].
  destruct Ho as [->|(best & -> & (se & w & wp & fraction & H1 & H2 & H3 & H4 & H5 & H6 & H7 & H8
                                   & H9) & Hg)]; [left; reflexivity|].
  right. exists (snd best), se, w, wp, fraction. rewrite <- H9. repeat split; auto.
Qed.

End ApproximationFacts.

(** ** The edges of the path given out *)

Lemma last_app_nonempty {A : Type} (l1 l2 : list A) d :
  l2 <> [] -> last (l1 ++ l2) d = last l2 d.
Proof.
  intros H. induction l1 as [|a l1 IH]; [reflexivity|].
  simpl. destruct (l1 ++ l2) eqn:E; [|exact IH].
  apply app_eq_nil in E. destruct E. congruence.
Qed.

Section BackFacts.
Context {geo : Geometry} {G : Type} {graph : routing.RoadGraph G}.

Lemma findBackEdge_eq (r : Router G) es skipped e wp :
  ForStagePrefix (rev es) (length (m_points r) - 2) [] = Some (skipped, e) ->
  nth_error (m_points r) (length (m_points r) - 2) = Some wp ->
  findBackEdge r es =
  Ok (snd (edgesAt r (m_v e) true),
      chooseBest (backScore skipped) (fun c => c) (backCandidates r e wp)
                 ((-1)%float, routing.Edge_default)).
Proof.
  intros Hp Hw. unfold findBackEdge, at_index. rewrite Hp, Hw. cbn [bind].
  apply (ForEachNonFakeEdge_pure r (m_v e) true (m_lfrcnp wp) (backScore skipped)
           (fun c => c)).
Qed.

(** What [findFrontEdge] and [findBackEdge] give: the initial pair, or a
    candidate that is not fake. *)
Lemma chooseBest_real score result cands init :
  Forall (fun c => routing.IsFake (result c) = false) cands ->
  chooseBest score result cands init = init
  \/ routing.IsFake (snd (chooseBest score result cands init)) = false.
Proof.
  intros Hall. destruct (chooseBest_in score result cands init) as [H|(c & Hc & H)]; auto.
  right. rewrite H. rewrite Forall_forall in Hall. apply Hall. exact Hc.
Qed.

Lemma findFrontEdge_real (r r1 : Router G) es (front : double * routing.Edge) :
  findFrontEdge r es = Ok (r1, front) ->
  front = ((-1)%float, routing.Edge_default) \/ routing.IsFake (snd front) = false.
Proof.
  unfold findFrontEdge.
  destruct (ForStagePrefix es 0 []) as [[skipped e]|] eqn:E.
  - intros H. apply bind_Ok in H. destruct H as (wp & _ & H).
    rewrite ForEachNonFakeEdge_pure in H. injection H as _ <-.
    apply chooseBest_real. apply Forall_forall. intros c Hc.
    apply filter_In in Hc. destruct Hc as [_ Hc]. apply negb_true_iff in Hc. exact Hc.
  - intros H. injection H as _ <-. left. reflexivity.
Qed.

Lemma findBackEdge_real (r r1 : Router G) es (back : double * routing.Edge) :
  findBackEdge r es = Ok (r1, back) ->
  back = ((-1)%float, routing.Edge_default) \/ routing.IsFake (snd back) = false.
Proof.
  unfold findBackEdge.
  destruct (ForStagePrefix (rev es) (length (m_points r) - 2) []) as [[skipped e]|] eqn:E.
  - intros H. apply bind_Ok in H. destruct H as (wp & _ & H).
    rewrite (ForEachNonFakeEdge_pure r (m_v e) true (m_lfrcnp wp) (backScore skipped)
               (fun c => c)) in H.
    injection H as _ <-.
    apply chooseBest_real. apply Forall_forall. intros c Hc.
    apply filter_In in Hc. destruct Hc as [_ Hc]. apply negb_true_iff in Hc. exact Hc.
  - intros H. injection H as _ <-. left. reflexivity.
Qed.

Lemma realEdges_real es : Forall (fun e => routing.IsFake e = false) (realEdges es).
Proof.
  unfold realEdges. apply Forall_forall. intros e He. apply in_map_iff in He.
  destruct He as (b & <- & Hb). apply filter_In in Hb. destruct Hb as [_ Hb].
  apply negb_true_iff in Hb. exact Hb.
Qed.

Lemma insertFront_real (front : double * routing.Edge) path :
  front = ((-1)%float, routing.Edge_default) \/ routing.IsFake (snd front) = false ->
  Forall (fun e => routing.IsFake e = false) path ->
  Forall (fun e => routing.IsFake e = false) (insertFront front path).
Proof.
  intros Hf Hp. unfold insertFront.
  destruct (Dbl.ge (fst front) kFakeCoverageThreshold) eqn:E; cbn [andb]; [|exact Hp].
  destruct (negb (length path =? 0)%nat && _); [|exact Hp].
  constructor; [|exact Hp].
  destruct Hf as [->|Hf]; [vm_compute in E; discriminate|exact Hf].
Qed.

Lemma insertBack_real (back : double * routing.Edge) path :
  back = ((-1)%float, routing.Edge_default) \/ routing.IsFake (snd back) = false ->
  Forall (fun e => routing.IsFake e = false) path ->
  Forall (fun e => routing.IsFake e = false) (insertBack back path).
Proof.
  intros Hf Hp. unfold insertBack.
  destruct (Dbl.ge (fst back) kFakeCoverageThreshold) eqn:E; cbn [andb]; [|exact Hp].
  destruct (negb (length path =? 0)%nat && _); [|exact Hp].
  apply Forall_app. split; [exact Hp|]. constructor; [|constructor].
  destruct Hf as [->|Hf]; [vm_compute in E; discriminate|exact Hf].
Qed.

(** X14.  The path [ReconstructPath] gives out holds no fake edge: it is
    made of the real edges of the search path, of a front and a back edge
    that are real edges of the graph, or of the one real edge of the
    single-edge approximation. *)
Theorem ReconstructPath_no_fake fuel (r r' : Router G) (edges : list Edge)
    (path out : list routing.Edge) (b : bool) :
  ReconstructPath fuel r edges path = Ok (r', b, out) ->
  Forall (fun e => routing.IsFake e = false) out.
Proof.
  unfold ReconstructPath. intros H.
  apply bind_Ok in H. destruct H as (? & _ & H).
  apply bind_Ok in H. destruct H as (es & _ & H).
  apply bind_Ok in H. destruct H as ([r1 front] & Hfront & H).
  apply bind_Ok in H. destruct H as ([r2 back] & Hback & H).
  apply bind_Ok in H. destruct H as (p & Hp & H). injection H as _ _ <-.
  pose proof (insertBack_real back _ (findBackEdge_real _ _ _ _ Hback)
                (insertFront_real front _ (findFrontEdge_real _ _ _ _ Hfront)
                   (realEdges_real es))) as Hall.
  destruct (length (insertBack back (insertFront front (realEdges es))) =? 0)%nat.
  - destruct (FindSingleEdgeApproximation_inv _ _ _ _ _ Hp) as [_ [->|(best & -> & Hc & _)]];
      [exact Hall|].
    destruct Hc as (se & w & wp & fraction & _ & _ & _ & _ & Hf & _).
    constructor; [exact Hf|constructor].
  - injection Hp as <-. exact Hall.
Qed.

(** X15.  Back reattachment mirrors the front: it looks at the last
    non-fake edge [e] when every edge after it is a fake edge inside the last
    stage.  Its candidates are the real edges among the outgoing edges the
    router enumerates at the end vertex of [e] that pass the restriction of
    the way-point before the last.  The candidate chosen has a matching score
    no other candidate exceeds, and it is put after the real edges of the
    path exactly when that score is at least [0.5] and it differs from the
    last of them. *)
Theorem back_reattachment fuel (r r1 : Router G) edges path es
    (front : double * routing.Edge) skipped e wp r' b out :
  ReconstructPath fuel r edges path = Ok (r', b, out) ->
  trimEdges r edges = Ok es ->
  findFrontEdge r es = Ok (r1, front) ->
  ForStagePrefix (rev es) (length (m_points r1) - 2) [] = Some (skipped, e) ->
  nth_error (m_points r1) (length (m_points r1) - 2) = Some wp ->
  let cands := backCandidates r1 e wp in
  let best := chooseBest (backScore skipped) (fun c => c) cands
                         ((-1)%float, routing.Edge_default) in
  (exists rest, rev es = skipped ++ e :: rest /\ IsFake e = false
                /\ Forall (fun b => IsFake b = true
                                    /\ m_stage (m_u b) = (length (m_points r1) - 2)%nat
                                    /\ m_stage (m_v b) = (length (m_points r1) - 2)%nat) skipped)
  /\ (forall c, In c cands -> Dbl.gt (backScore skipped c) (fst best) = false)
  /\ (best = ((-1)%float, routing.Edge_default)
      \/ exists c, In c cands /\ best = (backScore skipped c, c))
  /\ exists head,
      out = head ++ realEdges es
            ++ (if Dbl.ge (fst best) 0.5%float
                   && routing.Edge_neb (last (realEdges es) routing.Edge_default) (snd best)
                then [snd best] else []).
Proof.
  intros Hrec Ht Hfront Hp Hw cands best.
  destruct (ForStagePrefix_some _ _ _ _ _ Hp) as (pre & rest & Hes & Hsk & Hfe & Hall).
  simpl in Hsk. subst skipped.
  split; [eauto|]. split; [intros c Hc; apply chooseBest_max; auto|].
  split; [apply chooseBest_in|].
  unfold ReconstructPath in Hrec.
  destruct (CHECK (2 <=? length (m_points r))%nat); cbn [bind] in Hrec; try discriminate.
  rewrite Ht in Hrec. cbn [bind] in Hrec. rewrite Hfront in Hrec. cbn [bind] in Hrec.
  rewrite (findBackEdge_eq r1 es pre e wp Hp Hw) in Hrec. cbn [bind] in Hrec.
  fold cands in Hrec. fold best in Hrec.
  assert (realEdges es <> []) as Hre.
  { assert (In e es) as Hin by (apply in_rev; rewrite Hes; apply in_or_app; right; left; auto).
    intros Hn. assert (In (m_raw e) (realEdges es)) as Hi.
    { unfold realEdges. apply in_map. apply filter_In. split; auto. rewrite Hfe. reflexivity. }
    rewrite Hn in Hi. destruct Hi. }
  assert (exists head, insertFront front (realEdges es) = head ++ realEdges es) as [head Hh].
  { unfold insertFront. destruct (_ && _); [exists [snd front]|exists []]; reflexivity. }
  rewrite Hh in Hrec. unfold insertBack in Hrec.
  rewrite (last_app_nonempty head (realEdges es) routing.Edge_default Hre) in Hrec.
  assert ((length (head ++ realEdges es) =? 0)%nat = false) as Hl.
  { apply Nat.eqb_neq. rewrite length_app. destruct (realEdges es); [congruence|simpl; lia]. }
  rewrite Hl in Hrec. cbn [negb andb] in Hrec. rewrite andb_true_r in Hrec.
  unfold kFakeCoverageThreshold in Hrec.
  exists head.
  destruct (Dbl.ge (fst best) 0.5%float
            && routing.Edge_neb (last (realEdges es) routing.Edge_default) (snd best)).
  - rewrite length_app in Hrec. cbn [length] in Hrec.
    replace (length (head ++ realEdges es) + 1 =? 0)%nat with false in Hrec
      by (symmetry; apply Nat.eqb_neq; lia).
    cbn [bind] in Hrec. injection Hrec as _ _ <-. rewrite app_assoc. reflexivity.
  - rewrite Hl in Hrec. cbn [bind] in Hrec. injection Hrec as _ _ <-.
    rewrite app_nil_r. reflexivity.
Qed.

End BackFacts.

(** ** Bearing penalties and what the search leaves alone *)

Lemma mod_256 x :
  0 <= x < 512 -> (x mod 256 = x /\ x < 256) \/ (x mod 256 = x - 256 /\ 256 <= x).
Proof.
  intros H. pose proof (Z.div_mod x 256 ltac:(lia)).
  pose proof (Z.mod_pos_bound x 256 ltac:(lia)). lia.
Qed.

Section ScoreMore.
Context {geo : Geometry}.

(** X16.  The bearing penalty depends only on the circular distance of the
    two buckets: it is the same with [expected] and [actual] exchanged and
    the same when both are turned by the same number of buckets; the
    distance of the score is not touched. *)
Theorem AddBearingPenalty_circular (s : Score) (expected actual k : Z) :
  0 <= expected < 256 -> 0 <= actual < 256 -> 0 <= k < 256 ->
  AddBearingPenalty s actual expected = AddBearingPenalty s expected actual
  /\ AddBearingPenalty s ((expected + k) mod 256) ((actual + k) mod 256)
     = AddBearingPenalty s expected actual
  /\ exists s', AddBearingPenalty s expected actual = Ok s'
                /\ m_distance s' = m_distance s.
Proof.
  intros He Ha Hk.
  pose proof (Z.mod_pos_bound (expected + k) 256 ltac:(lia)) as He'.
  pose proof (Z.mod_pos_bound (actual + k) 256 ltac:(lia)) as Ha'.
  rewrite !AddBearingPenalty_eq by lia.
  split; [|split].
  - replace (Z.abs (actual - expected)) with (Z.abs (expected - actual)) by lia. reflexivity.
  - replace (Z.min (Z.abs ((expected + k) mod 256 - (actual + k) mod 256))
                   (256 - Z.abs ((expected + k) mod 256 - (actual + k) mod 256)))
      with (Z.min (Z.abs (expected - actual)) (256 - Z.abs (expected - actual)));
      [reflexivity|].
    destruct (mod_256 (expected + k) ltac:(lia)) as [[-> ?]|[-> ?]];
      destruct (mod_256 (actual + k) ltac:(lia)) as [[-> ?]|[-> ?]]; lia.
  - eexists. split; reflexivity.
Qed.

Lemma Bearing_bucket a b k : Bearing a b = Ok k -> 0 <= k <= 255.
Proof.
  unfold Bearing. intros H.
  destruct (CHECK _); cbn [bind] in H; try discriminate.
  destruct (CHECK _); cbn [bind] in H; try discriminate.
  apply to_uint32_clamp_inv in H. exact H.
Qed.

(** X17.  The reverse bearing, when it is returned, is a bucket in
    [0, 255], so as [actual] it passes the range assertions of
    [AddBearingPenalty].  For a vertex with no back-link, or whose back-link
    comes from another stage, it is the bearing from the vertex to itself. *)
Theorem GetReverseBearing_range (fuel : nat) (u : Vertex) (lnk : Links) :
  (forall k, GetReverseBearing fuel u lnk = Ok k ->
             0 <= k <= 255
             /\ forall s expected, 0 <= expected < 256 ->
                                   exists s', AddBearingPenalty s expected (Int.wrap k) = Ok s')
  /\ ((StdMap.find Vertex_ltb lnk u = None
       \/ exists prev e, StdMap.find Vertex_ltb lnk u = Some (prev, e)
                         /\ m_stage prev <> m_stage u) ->
      GetReverseBearing (S fuel) u lnk
      = Bearing (routing.GetPoint (m_junction u)) (routing.GetPoint (m_junction u))).
Proof.
  split.
  - intros k H. unfold GetReverseBearing in H.
    apply bind_Ok in H. destruct H as ([found curr] & _ & H).
    apply Bearing_bucket in H. split; [exact H|].
    intros s expected He. rewrite int_wrap_small by lia.
    eexists. apply AddBearingPenalty_eq; lia.
  - intros [H|(prev & e & H & Hs)]; unfold GetReverseBearing; cbn [reverse_walk]; rewrite H.
    + reflexivity.
    + replace (m_stage prev =? m_stage u)%nat with false
        by (symmetry; apply Nat.eqb_neq; exact Hs).
      reflexivity.
Qed.

End ScoreMore.

Section SearchFacts.
Context {geo : Geometry} {G : Type} {graph : routing.RoadGraph G}.

Lemma same_setup_refl (r : Router G) : same_setup r r.
Proof. repeat split. Qed.

Lemma same_setup_trans (r1 r2 r3 : Router G) :
  same_setup r1 r2 -> same_setup r2 r3 -> same_setup r1 r3.
Proof.
  intros (A1 & A2 & A3 & A4 & A5 & A6 & A7) (B1 & B2 & B3 & B4 & B5 & B6 & B7).
  repeat split; congruence.
Qed.

Lemma edgesAt_setup (r : Router G) u outgoing : same_setup r (snd (edgesAt r u outgoing)).
Proof.
  unfold edgesAt, GetOutgoingEdges, GetIngoingEdges.
  destruct outgoing; destruct (GetEdges _ _ _ _ _); repeat split.
Qed.

Lemma ForEachEdge_setup (S : Type) (r r' : Router G) u outgoing lfrcnp
    (fn : routing.Edge -> S -> res S) s s' :
  ForEachEdge r u outgoing lfrcnp fn s = Ok (r', s') -> same_setup r r'.
Proof.
  rewrite ForEachEdge_eq. intros H. apply bind_Ok in H. destruct H as (? & _ & H).
  injection H as <- _. apply edgesAt_setup.
Qed.

Lemma findFrontEdge_setup (r r1 : Router G) es front :
  findFrontEdge r es = Ok (r1, front) -> same_setup r r1.
Proof.
  unfold findFrontEdge. destruct (ForStagePrefix es 0 []) as [[skipped e]|].
  - intros H. apply bind_Ok in H. destruct H as (wp & _ & H).
    apply ForEachEdge_setup in H. exact H.
  - intros H. injection H as <- _. apply same_setup_refl.
Qed.

Lemma findBackEdge_setup (r r1 : Router G) es back :
  findBackEdge r es = Ok (r1, back) -> same_setup r r1.
Proof.
  unfold findBackEdge.
  destruct (ForStagePrefix (rev es) (length (m_points r) - 2) []) as [[skipped e]|].
  - intros H. apply bind_Ok in H. destruct H as (wp & _ & H).
    apply ForEachEdge_setup in H. exact H.
  - intros H. injection H as <- _. apply same_setup_refl.
Qed.

Lemma ReconstructPath_setup fuel (r r' : Router G) edges path b out :
  ReconstructPath fuel r edges path = Ok (r', b, out) -> same_setup r r'.
Proof.
  unfold ReconstructPath. intros H.
  apply bind_Ok in H. destruct H as (? & _ & H).
  apply bind_Ok in H. destruct H as (es & _ & H).
  apply bind_Ok in H. destruct H as ([r1 front] & Hfront & H).
  apply bind_Ok in H. destruct H as ([r2 back] & Hback & H).
  apply bind_Ok in H. destruct H as (p & _ & H). injection H as <- _ _.
  apply same_setup_trans with r1;
    [eapply findFrontEdge_setup|eapply findBackEdge_setup]; eauto.
Qed.

Lemma FindPath_step_setup fuel (r : Router G) s piS st su u path :
  (forall out, FindPath_step fuel r s piS st su u path = Ok (inl out) ->
               same_setup r (fst (fst out)))
  /\ (forall r' st', FindPath_step fuel r s piS st su u path = Ok (inr (r', st')) ->
                     same_setup r r').
Proof.
  unfold FindPath_step.
  destruct (StdMap.index Vertex_ltb (scores st) u Score_zero) as [scores_u scores'].
  destruct (Score_neb su scores_u).
  { split; [discriminate|]. intros r' st' H. injection H as <- _. apply same_setup_refl. }
  destruct (IsFinalVertex r u).
  { split; [|intros r' st' H; apply bind_Ok in H; destruct H as (? & _ & H);
              apply bind_Ok in H; destruct H as (? & _ & H); discriminate].
    intros out H. apply bind_Ok in H. destruct H as (edges & _ & H).
    apply bind_Ok in H. destruct H as ([[r1 b1] o1] & H1 & H). injection H as <-.
    eapply ReconstructPath_setup; eauto. }
  split.
  - intros out H.
    repeat (apply bind_Ok in H; destruct H as (? & _ & H)).
    destruct (Dbl.gt _ _); [discriminate|].
    repeat (apply bind_Ok in H; destruct H as (? & _ & H)). discriminate.
  - intros r' st' H.
    apply bind_Ok in H. destruct H as (wp & _ & H).
    apply bind_Ok in H. destruct H as (piU & _ & H).
    apply bind_Ok in H. destruct H as (? & _ & H).
    destruct (Dbl.gt _ _); [injection H as <- _; apply same_setup_refl|].
    apply bind_Ok in H. destruct H as (st1 & _ & H).
    apply bind_Ok in H. destruct H as (st2 & _ & H).
    apply bind_Ok in H. destruct H as ([r1 st3] & H1 & H). injection H as <- _.
    eapply ForEachEdge_setup; eauto.
Qed.

Lemma FindPath_loop_setup fuel : forall (r : Router G) s piS st path r' b out,
  FindPath_loop fuel r s piS st path = Ok (r', b, out) -> same_setup r r'.
Proof.
  induction fuel as [|fuel IH]; intros r s piS st path r' b out H; simpl in H;
    [discriminate|].
  destruct (queue_pop (queue st)) as [[[su u] q]|].
  2:{ injection H as <- _ _. apply same_setup_refl. }
  apply bind_Ok in H. destruct H as (next & Hs & H).
  destruct (FindPath_step_setup fuel r s piS (MakeSearch q (scores st) (links st)) su u path)
    as [Hl Hr].
  destruct next as [o|[r1 st1]].
  - injection H as ->. apply (Hl _ Hs).
  - apply same_setup_trans with r1; [apply (Hr _ _ Hs)|eapply IH; eauto].
Qed.

(** X18.  The search and the reconstruction write nothing but the two edge
    caches: after [FindPath] the graph (with its fake edges), the
    way-points, the offsets, the pivots and the source and target junctions
    are what they were. *)
Theorem FindPath_setup fuel (r r' : Router G) path b out :
  FindPath fuel r path = Ok (r', b, out) ->
  m_graph r' = m_graph r
  /\ m_points r' = m_points r
  /\ m_pivots r' = m_pivots r
  /\ m_positiveOffsetM r' = m_positiveOffsetM r
  /\ m_negativeOffsetM r' = m_negativeOffsetM r
  /\ m_sourceJunction r' = m_sourceJunction r
  /\ m_targetJunction r' = m_targetJunction r.
Proof.
  unfold FindPath. intros H.
  apply bind_Ok in H. destruct H as (? & _ & H).
  apply bind_Ok in H. destruct H as (piS & _ & H).
  apply FindPath_loop_setup in H. exact H.
Qed.

End SearchFacts.

(** ** The stages in the queue *)

Lemma queue_pop_perm q : forall a rest,
  queue_pop q = Some (a, rest) -> Permutation q (a :: rest).
Proof.
  induction q as [|x q IH]; intros a rest H; simpl in H; [discriminate|].
  destruct (queue_pop q) as [[b r]|] eqn:E.
  - destruct (State_ltb b x); injection H as <- <-.
    + eapply perm_trans; [apply perm_skip; apply (IH _ _ eq_refl)|apply perm_swap].
    + apply Permutation_refl.
  - injection H as <- <-. destruct q; [apply Permutation_refl|].
    simpl in E. destruct (queue_pop q) as [[b r]|]; [destruct (State_ltb b s)|]; discriminate.
Qed.

Lemma pushVertex_stage n st u v sv e :
  stage_ok n st -> (m_stage v <= n)%nat -> stage_ok n (pushVertex st u v sv e).
Proof.
  intros Hst Hv. unfold pushVertex. destruct (_ && _); [|exact Hst].
  unfold stage_ok. cbn [queue queue_emplace]. constructor; auto.
Qed.

Section StageFacts.
Context {geo : Geometry} {G : Type} {graph : routing.RoadGraph G}.

Lemma relaxEdge_stage n (r : Router G) u su piU ud stage d expected edge st st' :
  stage_ok n st -> (m_stage u <= n)%nat ->
  relaxEdge r u su piU ud stage d expected edge st = Ok st' -> stage_ok n st'.
Proof.
  intros Hst Hu H. unfold relaxEdge in H.
  apply bind_Ok in H. destruct H as (piV & _ & H).
  apply bind_Ok in H. destruct H as ([v sv] & Hv & H). injection H as <-.
  apply pushVertex_stage; auto.
  destruct (NeedToCheckBearing r _ _).
  - apply bind_Ok in Hv. destruct Hv as (? & _ & Hv).
    apply bind_Ok in Hv. destruct Hv as (? & _ & Hv). injection Hv as <- _. exact Hu.
  - injection Hv as <- _. exact Hu.
Qed.

(** X19.  The stages in the queue stay within the pivot lists: a round of
    the loop of [FindPath] on a vertex of stage at most [m_pivots.size()]
    leaves in the queue only vertices of such a stage (a vertex moves to the
    next stage only from a stage below [m_pivots.size()], and an edge keeps
    the stage), and so the state popped next is such a vertex again. *)
Theorem FindPath_step_stage fuel (r r' : Router G) s piS st st' su u path :
  stage_ok (length (m_pivots r)) st -> (m_stage u <= length (m_pivots r))%nat ->
  FindPath_step fuel r s piS st su u path = Ok (inr (r', st')) ->
  stage_ok (length (m_pivots r')) st'
  /\ forall a rest, queue_pop (queue st') = Some (a, rest) ->
                    (m_stage (snd a) <= length (m_pivots r'))%nat
                    /\ stage_ok (length (m_pivots r')) (MakeSearch rest (scores st') (links st')).
Proof.
  intros Hst Hu H.
  assert (stage_ok (length (m_pivots r')) st') as Hok.
  { destruct (FindPath_step_setup fuel r s piS st su u path) as [_ Hset].
    destruct (Hset _ _ H) as (_ & _ & -> & _).
    unfold FindPath_step in H.
    destruct (StdMap.index Vertex_ltb (scores st) u Score_zero) as [scores_u scores'].
    destruct (Score_neb su scores_u); [injection H as _ <-; exact Hst|].
    destruct (IsFinalVertex r u).
    { apply bind_Ok in H. destruct H as (? & _ & H).
      apply bind_Ok in H. destruct H as (? & _ & H). discriminate. }
    apply bind_Ok in H. destruct H as (wp & _ & H).
    apply bind_Ok in H. destruct H as (piU & _ & H).
    apply bind_Ok in H. destruct H as (? & _ & H).
    destruct (Dbl.gt _ _); [injection H as _ <-; exact Hst|].
    apply bind_Ok in H. destruct H as (st1 & H1 & H).
    apply bind_Ok in H. destruct H as (st2 & H2 & H).
    apply bind_Ok in H. destruct H as ([r1 st3] & H3 & H). injection H as _ <-.
    assert (stage_ok (length (m_pivots r)) st1) as Hs1.
    { destruct (NearNextStage r u piU && negb (m_bearingChecked u)).
      - apply bind_Ok in H1. destruct H1 as (sv & _ & H1). injection H1 as <-.
        apply pushVertex_stage; [exact Hst|exact Hu].
      - injection H1 as <-. exact Hst. }
    assert (stage_ok (length (m_pivots r)) st2) as Hs2.
    { destruct (MayMoveToNextStage r u piU) eqn:Em.
      - apply bind_Ok in H2. destruct H2 as (piV & _ & H2).
        apply bind_Ok in H2. destruct H2 as (wpv & _ & H2).
        apply bind_Ok in H2. destruct H2 as (sv & _ & H2). injection H2 as <-.
        apply pushVertex_stage; [exact Hs1|]. cbn [m_stage].
        unfold MayMoveToNextStage, NearNextStage in Em.
        apply andb_true_iff in Em. destruct Em as [Em _].
        apply andb_true_iff in Em. destruct Em as [Em _]. apply Nat.ltb_lt in Em. lia.
      - injection H2 as <-. exact Hs1. }
    rewrite ForEachEdge_eq in H3. apply bind_Ok in H3. destruct H3 as (st4 & H4 & H3).
    injection H3 as _ <-. revert H4.
    apply (for_each_inv (stage_ok (length (m_pivots r)))); [|exact Hs2].
    intros e t t' _ Ht Hr. eapply relaxEdge_stage; eauto. }
  split; [exact Hok|].
  intros a rest Hpop. apply queue_pop_perm in Hpop.
  unfold stage_ok in *. cbn [queue].
  pose proof (Permutation_Forall Hpop Hok) as Hall. inversion Hall; subst. auto.
Qed.

End StageFacts.

(** ** The further properties at concrete inputs *)

Lemma Init_twoPoints :
  Init (graph := Plane.roadGraph) (Plane.router Plane.oneEdgeGraph FRC3) Plane.twoPoints 0 0
  = Ok (Samples.routerAfterInit, true).
Proof. vm_compute. reflexivity. Qed.

Lemma FindPath_twoPoints :
  FindPath (geo := Plane.geometry) (graph := Plane.roadGraph) 20 Samples.routerAfterInit []
  = Ok (Plane.routerAfterGo, true, [Plane.AB]).
Proof. vm_compute. reflexivity. Qed.

Lemma FindPath_step_first :
  FindPath_step (geo := Plane.geometry) (graph := Plane.roadGraph)
                20 Samples.routerAfterInit Samples.source Samples.piS Samples.popped Score_zero
                Samples.source []
  = Ok (inr Samples.afterFirstRound).
Proof. vm_compute. reflexivity. Qed.

Lemma approximation_fakeOnly :
  FindSingleEdgeApproximation (geo := Plane.geometry) (graph := Plane.roadGraph) 5
    (Plane.routerAt Plane.oneEdgeGraph Plane.pointsPQ) Plane.fakeOnly []
  = Ok [Plane.AB].
Proof. vm_compute. reflexivity. Qed.

Lemma reconstruct_forthAndBack :
  ReconstructPath (geo := Plane.geometry) (graph := Plane.roadGraph) 5
    (Plane.routerAt Plane.twoWayGraph Samples.pointsT) Samples.forthAndBack []
  = Ok (Samples.routerAfterForthAndBack, true, [Plane.AB; Plane.BA]).
Proof. vm_compute. reflexivity. Qed.

Lemma trimEdges_forthAndBack :
  trimEdges (geo := Plane.geometry) (Plane.routerAt Plane.twoWayGraph Samples.pointsT)
            Samples.forthAndBack
  = Ok Samples.forthAndBack.
Proof. vm_compute. reflexivity. Qed.

Lemma findFrontEdge_forthAndBack :
  findFrontEdge (geo := Plane.geometry) (graph := Plane.roadGraph)
                (Plane.routerAt Plane.twoWayGraph Samples.pointsT) Samples.forthAndBack
  = Ok (fst Samples.afterFront, snd Samples.afterFront).
Proof. vm_compute. reflexivity. Qed.

(** X4 on a road of class 3: it passes the restriction FRC0 and so FRC4. *)
Lemma PassesRestriction_monotone_witness :
  PassesRestriction (Plane.router Plane.oneEdgeGraph FRC3) Plane.AB FRC4 = true.
Proof.
  apply (proj1 (PassesRestriction_monotone (Plane.router Plane.oneEdgeGraph FRC3) FRC0 FRC4
                  ltac:(simpl; lia)) Plane.AB).
  vm_compute. reflexivity.
Defined.

(** X12 on the one-edge graph: the potential of the source vertex is
    defined after [Init]. *)
Lemma Init_then_FindPath_witness :
  exists p, GetPotential (geo := Plane.geometry) Samples.routerAfterInit Samples.source = Ok p.
Proof.
  apply (proj1 (@Init_then_FindPath Plane.geometry _ Plane.roadGraph
                  (Plane.router Plane.oneEdgeGraph FRC3) Samples.routerAfterInit
                  Plane.twoPoints 0%float 0%float Init_twoPoints)).
  simpl. lia.
Defined.

(** X13 on the fake edge from [P] to [Q] along [AB]: every search edge is
    fake. *)
Lemma FindSingleEdgeApproximation_spec_witness :
  forallb IsFake Plane.fakeOnly = true.
Proof.
  exact (proj1 (@FindSingleEdgeApproximation_spec Plane.geometry _ Plane.roadGraph 5
                  (Plane.routerAt Plane.oneEdgeGraph Plane.pointsPQ) Plane.fakeOnly []
                  [Plane.AB] approximation_fakeOnly)).
Defined.

(** X14 on the road with both directions. *)
Lemma ReconstructPath_no_fake_witness :
  Forall (fun e => routing.IsFake e = false) [Plane.AB].
Proof.
  exact (@ReconstructPath_no_fake Plane.geometry _ Plane.roadGraph 5
           (Plane.routerAt Plane.twoWayGraph Plane.pointsS) Plane.routerAfterBackAndForth
           Plane.backAndForth [] [Plane.AB] true reconstruct_backAndForth).
Defined.

(** X15 on [forthAndBack]: the only candidate is [BA], its score is [0.75],
    and it is put after [AB]. *)
Lemma back_reattachment_witness :
  exists head,
    [Plane.AB; Plane.BA] =
    head ++ realEdges Samples.forthAndBack
    ++ (if Dbl.ge (fst (chooseBest (backScore (geo := Plane.geometry)
                                              [nth 1 Samples.forthAndBack Edge_default])
                                   (fun c => c) [Plane.BA]
                                   ((-1)%float, routing.Edge_default))) 0.5
           && routing.Edge_neb (last (realEdges Samples.forthAndBack) routing.Edge_default)
                (snd (chooseBest (backScore (geo := Plane.geometry)
                                            [nth 1 Samples.forthAndBack Edge_default])
                                 (fun c => c) [Plane.BA]
                                 ((-1)%float, routing.Edge_default)))
        then [snd (chooseBest (backScore (geo := Plane.geometry)
                                         [nth 1 Samples.forthAndBack Edge_default])
                              (fun c => c) [Plane.BA]
                              ((-1)%float, routing.Edge_default))]
        else []).
Proof.
  exact (proj2 (proj2 (proj2
    (@back_reattachment Plane.geometry _ Plane.roadGraph 5
       (Plane.routerAt Plane.twoWayGraph Samples.pointsT) (fst Samples.afterFront)
       Samples.forthAndBack [] Samples.forthAndBack (snd Samples.afterFront)
       [nth 1 Samples.forthAndBack Edge_default]
       (nth 0 Samples.forthAndBack Edge_default) (Plane.wayPoint Plane.A 0 64)
       Samples.routerAfterForthAndBack true [Plane.AB; Plane.BA]
       reconstruct_forthAndBack trimEdges_forthAndBack findFrontEdge_forthAndBack
       eq_refl eq_refl)))).
Defined.

(** X16 at the buckets 10 and 250, turned by 16 buckets to 26 and 10. *)
Lemma AddBearingPenalty_circular_witness :
  AddBearingPenalty (geo := Plane.geometry) Score_zero 26 10
  = AddBearingPenalty (geo := Plane.geometry) Score_zero 10 250.
Proof.
  exact (proj1 (proj2 (@AddBearingPenalty_circular Plane.geometry Score_zero 10 250 16
                         ltac:(lia) ltac:(lia) ltac:(lia)))).
Defined.

(** X18 on the one-edge graph: the graph after the search is the graph
    after [Init]. *)
Lemma FindPath_setup_witness :
  m_graph Plane.routerAfterGo = m_graph Samples.routerAfterInit.
Proof.
  exact (proj1 (@FindPath_setup Plane.geometry _ Plane.roadGraph 20 Samples.routerAfterInit
                  Plane.routerAfterGo [] true [Plane.AB] FindPath_twoPoints)).
Defined.

(** X19 on the first round of the search on the one-edge graph. *)
Lemma FindPath_step_stage_witness :
  stage_ok 1 (snd Samples.afterFirstRound).
Proof.
  refine (proj1 (@FindPath_step_stage Plane.geometry _ Plane.roadGraph 20
                   Samples.routerAfterInit (fst Samples.afterFirstRound) Samples.source
                   Samples.piS Samples.popped (snd Samples.afterFirstRound) Score_zero
                   Samples.source [] _ _ FindPath_step_first)).
  - constructor.
  - simpl. lia.
Defined.

(** X20 on the one-edge graph with its two way-points: they are stored. *)
Lemma Init_state_witness : m_points Samples.routerAfterInit = Plane.twoPoints.
Proof.
  exact (proj1 (proj1 (@Init_state _ Plane.roadGraph
                         (Plane.router Plane.oneEdgeGraph FRC3) Samples.routerAfterInit
                         Plane.twoPoints 0%float 0%float true Init_twoPoints))).
Defined.

(** ** The links of the search *)

Lemma assign_values {K V : Type} (ltb : K -> K -> bool) (P : V -> Prop) (m : StdMap.t K V) k v :
  Forall (fun kv => P (snd kv)) m -> P v ->
  Forall (fun kv => P (snd kv)) (StdMap.assign ltb m k v).
Proof.
  intros Hm Hv. induction m as [|[k' v'] m IH]; simpl.
  - constructor; auto.
  - inversion Hm; subst. destruct (StdMap.equiv ltb k' k); constructor; auto.
Qed.

Lemma find_values {K V : Type} (ltb : K -> K -> bool) (P : V -> Prop) (m : StdMap.t K V) k v :
  Forall (fun kv => P (snd kv)) m -> StdMap.find ltb m k = Some v -> P v.
Proof.
  intros Hm. induction m as [|[k' v'] m IH]; simpl; [discriminate|].
  inversion Hm; subst. destruct (StdMap.equiv ltb k' k); auto.
  intros H. injection H as <-. assumption.
Qed.

Lemma pushVertex_links st u v sv e :
  links_ok st -> same_stage e -> links_ok (pushVertex st u v sv e).
Proof.
  intros Hst He. unfold pushVertex. destruct (_ && _); [|exact Hst].
  unfold links_ok. cbn [links].
  apply (assign_values Vertex_ltb (fun p : Vertex * Edge => same_stage (snd p))); auto.
Qed.

Section LinkFacts.
Context {geo : Geometry} {G : Type} {graph : routing.RoadGraph G}.

Lemma relaxEdge_links (r : Router G) u su piU ud stage d expected edge st st' :
  links_ok st ->
  relaxEdge r u su piU ud stage d expected edge st = Ok st' -> links_ok st'.
Proof.
  intros Hst H. unfold relaxEdge in H.
  apply bind_Ok in H. destruct H as (piV & _ & H).
  apply bind_Ok in H. destruct H as ([v sv] & Hv & H). injection H as <-.
  apply pushVertex_links; auto.
  intros _. cbn [MakeNormal m_u m_v].
  destruct (NeedToCheckBearing r _ _).
  - apply bind_Ok in Hv. destruct Hv as (? & _ & Hv).
    apply bind_Ok in Hv. destruct Hv as (? & _ & Hv). injection Hv as <- _. reflexivity.
  - injection Hv as <- _. reflexivity.
Qed.

Lemma collect_edges_links fuel (lnk : Links) : forall cur s es,
  Forall (fun kv : Vertex * (Vertex * Edge) => same_stage (snd (snd kv))) lnk ->
  collect_edges fuel lnk cur s = Ok es -> Forall same_stage es.
Proof.
  induction fuel as [|fuel IH]; intros cur s es Hl H; simpl in H; [discriminate|].
  destruct (Vertex_neb cur s); [|injection H as <-; constructor].
  apply bind_Ok in H. destruct H as (rest & Hr & H). injection H as <-.
  constructor; [|eapply IH; eauto].
  unfold StdMap.index.
  destruct (StdMap.find Vertex_ltb lnk cur) as [p|] eqn:E; cbn [fst snd].
  - apply (find_values Vertex_ltb (fun p : Vertex * Edge => same_stage (snd p)) lnk cur p Hl E).
  - intros _. reflexivity.
Qed.

(** X21.  Every link a round of the loop of [FindPath] records is a special
    edge or an edge between two vertices of one stage, and so are the edges
    collected from the links for the reconstruction: once the special edges
    are erased, the two ends of every edge left have the same stage, which is
    what [FindSingleEdgeApproximation] asserts of each. *)
Theorem links_same_stage fuel (r : Router G) s piS st su u path :
  links_ok st ->
  (forall r' st', FindPath_step fuel r s piS st su u path = Ok (inr (r', st')) -> links_ok st')
  /\ forall cur es,
      collect_edges fuel (links st) cur s = Ok es ->
      Forall (fun e => m_stage (m_u e) = m_stage (m_v e))
             (filter (fun e => negb (IsSpecial e)) es).
Proof.
  intros Hst. split.
  - intros r' st' H. unfold FindPath_step in H.
    destruct (StdMap.index Vertex_ltb (scores st) u Score_zero) as [scores_u scores'].
    destruct (Score_neb su scores_u); [injection H as _ <-; exact Hst|].
    destruct (IsFinalVertex r u).
    { apply bind_Ok in H. destruct H as (? & _ & H).
      apply bind_Ok in H. destruct H as (? & _ & H). discriminate. }
    apply bind_Ok in H. destruct H as (wp & _ & H).
    apply bind_Ok in H. destruct H as (piU & _ & H).
    apply bind_Ok in H. destruct H as (? & _ & H).
    destruct (Dbl.gt _ _); [injection H as _ <-; exact Hst|].
    apply bind_Ok in H. destruct H as (st1 & H1 & H).
    apply bind_Ok in H. destruct H as (st2 & H2 & H).
    apply bind_Ok in H. destruct H as ([r1 st3] & H3 & H). injection H as _ <-.
    assert (links_ok st1) as Hs1.
    { destruct (NearNextStage r u piU && negb (m_bearingChecked u)).
      - apply bind_Ok in H1. destruct H1 as (sv & _ & H1). injection H1 as <-.
        apply pushVertex_links; [exact Hst|]. intros Hsp. discriminate.
      - injection H1 as <-. exact Hst. }
    assert (links_ok st2) as Hs2.
    { destruct (MayMoveToNextStage r u piU).
      - apply bind_Ok in H2. destruct H2 as (piV & _ & H2).
        apply bind_Ok in H2. destruct H2 as (wpv & _ & H2).
        apply bind_Ok in H2. destruct H2 as (sv & _ & H2). injection H2 as <-.
        apply pushVertex_links; [exact Hs1|]. intros Hsp. discriminate.
      - injection H2 as <-. exact Hs1. }
    rewrite ForEachEdge_eq in H3. apply bind_Ok in H3. destruct H3 as (st4 & H4 & H3).
    injection H3 as _ <-. revert H4.
    apply (for_each_inv links_ok); [|exact Hs2].
    intros e t t' _ Ht Hr. eapply relaxEdge_links; eauto.
  - intros cur es H. apply (collect_edges_links fuel (links st) cur s es Hst) in H.
    apply Forall_forall. intros e He. apply filter_In in He. destruct He as [He Hsp].
    rewrite Forall_forall in H. apply (H e He). unfold IsSpecial in Hsp.
    apply negb_true_iff in Hsp. exact Hsp.
Qed.

End LinkFacts.

(** X21 on the first round of the search on the one-edge graph. *)
Lemma links_same_stage_witness : links_ok (snd Samples.afterFirstRound).
Proof.
  refine (proj1 (@links_same_stage Plane.geometry _ Plane.roadGraph 20
                   Samples.routerAfterInit Samples.source Samples.piS Samples.popped
                   Score_zero Samples.source [] _)
                (fst Samples.afterFirstRound) (snd Samples.afterFirstRound)
                FindPath_step_first).
  constructor.
Defined.
